(** * rag_byma: a shallow embedding of the pipeline helpers, the retriever
      and the evaluator, with the properties of the specification.

    Layout.  Part I embeds the Python sources: the built-ins the code
    relies on ([str] methods, binary64 arithmetic, [round], [difflib]),
    then [src/impl/retriever.py], [src/impl/response_generator.py],
    [src/impl/evaluator.py] and [src/rag_pipeline.py], and ends with the
    vocabulary in which the properties are stated.  Part II proves the
    properties: one theorem per claim of the specification, C1 to C10,
    each named in the comment that precedes it.  Part III proves further
    properties of the same code, X1 to X18, named in the same way. *)

From stdpp Require Import gmap strings list sorting.
From Stdlib Require Import ZArith QArith Qround Qabs Qpower Lia Lqa.

Set Default Proof Using "Type*".
Open Scope Z_scope.

(* ===================================================================== *)
(** * Part I.  The embedding                                              *)
(* ===================================================================== *)

(** ** Python strings

    A Python [str] is a sequence of Unicode code points. *)

Definition str : Type := list N.

(** String literals of this file are written as UTF-8 text and decoded
    to code points. *)
Fixpoint utf8_decode (bs : list N) : str :=
  match bs with
  | [] => []
  | b0 :: t0 =>
    if (b0 <? 128)%N then b0 :: utf8_decode t0 else
    match t0 with
    | [] => []
    | b1 :: t1 =>
      if (b0 <? 224)%N then
        ((b0 - 192) * 64 + (b1 - 128))%N :: utf8_decode t1
      else
      match t1 with
      | [] => []
      | b2 :: t2 =>
        if (b0 <? 240)%N then
          ((b0 - 224) * 4096 + (b1 - 128) * 64 + (b2 - 128))%N
            :: utf8_decode t2
        else
        match t2 with
        | [] => []
        | b3 :: t3 =>
          ((b0 - 240) * 262144 + (b1 - 128) * 4096
             + (b2 - 128) * 64 + (b3 - 128))%N :: utf8_decode t3
        end
      end
    end
  end.

Definition u (s : string) : str :=
  utf8_decode (map Ascii.N_of_ascii (String.list_ascii_of_string s)).

(** [str.isspace] for one code point; [str.split()] separates on exactly
    these code points. *)
Definition isspace (c : N) : bool :=
  ((9 <=? c) && (c <=? 13) || (28 <=? c) && (c <=? 32)
   || (c =? 133) || (c =? 160) || (c =? 5760)
   || (8192 <=? c) && (c <=? 8202)
   || (c =? 8232) || (c =? 8233) || (c =? 8239) || (c =? 8287)
   || (c =? 12288))%N.

(** [s.split()]: maximal runs of non-whitespace code points, in order.
    [word] holds the run being read, most recent code point first. *)
Fixpoint split_from (word : str) (s : str) : list str :=
  match s with
  | [] => match word with [] => [] | _ => [rev word] end
  | c :: s' =>
    if isspace c then
      match word with
      | [] => split_from [] s'
      | _ => rev word :: split_from [] s'
      end
    else split_from (c :: word) s'
  end.

Definition split (s : str) : list str := split_from [] s.

(** [sep.join(parts)]. *)
Fixpoint join (sep : str) (parts : list str) : str :=
  match parts with
  | [] => []
  | [p] => p
  | p :: rest => p ++ sep ++ join sep rest
  end.

(** [x in s] on strings: [x] occurs in [s] as a contiguous block. *)
Fixpoint startswith (s x : str) {struct x} : bool :=
  match x, s with
  | [], _ => true
  | _ :: _, [] => false
  | a :: x', b :: s' => (a =? b)%N && startswith s' x'
  end.

Fixpoint str_in (x s : str) : bool :=
  startswith s x ||
  match s with
  | [] => false
  | _ :: s' => str_in x s'
  end.

(** [str.lower] follows the Unicode case tables, which are data of the
    Python runtime; the embedding takes it as an operation of the
    string type. *)
Class StrOps : Type := { lower : str -> str }.

(** The Basic Latin and Latin-1 Supplement rows of that table
    (U+0000..U+00FF), where lower-casing is one code point to one code
    point; code points above U+00FF are left as they are.  This
    instance serves to evaluate the definitions on concrete texts of
    these two blocks. *)
Definition lower_cp_latin1 (c : N) : N :=
  if ((65 <=? c) && (c <=? 90)
      || (192 <=? c) && (c <=? 222) && negb (c =? 215))%N
  then (c + 32)%N else c.

Definition Latin1 : StrOps := {| lower := map lower_cp_latin1 |}.


(** ** Python floats

    A Python [float] is an IEEE 754 binary64 number.  A finite one is
    kept as the rational it denotes; every operation computes the exact
    rational result and rounds it to the nearest binary64 value, ties to
    the even significand.  The exponent range is bounded below (gradual
    underflow at [2^-1074]); the overflow threshold is left out, no
    quantity of this program comes near it. *)

Definition pow2 (e : Z) : Q := (2 ^ e)%Q.

(** Nearest integer, ties to even. *)
Definition rne (q : Q) : Z :=
  let f := Qfloor q in
  match (q - inject_Z f ?= 1 # 2)%Q with
  | Lt => f
  | Gt => f + 1
  | Eq => if Z.even f then f else f + 1
  end.

(** [floor (log2 q)] for [q > 0]. *)
Definition ilog2 (q : Q) : Z :=
  let t := Z.log2 (Qnum q) - Z.log2 (Zpos (Qden q)) in
  if Qle_bool (pow2 t) q then t else t - 1.

(** Exponent of the unit in the last place of the binade of [q]. *)
Definition ulp_exp (q : Q) : Z := Z.max (ilog2 q - 52) (-1074).

Definition fl_pos (q : Q) : Q :=
  (inject_Z (rne (q / pow2 (ulp_exp q))) * pow2 (ulp_exp q))%Q.

(** Rounding to binary64. *)
Definition fl (q : Q) : Q :=
  match Qnum q with
  | 0 => 0%Q
  | Zpos _ => fl_pos q
  | Zneg _ => (- fl_pos (- q))%Q
  end.

(** A decimal literal [n/d] of the source denotes [fl (n/d)]. *)
Definition float_lit (n : Z) (d : positive) : Q := fl (n # d).

(** [float(z)] for an [int]. *)
Definition float_of_int (z : Z) : Q := fl (inject_Z z).

Definition fmul (x y : Q) : Q := fl (x * y).
Definition fadd (x y : Q) : Q := fl (x + y).
(** [x / y] on floats, for [y] not zero. *)
Definition fdiv (x y : Q) : Q := fl (x / y).

(** [a / b] on two [int]s, for [b] not zero: the correctly rounded
    quotient. *)
Definition int_truediv (a b : Z) : Q := fl (inject_Z a / inject_Z b).

Definition Qlt_bool (x y : Q) : bool :=
  match (x ?= y)%Q with Lt => true | _ => false end.

(** [round(x, ndigits)] for [ndigits >= 0]: the decimal with [ndigits]
    places nearest to the exact value of [x] (ties to even), converted
    back to binary64. *)
Definition py_round (x : Q) (ndigits : Z) : Q :=
  let p := inject_Z (10 ^ ndigits) in
  fl (inject_Z (rne (x * p)) / p).

(** Decimal digits of a natural number, as [str(n)] prints them. *)
Fixpoint digits_from (fuel : nat) (n : N) (acc : str) : str :=
  match fuel with
  | O => acc
  | S fuel' =>
    let acc' := (48 + n mod 10)%N :: acc in
    if (n <? 10)%N then acc' else digits_from fuel' (n / 10)%N acc'
  end.

Definition str_of_N (n : N) : str := digits_from (S (N.to_nat (N.log2 n))) n [].

(** [f"{x:.2f}"]. *)
Definition format_2f (x : Q) : str :=
  let k := rne (Qabs x * 100) in
  let body :=
    str_of_N (Z.to_N (k / 100)) ++ u "."
      ++ str_of_N (Z.to_N (k mod 100 / 10)) ++ str_of_N (Z.to_N (k mod 10)) in
  if Qlt_bool x 0 then u "-" ++ body else body.

(** ** Exceptions and effects *)

Inductive exn_class : Type :=
  | ZeroDivisionError
  | IndexError
  | RuntimeError
  | TooManyRequestsError
  | OtherException.

(** An exception object: its class and what [str(e)] prints. *)
Record exn : Type := Exn { exn_cls : exn_class; exn_str : str }.

Inductive outcome (A : Type) : Type :=
  | Ret (a : A)
  | Raise (e : exn).
Arguments Ret {A} a.
Arguments Raise {A} e.

Definition is_too_many (e : exn) : bool :=
  match exn_cls e with TooManyRequestsError => true | _ => false end.

(** What the program does to the outside world, in order.  Console
    output ([print]) is not recorded. *)
Inductive event : Type :=
  | Sleep (seconds : Q)
  | DatastoreSearch (query : str) (top_k : Z)
  | CoRerank (query : str) (documents : list str) (top_n : Z)
  | InvokeAI (system_message user_message : str)
  | EmbeddingsCreate (text_a text_b : str).

Definition is_rerank (e : event) : bool :=
  match e with CoRerank _ _ _ => true | _ => false end.

(** Number of rerank requests in a trace. *)
Definition count_rerank (t : list event) : nat :=
  length (filter (fun e => is_rerank e = true) t).

(** The collaborators of the pipeline, none of them part of the
    repository: the datastore behind [BaseDatastore.search], Cohere's
    [rerank] endpoint, the chat completion behind [invoke_ai] and the
    embedding request of the evaluator.  The rerank endpoint is asked
    several times with the same arguments and its reply may change from
    one request to the next: it is indexed by the number of rerank
    requests made before.  The other three are asked at most once by
    each function below and are functions of their arguments.
    [co_rerank] replies with the [index] fields of [response.results];
    [embeddings_cosine] stands for lines 133-142 of [evaluator.py], the
    embedding request followed by the cosine of the two vectors, whose
    floating-point sum and square roots are left to the runtime. *)
Class Services : Type := {
  datastore_search : str -> Z -> outcome (list str);
  co_rerank : nat -> str -> list str -> Z -> outcome (list Z);
  invoke_ai : str -> str -> outcome str;
  embeddings_cosine : str -> str -> outcome Q
}.

(** Computations: read the trace so far, extend it, return or raise. *)
Definition M (A : Type) : Type := list event -> list event * outcome A.

Definition ret {A} (a : A) : M A := fun t => (t, Ret a).
Definition raise {A} (e : exn) : M A := fun t => (t, Raise e).
Definition bind {A B} (m : M A) (k : A -> M B) : M B :=
  fun t =>
    match m t with
    | (t', Ret a) => k a t'
    | (t', Raise e) => (t', Raise e)
    end.
(** [try: m  except <handles> as e: h e]. *)
Definition try_except {A} (m : M A) (handles : exn -> bool) (h : exn -> M A)
  : M A :=
  fun t =>
    match m t with
    | (t', Raise e) => if handles e then h e t' else (t', Raise e)
    | r => r
    end.
Definition emit (e : event) : M unit := fun t => (t ++ [e], Ret tt).
Definition lift {A} (o : outcome A) : M A := fun t => (t, o).

Notation "x <- m ;; k" := (bind m (fun x => k))
  (at level 100, m at next level, right associativity).
Notation "m ;;; k" := (bind m (fun _ => k))
  (at level 100, right associativity).

Definition sleep (seconds : Q) : M unit := emit (Sleep seconds).

(** [l[i]] on a list: negative indices count from the end. *)
Definition py_getitem {A} (l : list A) (i : Z) : outcome A :=
  let n := Z.of_nat (length l) in
  let j := if i <? 0 then i + n else i in
  match (if (0 <=? j) && (j <? n) then l !! Z.to_nat j else None) with
  | Some x => Ret x
  | None => Raise (Exn IndexError (u "list index out of range"))
  end.

(** [[f(x) for x in xs]] when [f] may raise. *)
Fixpoint comprehension {A B} (f : A -> outcome B) (xs : list A)
  : outcome (list B) :=
  match xs with
  | [] => Ret []
  | x :: xs' =>
    match f x with
    | Raise e => Raise e
    | Ret y =>
      match comprehension f xs' with
      | Raise e => Raise e
      | Ret ys => Ret (y :: ys)
      end
    end
  end.

(** ** [difflib.SequenceMatcher]

    The evaluator builds [SequenceMatcher(None, a, b)]: no junk
    predicate, [autojunk] left at its default [True].  Positions are
    natural numbers.  The source forms [j-1] for [j = 0] in one place, a
    dictionary lookup with default, written out below; it forms
    [i-k+1] and [j-k+1], written [i+1-k] and [j+1-k] here, for a [k]
    that [find_longest_match_within] bounds by [i+1-alo] and
    [j+1-blo]. *)

Section SequenceMatcher.
Context {A : Type} `{Countable A}.

(** A matching block [(i, j, size)]: [a[i:i+size] == b[j:j+size]]. *)
Definition Match : Type := (nat * nat * nat)%type.

Record matcher : Type := Matcher {
  seq_a : list A;
  seq_b : list A;
  b2j : gmap A (list nat);
  bjunk : gset A
}.

(** First loop of [__chain_b]: for each element of [b], the positions
    where it occurs, in increasing order. *)
Definition b2j_all (b : list A) : gmap A (list nat) :=
  foldl (fun (d : gmap A (list nat)) (p : nat * A) =>
           <[p.2 := default [] (d !! p.2) ++ [p.1]]> d)
        ∅ (imap pair b).

(** [__chain_b]: with no junk predicate [bjunk] stays empty; when [b] has
    200 elements or more, the elements occurring more than
    [n // 100 + 1] times are dropped from [b2j]. *)
Definition chain_b (b : list A) : gmap A (list nat) :=
  let n := length b in
  if (200 <=? n)%nat then
    let ntest := (n / 100 + 1)%nat in
    filter (fun p : A * list nat => (length p.2 <= ntest)%nat) (b2j_all b)
  else b2j_all b.

Definition SequenceMatcher (a b : list A) : matcher :=
  {| seq_a := a; seq_b := b; b2j := chain_b b; bjunk := ∅ |}.

Definition isbjunk (sm : matcher) (x : A) : bool :=
  bool_decide (x ∈ bjunk sm).

(** Inner loop of [find_longest_match] for row [i]: [js] is what is left
    of [b2j.get(a[i], nothing)]. *)
Fixpoint flm_row (blo bhi i : nat) (j2len : gmap nat nat) (js : list nat)
    (newj2len : gmap nat nat) (best : Match) : gmap nat nat * Match :=
  match js with
  | [] => (newj2len, best)
  | j :: js' =>
    if (j <? blo)%nat then flm_row blo bhi i j2len js' newj2len best
    else if (bhi <=? j)%nat then (newj2len, best)
    else
      let k := S (match j with
                  | O => O
                  | S j' => default O (j2len !! j')
                  end) in
      let '(besti, bestj, bestsize) := best in
      flm_row blo bhi i j2len js' (<[j := k]> newj2len)
        (if (bestsize <? k)%nat
         then ((i + 1 - k)%nat, (j + 1 - k)%nat, k)
         else best)
  end.

(** Outer loop, over the rows still to visit. *)
Fixpoint flm_rows (sm : matcher) (blo bhi : nat) (rows : list nat)
    (j2len : gmap nat nat) (best : Match) : Match :=
  match rows with
  | [] => best
  | i :: rows' =>
    let js :=
      match seq_a sm !! i with
      | Some x => default [] (b2j sm !! x)
      | None => []
      end in
    let '(newj2len, best') := flm_row blo bhi i j2len js ∅ best in
    flm_rows sm blo bhi rows' newj2len best'
  end.

(** [a[i] == b[j]] together with the junk test on [b[j]]. *)
Definition extends_at (sm : matcher) (junk : bool) (i j : nat) : bool :=
  match seq_a sm !! i, seq_b sm !! j with
  | Some x, Some y => Bool.eqb (isbjunk sm y) junk && bool_decide (x = y)
  | _, _ => false
  end.

(** [while besti > alo and bestj > blo and ... : besti-1, bestj-1,
    bestsize+1]. *)
Fixpoint extend_down (sm : matcher) (junk : bool) (alo blo : nat)
    (besti bestj bestsize : nat) {struct besti} : Match :=
  match besti, bestj with
  | S i', S j' =>
    if (alo <? besti)%nat && (blo <? bestj)%nat && extends_at sm junk i' j'
    then extend_down sm junk alo blo i' j' (S bestsize)
    else (besti, bestj, bestsize)
  | _, _ => (besti, bestj, bestsize)
  end.

(** [while besti+bestsize < ahi and bestj+bestsize < bhi and ... :
    bestsize += 1]; [room] bounds the iterations left. *)
Fixpoint extend_up (sm : matcher) (junk : bool) (ahi bhi : nat)
    (room : nat) (besti bestj bestsize : nat) : Match :=
  match room with
  | O => (besti, bestj, bestsize)
  | S room' =>
    if (besti + bestsize <? ahi)%nat && (bestj + bestsize <? bhi)%nat
       && extends_at sm junk (besti + bestsize) (bestj + bestsize)
    then extend_up sm junk ahi bhi room' besti bestj (S bestsize)
    else (besti, bestj, bestsize)
  end.

Definition find_longest_match (sm : matcher) (alo ahi blo bhi : nat) : Match :=
  let '(i0, j0, k0) :=
    flm_rows sm blo bhi (seq alo (ahi - alo)) ∅ (alo, blo, O) in
  let '(i1, j1, k1) := extend_down sm false alo blo i0 j0 k0 in
  let '(i2, j2, k2) :=
    extend_up sm false ahi bhi (ahi - (i1 + k1)) i1 j1 k1 in
  let '(i3, j3, k3) := extend_down sm true alo blo i2 j2 k2 in
  extend_up sm true ahi bhi (ahi - (i3 + k3)) i3 j3 k3.

(** The [while queue:] loop of [get_matching_blocks].  [queue] is kept
    with its last element first, so [queue.pop()] takes the head and
    [queue.append] conses. *)
Fixpoint blocks_loop (fuel : nat) (sm : matcher)
    (queue : list (nat * nat * nat * nat)) (matching_blocks : list Match)
  : list Match :=
  match fuel, queue with
  | S fuel', (alo, ahi, blo, bhi) :: queue' =>
    let '(i, j, k) := find_longest_match sm alo ahi blo bhi in
    match k with
    | O => blocks_loop fuel' sm queue' matching_blocks
    | S _ =>
      let q1 :=
        if (alo <? i)%nat && (blo <? j)%nat
        then (alo, i, blo, j) :: queue' else queue' in
      let q2 :=
        if (i + k <? ahi)%nat && (j + k <? bhi)%nat
        then (i + k, ahi, j + k, bhi)%nat :: q1 else q1 in
      blocks_loop fuel' sm q2 (matching_blocks ++ [(i, j, k)])
    end
  | _, _ => matching_blocks
  end.

(** Tuples compare lexicographically. *)
Definition Match_leb (x y : Match) : bool :=
  let '(i1, j1, k1) := x in
  let '(i2, j2, k2) := y in
  (i1 <? i2)%nat
  || (i1 =? i2)%nat && ((j1 <? j2)%nat || (j1 =? j2)%nat && (k1 <=? k2)%nat).

Definition Match_le (x y : Match) : Prop := Match_leb x y = true.

#[local] Instance Match_le_dec (x y : Match) : Decision (Match_le x y).
Proof. unfold Match_le. apply _. Defined.

(** The loop that merges adjacent blocks; [(i1, j1, k1)] is the block
    being grown. *)
Fixpoint collapse (i1 j1 k1 : nat) (blocks : list Match) : list Match :=
  match blocks with
  | [] => match k1 with O => [] | S _ => [(i1, j1, k1)] end
  | (i2, j2, k2) :: rest =>
    if (i1 + k1 =? i2)%nat && (j1 + k1 =? j2)%nat
    then collapse i1 j1 (k1 + k2)%nat rest
    else match k1 with O => [] | S _ => [(i1, j1, k1)] end
           ++ collapse i2 j2 k2 rest
  end.

(** Each pass of the loop removes at least one position of [a] from the
    ranges in the queue, or removes a range: [2 * len(a) + 1] passes
    empty it. *)
Definition get_matching_blocks (sm : matcher) : list Match :=
  let la := length (seq_a sm) in
  let lb := length (seq_b sm) in
  let matching_blocks :=
    blocks_loop (2 * la + 1) sm [(O, la, O, lb)] [] in
  collapse O O O (merge_sort Match_le matching_blocks) ++ [(la, lb, O)].

Definition _calculate_ratio (matches length : nat) : Q :=
  match length with
  | O => float_lit 1 1
  | S _ =>
    fdiv (fmul (float_lit 2 1) (float_of_int (Z.of_nat matches)))
         (float_of_int (Z.of_nat length))
  end.

Definition ratio (sm : matcher) : Q :=
  let matches := sum_list (map (fun m : Match => m.2) (get_matching_blocks sm)) in
  _calculate_ratio matches (length (seq_a sm) + length (seq_b sm)).

End SequenceMatcher.

Arguments matcher A {_ _}.

(** ** [src/impl/retriever.py], [src/impl/response_generator.py],
       [src/impl/evaluator.py], [src/rag_pipeline.py] *)

Definition nl : str := [10%N].
Definition dq : str := [34%N].

(** [range(n)]. *)
Definition py_range (n : nat) : list Z := map Z.of_nat (seq 0 n).

(** Modelled from the spec: [EvaluationResult] is declared in
    [src/interface], which is not among the sources; section 3 gives its
    five fields. *)
Record EvaluationResult : Type := {
  question : str;
  response : str;
  expected_answer : str;
  is_correct : bool;
  reasoning : str
}.

(** The dictionary returned by [compute_metrics]: its three keys. *)
Record Metrics : Type := {
  accuracy : Q;
  groundedness : Q;
  hallucination_rate : Q
}.

Section Pipeline.
Context {ops : StrOps} {svc : Services}.

(** *** Retriever *)

Definition datastore_request (query : str) (top_k : Z) : M (list str) :=
  fun t => (t ++ [DatastoreSearch query top_k], datastore_search query top_k).

(** [co.rerank(model=..., query=..., documents=..., top_n=...)]. *)
Definition rerank_request (query : str) (documents : list str) (top_n : Z)
  : M (list Z) :=
  fun t =>
    (t ++ [CoRerank query documents top_n],
     co_rerank (count_rerank t) query documents top_n).

(** The [for attempt in range(5): ... else: raise] loop of [_rerank];
    [attempts] is what is left of the range.  Leaving the loop by
    [break] returns [response.results] as indices. *)
Fixpoint rerank_loop (attempts : list Z) (query : str)
    (search_results : list str) (top_k : Z) : M (list Z) :=
  match attempts with
  | [] => raise (Exn RuntimeError (u "Demasiados intentos fallidos con Cohere"))
  | attempt :: attempts' =>
    try_except
      (sleep 10 ;;; rerank_request query search_results top_k)
      is_too_many
      (fun _ =>
         let wait := 10 * (attempt + 1) in
         sleep (inject_Z wait) ;;;
         rerank_loop attempts' query search_results top_k)
  end.

(** Reading the API key and building the client leave no trace. *)
Definition _rerank (query : str) (search_results : list str) (top_k : Z)
  : M (list str) :=
  sleep 6 ;;;
  result_indices <- rerank_loop (py_range 5) query search_results top_k ;;
  lift (comprehension (py_getitem search_results) result_indices).

Definition search (query : str) (top_k : Z) : M (list str) :=
  search_results <- datastore_request query (top_k * 3) ;;
  _rerank query search_results top_k.

(** *** ResponseGenerator *)

Definition SYSTEM_PROMPT : str :=
  nl ++
  u "Eres un analista financiero experto en empresas argentinas." ++ nl ++
  u "Responde en español con base EXCLUSIVA en el contexto provisto." ++ nl ++
  u "Tu tarea es interpretar correctamente términos financieros y sus equivalentes abreviados" ++ nl ++
  u "(por ejemplo: " ++ dq ++ u "EBITDA Aj." ++ dq ++ u " = " ++ dq ++ u "EBITDA Ajustado" ++ dq ++ u ", " ++ dq ++ u "Flujo libre" ++ dq ++ u " = " ++ dq ++ u "FCF" ++ dq ++ u ")." ++ nl ++
  u "Entiende sinónimos y siglas, y prioriza los datos consolidados sobre los de segmentos." ++ nl ++
  u "Si hay números o valores explícitos, devuélvelos de forma clara y unificada." ++ nl ++
  u "Si el dato no está en el texto, razona con lo más cercano posible dentro del contexto, pero no inventes." ++ nl.

Definition generate_response (query : str) (context : list str) : M str :=
  let context_text := join nl context in
  let user_message :=
    u "<context>" ++ nl ++ context_text ++ nl ++ u "</context>" ++ nl
      ++ u "<question>" ++ nl ++ query ++ nl ++ u "</question>" in
  fun t =>
    (t ++ [InvokeAI SYSTEM_PROMPT user_message],
     invoke_ai SYSTEM_PROMPT user_message).

(** *** Evaluator *)

Definition _text_similarity (text_a text_b : str) : M Q :=
  let ratio := ratio (SequenceMatcher (lower text_a) (lower text_b)) in
  ret (py_round ratio 3).

(** Every exception of the [try] block is caught and turned into the
    score [0.0]. *)
Definition _semantic_similarity (text_a text_b : str) : M Q :=
  try_except
    (sleep (3 # 2) ;;;
     cosine_sim <-
       (fun t => (t ++ [EmbeddingsCreate text_a text_b],
                  embeddings_cosine text_a text_b)) ;;
     ret (py_round cosine_sim 3))
    (fun _ => true)
    (fun _ => ret (float_lit 0 1)).

(** [f"⚠️ Error en evaluación: {e}"]. *)
Definition error_reasoning (e : exn) : str :=
  u "⚠️ Error en evaluación: " ++ exn_str e.

(** [Evaluator.evaluate]; the two comparisons are looked up on [self],
    so they are arguments here. *)
Definition evaluate_with
    (text_similarity semantic_similarity : str -> str -> M Q)
    (question response expected_answer : str) : M EvaluationResult :=
  verdict <-
    try_except
      (similarity <- text_similarity response expected_answer ;;
       let is_correct := Qle_bool (float_lit 75 100) similarity in
       let reasoning := u "Similarity: " ++ format_2f similarity ++ u ". " in
       second <-
         (if negb is_correct then
            semantic_score <- semantic_similarity response expected_answer ;;
            ret (Qle_bool (float_lit 80 100) semantic_score,
                 reasoning ++ u "Semantic Similarity: "
                   ++ format_2f semantic_score ++ u ". ")
          else ret (is_correct, reasoning)) ;;
       let '(is_correct, reasoning) := second in
       if (is_correct : bool) then
         ret (is_correct,
              reasoning ++ u "✅ La respuesta coincide con la esperada o es semánticamente equivalente.")
       else
         ret (is_correct,
              reasoning ++ u "❌ La respuesta no coincide ni semánticamente con la esperada."))
      (fun _ => true)
      (fun e => ret (false, error_reasoning e)) ;;
  ret {| question := question;
         response := response;
         expected_answer := expected_answer;
         is_correct := verdict.1;
         reasoning := verdict.2 |}.

Definition evaluate : str -> str -> str -> M EvaluationResult :=
  evaluate_with _text_similarity _semantic_similarity.

(** *** Helper functions of [rag_pipeline.py] *)

Definition investment_terms : list str :=
  [u "comprar"; u "vender"; u "inversión"; u "rentabilidad futura"].

Definition prediction_terms : list str :=
  [u "predicción"; u "proyección"; u "estimado"].

Definition investment_refusal : str :=
  u "⚠️ No se permiten recomendaciones de inversión ni proyecciones financieras.".

Definition prediction_refusal : str :=
  u "⚠️ El sistema no realiza estimaciones ni predicciones. Solo resume información factual.".

Definition source_suffix : str :=
  nl ++ nl ++ u "📘 Fuente: Documentos IFRS públicos o reportes oficiales.".

Definition ethical_guardrails (response_text : str) : str :=
  let lowered := lower response_text in
  if existsb (fun x => str_in x lowered) investment_terms then
    investment_refusal
  else if existsb (fun x => str_in x lowered) prediction_terms then
    prediction_refusal
  else response_text ++ source_suffix.

Definition is_grounded_in_context (response : str) (context_list : list str)
  : bool :=
  let context_text := lower (join (u " ") context_list) in
  let resp := lower response in
  let common : gset str :=
    list_to_set (split resp) ∩ list_to_set (split context_text) in
  let match_ratio :=
    int_truediv (Z.of_nat (size common))
                (Z.max 1 (Z.of_nat (length (split resp)))) in
  Qlt_bool (float_lit 15 100) match_ratio.

(** [sum(flag(r) for r in results)] over booleans. *)
Definition sum_bool {X} (flag : X -> bool) (xs : list X) : Z :=
  Z.of_nat (length (filter (fun x => flag x = true) xs)).

(** [a / b] on two [int]s. *)
Definition py_truediv (a b : Z) : outcome Q :=
  if b =? 0 then Raise (Exn ZeroDivisionError (u "division by zero"))
  else Ret (int_truediv a b).

Definition compute_metrics (results : list EvaluationResult) : outcome Metrics :=
  let total := Z.of_nat (length results) in
  let correct := sum_bool is_correct results in
  let grounded :=
    sum_bool (fun r => is_grounded_in_context (response r) [expected_answer r])
             results in
  let hallucinated :=
    sum_bool
      (fun r => negb (is_grounded_in_context (response r) [expected_answer r]))
      results in
  match py_truediv correct total with
  | Raise e => Raise e
  | Ret acc =>
    match py_truediv grounded total with
    | Raise e => Raise e
    | Ret gr =>
      match py_truediv hallucinated total with
      | Raise e => Raise e
      | Ret ha =>
        Ret {| accuracy := py_round acc 3;
               groundedness := py_round gr 3;
               hallucination_rate := py_round ha 3 |}
      end
    end
  end.

(** *** RAGPipeline *)

Definition process_query (query : str) : M str :=
  search_results <- search query 10 ;;
  response <- generate_response query search_results ;;
  let response := ethical_guardrails response in
  ret response.

End Pipeline.

(** ** [RAGPipeline.evaluate] and [RAGPipeline._evaluate_single_question]

    [evaluate] also writes a file.  Its state is the trace of requests
    and delays together with the files written, by path;
    [json.dump(metrics, f, ...)] stores the dictionary, whose
    serialisation is left to the runtime.  Whether [open(path, "w")]
    succeeds is up to the file system (the directory may be missing);
    once the file is open the write is taken to succeed.  Console
    output is not recorded, as before.  The collaborators are the ones
    of [Services]: a question that occurs twice among the samples gets
    the same answers from the datastore, the chat completion and the
    embedding request, while the replies of the rerank endpoint go on
    being indexed by the number of requests made before. *)

Class FileSystem : Type := { open_for_writing : str -> outcome unit }.

Record world : Type := World {
  calls : list event;
  files : gmap str Metrics
}.

Definition Run (A : Type) : Type := world -> world * outcome A.

Definition run_ret {A} (a : A) : Run A := fun w => (w, Ret a).
Definition run_bind {A B} (m : Run A) (k : A -> Run B) : Run B :=
  fun w =>
    match m w with
    | (w', Ret a) => k a w'
    | (w', Raise e) => (w', Raise e)
    end.
(** A computation on the trace alone. *)
Definition call {A} (m : M A) : Run A :=
  fun w =>
    let '(t', o) := m (calls w) in
    ({| calls := t'; files := files w |}, o).
Definition run_lift {A} (o : outcome A) : Run A := fun w => (w, o).

Notation "x <~ m ;; k" := (run_bind m (fun x => k))
  (at level 100, m at next level, right associativity).
Notation "m ;;~ k" := (run_bind m (fun _ => k))
  (at level 100, right associativity).

(** [with open(path, "w", ...) as f: json.dump(metrics, f, ...)]. *)
Definition json_dump_to `{FileSystem} (path : str) (metrics : Metrics)
  : Run unit :=
  fun w =>
    match open_for_writing path with
    | Raise e => (w, Raise e)
    | Ret _ =>
      ({| calls := calls w; files := <[path := metrics]> (files w) |}, Ret tt)
    end.

(** [KeyError(key)] and [AttributeError] are not among the classes
    named above; [str(KeyError(key))] is [repr(key)], which for the two
    keys of this program is the key between single quotes. *)
Definition key_error (key : str) : exn :=
  Exn OtherException (u "'" ++ key ++ u "'").

(** [d[key]] on a dictionary. *)
Definition py_dict_getitem (key : str) (d : gmap str str) : outcome str :=
  match d !! key with
  | Some v => Ret v
  | None => Raise (key_error key)
  end.

(** [None.evaluate]: the pipeline was built without an evaluator. *)
Definition no_evaluator : exn :=
  Exn OtherException (u "'NoneType' object has no attribute 'evaluate'").

Module RAGPipeline.
Section Methods.
Context {ops : StrOps} {svc : Services} {fs : FileSystem}.

(** The field [evaluator: Optional[BaseEvaluator] = None]. *)
Variable evaluator : option (str -> str -> str -> M EvaluationResult).

Definition _evaluate_single_question (question expected_answer : str)
  : M EvaluationResult :=
  response <- process_query question ;;
  result <-
    match evaluator with
    | Some the_evaluator => the_evaluator question response expected_answer
    | None => raise no_evaluator
    end ;;
  ret result.

(** The [for q, expected in zip(questions, expected_answers)] loop;
    [pairs] is what is left of the [zip]. *)
Fixpoint evaluate_loop (pairs : list (str * str))
    (results : list EvaluationResult) : Run (list EvaluationResult) :=
  match pairs with
  | [] => run_ret results
  | (q, expected) :: pairs' =>
    call (sleep 6) ;;~
    r <~ call (_evaluate_single_question q expected) ;;
    evaluate_loop pairs' (results ++ [r])
  end.

Definition evaluate (sample_questions : list (gmap str str))
  : Run (list EvaluationResult) :=
  questions <~
    run_lift (comprehension (py_dict_getitem (u "question")) sample_questions) ;;
  expected_answers <~
    run_lift (comprehension (py_dict_getitem (u "answer")) sample_questions) ;;
  results <~ evaluate_loop (zip questions expected_answers) [] ;;
  metrics <~ run_lift (compute_metrics results) ;;
  json_dump_to (u "results/evaluation_summary.json") metrics ;;~
  run_ret results.

End Methods.
End RAGPipeline.

(** ** Vocabulary of the properties *)

(** [x] occurs in [s]: some text, then [x], then some text. *)
Definition Contains (x s : str) : Prop := exists pre post, s = pre ++ x ++ post.

(** [s] contains at least one of [terms]. *)
Definition Mentions (terms : list str) (s : str) : Prop :=
  exists x, In x terms /\ Contains x s.

Definition is_datastore_search (e : event) : bool :=
  match e with DatastoreSearch _ _ => true | _ => false end.

(** What one rate-limited attempt leaves in the trace: the 10-second
    delay, the request, the back-off of [10 * number] seconds, where
    [number] counts the attempts from 1. *)
Definition failed_attempt (q : str) (docs : list str) (k : Z) (number : Z)
  : list event :=
  [Sleep 10; CoRerank q docs k; Sleep (inject_Z (10 * number))].

(** The attempts numbered [1] to [n], all rate-limited. *)
Definition failed_attempts (q : str) (docs : list str) (k : Z) (n : nat)
  : list event :=
  flat_map (failed_attempt q docs k) (map Z.succ (py_range n)).

(** The sleeps that precede each rerank request of a trace, since the
    previous request or the start. *)
Fixpoint delays_before_requests (pending : list Q) (t : list event)
  : list (list Q) :=
  match t with
  | [] => []
  | Sleep d :: t' => delays_before_requests (pending ++ [d]) t'
  | CoRerank _ _ _ :: t' => pending :: delays_before_requests [] t'
  | _ :: t' => delays_before_requests pending t'
  end.

(** The statement of the specification: before every attempt there is
    a delay of [d] seconds. *)
Definition delay_before_every_attempt (d : Q) (t : list event) : bool :=
  forallb (existsb (Qeq_bool d)) (delays_before_requests [] t).

Section ServiceVocabulary.
Context {svc : Services}.

(** The [n] rerank requests that follow the first [first] ones are all
    answered with [TooManyRequestsError]. *)
Definition rate_limited (first n : nat) (q : str) (docs : list str) (k : Z)
  : Prop :=
  forall i, (i < n)%nat ->
    exists e, co_rerank (first + i) q docs k = Raise e /\ is_too_many e = true.

End ServiceVocabulary.

(** A reply that the retry loop does not retry: a result, or an
    exception other than [TooManyRequestsError]. *)
Definition final_reply {A} (o : outcome A) : Prop :=
  match o with
  | Ret _ => True
  | Raise e => is_too_many e = false
  end.

(** Collaborators for the examples.  [scripted replies] answers the
    [i]-th rerank request with [replies !! i] and is rate-limited once
    the script is over; the datastore returns [docs], the chat
    completion returns [answer], the two embeddings have cosine
    [cosine]. *)
Definition too_many_requests : exn :=
  Exn TooManyRequestsError (u "status_code: 429").

Definition scripted (replies : list (outcome (list Z))) (docs : list str)
    (answer : str) (cosine : Q) : Services :=
  {| datastore_search := fun _ _ => Ret docs;
     co_rerank := fun i _ _ _ => default (Raise too_many_requests) (replies !! i);
     invoke_ai := fun _ _ => Ret answer;
     embeddings_cosine := fun _ _ => Ret cosine |}.

Section MatcherVocabulary.
Context {A : Type} `{Countable A}.

(** The positions of [x] in [b] from position [lo] on, [m] of them
    examined, in increasing order. *)
Definition positions_from (x : A) (b : list A) (lo m : nat) : list nat :=
  filter (fun j => b !! j = Some x) (seq lo m).

Definition positions (x : A) (b : list A) : list nat :=
  positions_from x b 0 (length b).

(** [a[i]] is a key of [b2j]: it occurs in [b] and is not popular. *)
Definition live (sm : matcher A) (i : nat) : bool :=
  match seq_a sm !! i with
  | Some x => bool_decide (is_Some (b2j sm !! x))
  | None => false
  end.

(** Length of the run of live elements of [a] that ends at [i]. *)
Fixpoint run (sm : matcher A) (i : nat) : nat :=
  if live sm i then S (match i with O => O | S i' => run sm i' end) else O.

(** Length of the common run of live elements that ends at [a[i]] and
    [b[j]]. *)
Fixpoint common (sm : matcher A) (i j : nat) : nat :=
  if live sm i && bool_decide (seq_a sm !! i = seq_b sm !! j) then
    S (match i, j with S i', S j' => common sm i' j' | _, _ => O end)
  else O.

End MatcherVocabulary.

Section GroundingVocabulary.
Context {ops : StrOps}.

(** The distinct tokens of the response that are also tokens of the
    joined context, both lower-cased. *)
Definition shared_tokens (response : str) (context_list : list str)
  : gset str :=
  list_to_set (split (lower response))
  ∩ list_to_set (split (lower (join (u " ") context_list))).

(** The specification's wording of the groundedness test: the shared
    tokens over the number of distinct response tokens (at least 1),
    compared with 0.15. *)
Definition grounded_by_distinct_ratio (response : str)
    (context_list : list str) : bool :=
  let distinct : gset str := list_to_set (split (lower response)) in
  Qlt_bool (15 # 100)
    (inject_Z (Z.of_nat (size (shared_tokens response context_list)))
     / inject_Z (Z.max 1 (Z.of_nat (size distinct)))).

End GroundingVocabulary.

(** A batch of 80 results for the examples: the first response repeats
    its expected answer, the other 79 share no token with theirs. *)
Definition batch_of_80 : list EvaluationResult :=
  {| question := u "¿EBITDA?"; response := u "120 millones";
     expected_answer := u "120 millones"; is_correct := true;
     reasoning := u "" |}
  :: replicate 79
       {| question := u "¿Deuda neta?"; response := u "no informado";
          expected_answer := u "95"; is_correct := false;
          reasoning := u "" |}.

(** A block [(i, j, k)] lies in the ranges [alo..ahi) and [blo..bhi). *)
Definition block_within (alo ahi blo bhi : nat) (m : Match) : Prop :=
  let '(i, j, k) := m in
  (alo <= i /\ i + k <= ahi /\ blo <= j /\ j + k <= bhi)%nat.

(** What the ranges of the queue can still cost: two passes per
    position of [a], one per range. *)
Definition queue_cost (queue : list (nat * nat * nat * nat)) : nat :=
  sum_list (map (fun r => let '(alo, ahi, _, _) := r in
                          (2 * (ahi - alo) + 1)%nat) queue).

Definition queue_ok (queue : list (nat * nat * nat * nat)) : Prop :=
  Forall (fun r => let '(alo, ahi, blo, bhi) := r in
                   (alo <= ahi /\ blo <= bhi)%nat) queue.

(** A rate read in thousandths: the nearest integer to [1000 * x]. *)
Definition thousandths (x : Q) : Z := rne (x * 1000).

(** Collaborators whose embedding request fails. *)
Definition connection_error : exn := Exn OtherException (u "Connection error.").

Definition without_embeddings : Services :=
  {| datastore_search := fun _ _ => Ret [];
     co_rerank := fun _ _ _ _ => Ret [];
     invoke_ai := fun _ _ => Ret [];
     embeddings_cosine := fun _ _ => Raise connection_error |}.

(** ** Vocabulary of the further properties *)

(** Seconds slept in a trace. *)
Fixpoint slept (t : list event) : Q :=
  match t with
  | [] => 0%Q
  | Sleep d :: t' => (d + slept t')%Q
  | _ :: t' => slept t'
  end.

(** The seconds the attempts of a retry loop can take: for each one the
    delay before the request and the back-off after it. *)
Definition sleep_budget (attempts : list Z) : Z :=
  foldr (fun attempt rest => 10 + 10 * (attempt + 1) + rest) 0 attempts.

(** [i] is a valid index of a list of [n] elements, counting from the
    start or, when negative, from the end. *)
Definition valid_index (n : nat) (i : Z) : Prop :=
  - Z.of_nat n <= i < Z.of_nat n.

(** Number of matched positions of a list of blocks. *)
Definition matched (blocks : list Match) : nat :=
  sum_list (map (fun m : Match => m.2) blocks).

(** Positions of [a], and of [b], still covered by the ranges of the
    queue. *)
Definition queue_width_a (queue : list (nat * nat * nat * nat)) : nat :=
  sum_list (map (fun r => let '(alo, ahi, _, _) := r in (ahi - alo)%nat) queue).

Definition queue_width_b (queue : list (nat * nat * nat * nat)) : nat :=
  sum_list (map (fun r => let '(_, _, blo, bhi) := r in (bhi - blo)%nat) queue).

(** The sentence that closes the reasoning of a verdict. *)
Definition verdict_sentence (is_correct : bool) : str :=
  if is_correct
  then u "✅ La respuesta coincide con la esperada o es semánticamente equivalente."
  else u "❌ La respuesta no coincide ni semánticamente con la esperada.".

(** An event of the retry loop for [(q, docs, k)]: a delay, or a rerank
    request with these arguments. *)
Definition retry_event (q : str) (docs : list str) (k : Z) (ev : event)
  : Prop :=
  match ev with
  | Sleep _ => True
  | CoRerank q' docs' k' => q' = q /\ docs' = docs /\ k' = k
  | _ => False
  end.

(** The forms of a response that went through [ethical_guardrails]. *)
Definition filtered (s : str) : Prop :=
  s = investment_refusal \/ s = prediction_refusal
  \/ exists raw, s = raw ++ source_suffix.

(** File systems for the examples: one where the summary can be
    written, one where [results/] is missing. *)
Definition writable : FileSystem := {| open_for_writing := fun _ => Ret tt |}.

Definition no_results_directory : FileSystem :=
  {| open_for_writing := fun _ =>
       Raise (Exn OtherException
                (u "[Errno 2] No such file or directory: 'results/evaluation_summary.json'")) |}.

(** A sample question, as a dictionary. *)
Definition sample (q a : str) : gmap str str :=
  {[ u "question" := q; u "answer" := a ]}.

(** Collaborators for the examples of a whole run: one passage, ranked
    first by the reranker at the first request; the generator answers
    "120 millones"; the cosine of the embeddings is 0.9. *)
Definition one_passage : Services :=
  scripted [Ret [0]] [u "EBITDA ajustado: 120 millones"] (u "120 millones")
    (9 # 10).

Definition nothing_yet : world := {| calls := []; files := ∅ |}.

(* ===================================================================== *)
(** * Part II.  Properties                                                *)
(* ===================================================================== *)

(** ** Substring search *)

Lemma startswith_spec (s x : str) :
  startswith s x = true <-> exists post, s = x ++ post.
Proof.
  revert s; induction x as [|a x IH]; intros s; simpl.
  - split; [intros _; by exists s | done].
  - destruct s as [|b s].
    + split; [done | intros [post Hp]; discriminate].
    + rewrite andb_true_iff, N.eqb_eq, IH. split.
      * intros [-> [post ->]]. by exists post.
      * intros [post Hp]. injection Hp as -> ->. eauto.
Qed.

Lemma str_in_spec (x s : str) : str_in x s = true <-> Contains x s.
Proof.
  unfold Contains. induction s as [|c s IH]; simpl.
  - rewrite orb_false_r, startswith_spec. split.
    + intros [post Hp]. by exists [], post.
    + intros [pre [post Hp]]. destruct pre; simpl in Hp; [eauto | done].
  - rewrite orb_true_iff, startswith_spec, IH. split.
    + intros [[post Hp] | [pre [post Hp]]].
      * by exists [], post.
      * exists (c :: pre), post. by rewrite Hp.
    + intros [[|c' pre] [post Hp]]; simpl in Hp.
      * left; eauto.
      * right. injection Hp as _ ->. eauto.
Qed.

Lemma mentions_spec (terms : list str) (s : str) :
  existsb (fun x => str_in x s) terms = true <-> Mentions terms s.
Proof.
  unfold Mentions. rewrite existsb_exists.
  split; intros [x [Hx Hc]]; exists x; (split; [done |]); by apply str_in_spec.
Qed.

Lemma not_mentions_spec (terms : list str) (s : str) :
  existsb (fun x => str_in x s) terms = false <-> ~ Mentions terms s.
Proof.
  rewrite <- mentions_spec. destruct (existsb _ terms); split; done.
Qed.

(** ** The guardrail filter *)

Section Guardrails.
Context {ops : StrOps}.

(** C3.  [ethical_guardrails] is decided by the lower-cased response
    alone, in three cases taken in this order: if the lower-cased text
    contains an investment term (such as "comprar") the result is
    exactly the investment refusal, whatever else the text contains;
    otherwise, if it contains a prediction term, the result is exactly
    the prediction refusal; otherwise the result is the response
    followed by the source suffix.  A text containing terms of both
    lists gets the investment refusal. *)
Theorem ethical_guardrails_three_cases (response_text : str) :
  In (u "comprar") investment_terms /\
  (Mentions investment_terms (lower response_text) ->
     ethical_guardrails response_text = investment_refusal) /\
  (~ Mentions investment_terms (lower response_text) ->
   Mentions prediction_terms (lower response_text) ->
     ethical_guardrails response_text = prediction_refusal) /\
  (~ Mentions investment_terms (lower response_text) ->
   ~ Mentions prediction_terms (lower response_text) ->
     ethical_guardrails response_text = response_text ++ source_suffix) /\
  (Mentions investment_terms (lower response_text) ->
   Mentions prediction_terms (lower response_text) ->
     ethical_guardrails response_text = investment_refusal).
Proof.
  unfold ethical_guardrails.
  split; [by left |].
  split; [intros Hi; apply mentions_spec in Hi; by rewrite Hi |].
  split; [intros Hi Hp; apply not_mentions_spec in Hi;
          apply mentions_spec in Hp; by rewrite Hi, Hp |].
  split; [intros Hi Hp; apply not_mentions_spec in Hi;
          apply not_mentions_spec in Hp; by rewrite Hi, Hp |].
  intros Hi _; apply mentions_spec in Hi; by rewrite Hi.
Qed.

End Guardrails.

Lemma ethical_guardrails_three_cases_witness :
  ethical_guardrails (ops := Latin1) (u "Conviene COMPRAR ya: la predicción es buena")
    = investment_refusal
  /\ ethical_guardrails (ops := Latin1) (u "La PROYECCIÓN del trimestre")
    = prediction_refusal
  /\ ethical_guardrails (ops := Latin1) (u "EBITDA Ajustado: 120")
    = u "EBITDA Ajustado: 120" ++ source_suffix.
Proof.
  split; [| split].
  - destruct (ethical_guardrails_three_cases (ops := Latin1)
                (u "Conviene COMPRAR ya: la predicción es buena"))
      as (_ & _ & _ & _ & Hboth).
    apply Hboth; apply mentions_spec; vm_compute; reflexivity.
  - destruct (ethical_guardrails_three_cases (ops := Latin1)
                (u "La PROYECCIÓN del trimestre"))
      as (_ & _ & Hpred & _).
    apply Hpred; [apply not_mentions_spec | apply mentions_spec];
      vm_compute; reflexivity.
  - destruct (ethical_guardrails_three_cases (ops := Latin1)
                (u "EBITDA Ajustado: 120"))
      as (_ & _ & _ & Hnone & _).
    apply Hnone; apply not_mentions_spec; vm_compute; reflexivity.
Defined.

(** ** The retriever *)

Section Retriever.
Context {svc : Services}.

Lemma count_rerank_app (t t' : list event) :
  count_rerank (t ++ t') = (count_rerank t + count_rerank t')%nat.
Proof. unfold count_rerank. by rewrite filter_app, length_app. Qed.

Lemma count_rerank_failed_attempt q docs k number :
  count_rerank (failed_attempt q docs k number) = 1%nat.
Proof. reflexivity. Qed.

Lemma count_rerank_failed_attempts q docs k n :
  count_rerank (failed_attempts q docs k n) = n.
Proof.
  unfold failed_attempts, py_range. generalize 0%nat.
  induction n as [|n IH]; intros s; [done |].
  cbn [seq map flat_map].
  by rewrite count_rerank_app, count_rerank_failed_attempt, IH.
Qed.

Lemma rerank_loop_exhausted q docs k t :
  rerank_loop [] q docs k t
  = (t, Raise (Exn RuntimeError (u "Demasiados intentos fallidos con Cohere"))).
Proof. reflexivity. Qed.

Lemma rerank_loop_retry attempt rest q docs k t e :
  co_rerank (count_rerank t) q docs k = Raise e ->
  is_too_many e = true ->
  rerank_loop (attempt :: rest) q docs k t
  = rerank_loop rest q docs k (t ++ failed_attempt q docs k (Z.succ attempt)).
Proof.
  intros Hreply Hcls. simpl.
  unfold try_except, bind, sleep, emit, rerank_request.
  rewrite count_rerank_app, Nat.add_0_r, Hreply, Hcls.
  unfold failed_attempt. by rewrite <- !app_assoc.
Qed.

Lemma rerank_loop_final attempt rest q docs k t (o : outcome (list Z)) :
  co_rerank (count_rerank t) q docs k = o ->
  final_reply o ->
  rerank_loop (attempt :: rest) q docs k t
  = (t ++ [Sleep 10; CoRerank q docs k], o).
Proof.
  intros Hreply Hfinal. simpl.
  unfold try_except, bind, sleep, emit, rerank_request.
  rewrite count_rerank_app, Nat.add_0_r, Hreply.
  destruct o as [idxs | e]; simpl in *.
  - by rewrite <- app_assoc.
  - rewrite Hfinal. by rewrite <- app_assoc.
Qed.

Lemma rerank_loop_retries failed rest q docs k t :
  rate_limited (count_rerank t) (length failed) q docs k ->
  rerank_loop (failed ++ rest) q docs k t
  = rerank_loop rest q docs k
      (t ++ flat_map (failed_attempt q docs k) (map Z.succ failed)).
Proof.
  revert t. induction failed as [|attempt failed IH]; intros t Hlim.
  - simpl. by rewrite app_nil_r.
  - destruct (Hlim 0%nat) as (e & Hreply & Hcls); [simpl; lia |].
    rewrite Nat.add_0_r in Hreply.
    change ((attempt :: failed) ++ rest) with (attempt :: (failed ++ rest)).
    rewrite (rerank_loop_retry _ _ _ _ _ _ e Hreply Hcls), IH.
    + simpl. by rewrite <- !app_assoc.
    + intros i Hi. rewrite count_rerank_app, count_rerank_failed_attempt.
      destruct (Hlim (S i)) as (e' & He' & Hc'); [simpl; lia |].
      exists e'. split; [| done]. rewrite <- He'. f_equal. lia.
Qed.

Lemma py_range_split (n m : nat) :
  py_range (n + m) = py_range n ++ map Z.of_nat (seq n m).
Proof. unfold py_range. by rewrite seq_app, map_app. Qed.

Lemma search_unfold q k t docs :
  datastore_search q (k * 3) = Ret docs ->
  search q k t
  = match rerank_loop (py_range 5) q docs k
            (t ++ [DatastoreSearch q (k * 3); Sleep 6]) with
    | (t', Ret idxs) => (t', comprehension (py_getitem docs) idxs)
    | (t', Raise e) => (t', Raise e)
    end.
Proof.
  intros Hds. unfold search, _rerank, bind, datastore_request, sleep, emit, lift.
  rewrite Hds, <- app_assoc. cbn [app].
  by destruct (rerank_loop (py_range 5) q docs k _) as [t' [idxs | e]].
Qed.

(** After [n < 5] rate-limited attempts and one reply that is not
    retried. *)
Lemma search_after_retries q k t docs n (o : outcome (list Z)) :
  datastore_search q (k * 3) = Ret docs ->
  (n < 5)%nat ->
  rate_limited (count_rerank t) n q docs k ->
  co_rerank (count_rerank t + n) q docs k = o ->
  final_reply o ->
  search q k t
  = (t ++ [DatastoreSearch q (k * 3); Sleep 6] ++ failed_attempts q docs k n
       ++ [Sleep 10; CoRerank q docs k],
     match o with
     | Ret idxs => comprehension (py_getitem docs) idxs
     | Raise e => Raise e
     end).
Proof.
  intros Hds Hn Hlim Hreply Hfinal.
  rewrite (search_unfold _ _ _ _ Hds).
  replace 5%nat with (n + S (4 - n))%nat by lia.
  rewrite py_range_split. cbn [seq map].
  rewrite rerank_loop_retries.
  2:{ unfold py_range. rewrite length_map, length_seq.
      rewrite count_rerank_app, Nat.add_0_r. exact Hlim. }
  erewrite rerank_loop_final; [| reflexivity |].
  2:{ rewrite !count_rerank_app. fold (failed_attempts q docs k n).
      rewrite count_rerank_failed_attempts. simpl.
      rewrite Nat.add_0_r, Hreply. exact Hfinal. }
  rewrite !count_rerank_app. fold (failed_attempts q docs k n).
  rewrite count_rerank_failed_attempts. simpl count_rerank.
  rewrite Nat.add_0_r, Hreply.
  rewrite <- !app_assoc. by destruct o.
Qed.

(** After five rate-limited attempts. *)
Lemma search_after_five q k t docs :
  datastore_search q (k * 3) = Ret docs ->
  rate_limited (count_rerank t) 5 q docs k ->
  search q k t
  = (t ++ [DatastoreSearch q (k * 3); Sleep 6] ++ failed_attempts q docs k 5,
     Raise (Exn RuntimeError (u "Demasiados intentos fallidos con Cohere"))).
Proof.
  intros Hds Hlim.
  rewrite (search_unfold _ _ _ _ Hds).
  rewrite <- (app_nil_r (py_range 5)), rerank_loop_retries.
  2:{ rewrite count_rerank_app, Nat.add_0_r. exact Hlim. }
  rewrite rerank_loop_exhausted. fold (failed_attempts q docs k 5).
  by rewrite <- !app_assoc.
Qed.

End Retriever.

Section RetrieverClaims.
Context {svc : Services}.

Lemma count_rerank_prologue q k :
  count_rerank [DatastoreSearch q k; Sleep 6] = 0%nat.
Proof. reflexivity. Qed.

Lemma count_rerank_attempt q docs k :
  count_rerank [Sleep 10; CoRerank q docs k] = 1%nat.
Proof. reflexivity. Qed.

Lemma rerank_loop_no_datastore attempts q docs k t :
  exists t', (rerank_loop attempts q docs k t).1 = t ++ t'
             /\ Forall (fun e => is_datastore_search e = false) t'.
Proof.
  revert t. induction attempts as [|attempt rest IH]; intros t.
  - exists []. by rewrite app_nil_r.
  - destruct (co_rerank (count_rerank t) q docs k) as [idxs | e] eqn:Hreply.
    + rewrite (rerank_loop_final _ _ _ _ _ _ _ Hreply I).
      eexists. split; [reflexivity |]. by repeat constructor.
    + destruct (is_too_many e) eqn:Hcls.
      * rewrite (rerank_loop_retry _ _ _ _ _ _ _ Hreply Hcls).
        destruct (IH (t ++ failed_attempt q docs k (Z.succ attempt)))
          as (t' & -> & Hno).
        exists (failed_attempt q docs k (Z.succ attempt) ++ t').
        split; [by rewrite app_assoc |].
        apply Forall_app. split; [by repeat constructor | done].
      * rewrite (rerank_loop_final _ _ _ _ _ _ _ Hreply Hcls).
        eexists. split; [reflexivity |]. by repeat constructor.
Qed.

Lemma comprehension_in_range (docs : list str) (idxs : list Z) :
  Forall (fun i => 0 <= i < Z.of_nat (length docs)) idxs ->
  exists result,
    comprehension (py_getitem docs) idxs = Ret result
    /\ Forall2 (fun i d => docs !! Z.to_nat i = Some d) idxs result.
Proof.
  induction 1 as [|i idxs Hi _ (result & Hres & Hall)].
  - exists []. by split.
  - destruct (lookup_lt_is_Some_2 docs (Z.to_nat i)) as [d Hd]; [lia |].
    exists (d :: result). split; [| by constructor].
    cbn [comprehension]. rewrite Hres. unfold py_getitem.
    destruct (Z.ltb_spec i 0); [lia |].
    destruct (Z.leb_spec 0 i); [| lia].
    destruct (Z.ltb_spec i (Z.of_nat (length docs))); [| lia].
    cbn [andb]. by rewrite Hd.
Qed.

(** C6.  When the datastore has answered and each of the five rerank
    requests is answered with [TooManyRequestsError], [search] raises
    the [RuntimeError] of the retry loop (it returns no list at all) after
    exactly five requests.  Only [TooManyRequestsError] is retried: as
    soon as a request fails with any other exception, that exception is
    raised to the caller and no further request is made. *)
Theorem search_rate_limit_is_fatal (q : str) (k : Z) (t : list event)
    (docs : list str) :
  datastore_search q (k * 3) = Ret docs ->
  (rate_limited (count_rerank t) 5 q docs k ->
     (search q k t).2
       = Raise (Exn RuntimeError (u "Demasiados intentos fallidos con Cohere"))
     /\ count_rerank (search q k t).1 = (count_rerank t + 5)%nat)
  /\ (forall n e,
        (n < 5)%nat ->
        rate_limited (count_rerank t) n q docs k ->
        co_rerank (count_rerank t + n) q docs k = Raise e ->
        is_too_many e = false ->
        (search q k t).2 = Raise e
        /\ count_rerank (search q k t).1 = (count_rerank t + n + 1)%nat).
Proof.
  intros Hds. split.
  - intros Hlim. rewrite (search_after_five _ _ _ _ Hds Hlim). split; [done |].
    cbn [fst]. rewrite !count_rerank_app, count_rerank_failed_attempts,
      ?count_rerank_prologue, ?count_rerank_attempt. lia.
  - intros n e Hn Hlim Hreply Hcls.
    rewrite (search_after_retries _ _ _ _ _ _ Hds Hn Hlim Hreply Hcls).
    split; [done |].
    cbn [fst]. rewrite !count_rerank_app, count_rerank_failed_attempts,
      ?count_rerank_prologue, ?count_rerank_attempt. lia.
Qed.

(** C7.  [search] asks the datastore for [3 * top_k] passages, once.
    When a rerank request succeeds (after fewer than five rate-limited
    ones) with indices that are positions of the candidate list, the
    result has one passage per returned index, in the order of the
    indices: the passage at that position of the candidate list. *)
Theorem search_overfetch_and_rerank_order (q : str) (k : Z) (t : list event) :
  (exists t',
     (search q k t).1 = t ++ DatastoreSearch q (3 * k) :: t'
     /\ Forall (fun e => is_datastore_search e = false) t')
  /\ (forall docs n idxs,
        datastore_search q (3 * k) = Ret docs ->
        (n < 5)%nat ->
        rate_limited (count_rerank t) n q docs k ->
        co_rerank (count_rerank t + n) q docs k = Ret idxs ->
        Forall (fun i => 0 <= i < Z.of_nat (length docs)) idxs ->
        exists result,
          (search q k t).2 = Ret result
          /\ Forall2 (fun i d => docs !! Z.to_nat i = Some d) idxs result).
Proof.
  rewrite (Z.mul_comm 3 k). split.
  - destruct (datastore_search q (k * 3)) as [docs | e] eqn:Hds.
    + rewrite (search_unfold _ _ _ _ Hds).
      destruct (rerank_loop_no_datastore (py_range 5) q docs k
                  (t ++ [DatastoreSearch q (k * 3); Sleep 6]))
        as (t' & Ht' & Hno).
      destruct (rerank_loop _ _ _ _ _) as [t1 [idxs | e]];
        simpl in Ht'; subst t1; cbn [fst];
        exists (Sleep 6 :: t'); rewrite <- app_assoc;
        (split; [done | by constructor]).
    + exists []. split; [| done].
      unfold search, bind, datastore_request. by rewrite Hds.
  - intros docs n idxs Hds Hn Hlim Hreply Hrange.
    rewrite (search_after_retries _ _ _ _ _ _ Hds Hn Hlim Hreply I).
    cbn [snd]. by apply comprehension_in_range.
Qed.

(** C8, as the code has it.  The rerank request is made at most five
    times and repeated only after [TooManyRequestsError].  Every
    attempt is preceded by a 10-second delay and every rate-limited
    attempt is followed by a back-off of [10 * number] seconds, [number]
    counting the attempts from 1.  The 6-second delay is applied once,
    before the first attempt, and not again. *)
Theorem rerank_delays (q : str) (k : Z) (t : list event) (docs : list str) :
  datastore_search q (k * 3) = Ret docs ->
  (forall n,
     (n < 5)%nat ->
     rate_limited (count_rerank t) n q docs k ->
     final_reply (co_rerank (count_rerank t + n) q docs k) ->
     (search q k t).1
     = t ++ [DatastoreSearch q (k * 3); Sleep 6]
         ++ failed_attempts q docs k n ++ [Sleep 10; CoRerank q docs k])
  /\ (rate_limited (count_rerank t) 5 q docs k ->
      (search q k t).1
      = t ++ [DatastoreSearch q (k * 3); Sleep 6]
          ++ [Sleep 10; CoRerank q docs k; Sleep 10;
              Sleep 10; CoRerank q docs k; Sleep 20;
              Sleep 10; CoRerank q docs k; Sleep 30;
              Sleep 10; CoRerank q docs k; Sleep 40;
              Sleep 10; CoRerank q docs k; Sleep 50])
  /\ (forall n number,
        1 <= number <= Z.of_nat n ->
        exists before after,
          failed_attempts q docs k n
          = before ++ [Sleep 10; CoRerank q docs k;
                       Sleep (inject_Z (10 * number))] ++ after)
  /\ (count_rerank (search q k t).1 <= count_rerank t + 5)%nat.
Proof.
  intros Hds. split; [| split; [| split]].
  - intros n Hn Hlim Hfinal.
    by rewrite (search_after_retries _ _ _ _ _ _ Hds Hn Hlim eq_refl Hfinal).
  - intros Hlim. by rewrite (search_after_five _ _ _ _ Hds Hlim).
  - intros n number Hnum. unfold failed_attempts.
    assert (number ∈ map Z.succ (py_range n)) as Hin.
    { apply list_elem_of_In, in_map_iff. exists (number - 1). split; [lia |].
      apply in_map_iff. exists (Z.to_nat (number - 1)). split; [lia |].
      apply in_seq. lia. }
    apply list_elem_of_split in Hin as (l1 & l2 & ->).
    rewrite flat_map_app. cbn [flat_map]. unfold failed_attempt at 2.
    eexists _, _. reflexivity.
  - rewrite (search_unfold _ _ _ _ Hds).
    assert (forall attempts t0,
      (count_rerank (rerank_loop attempts q docs k t0).1
       <= count_rerank t0 + length attempts)%nat) as Hbound.
    { induction attempts as [|attempt rest IH]; intros t0; [simpl; lia |].
      destruct (co_rerank (count_rerank t0) q docs k) as [idxs | e] eqn:Hr.
      - rewrite (rerank_loop_final _ _ _ _ _ _ _ Hr I).
        cbn [fst length]. rewrite count_rerank_app, count_rerank_attempt. lia.
      - destruct (is_too_many e) eqn:Hcls.
        + rewrite (rerank_loop_retry _ _ _ _ _ _ _ Hr Hcls).
          etrans; [apply IH |].
          rewrite count_rerank_app, count_rerank_failed_attempt.
          cbn [length]. lia.
        + rewrite (rerank_loop_final _ _ _ _ _ _ _ Hr Hcls).
          cbn [fst length]. rewrite count_rerank_app, count_rerank_attempt. lia. }
    specialize (Hbound (py_range 5) (t ++ [DatastoreSearch q (k * 3); Sleep 6])).
    rewrite count_rerank_app, count_rerank_prologue in Hbound.
    change (length (py_range 5)) with 5%nat in Hbound.
    by destruct (rerank_loop _ _ _ _ _) as [t1 [idxs | e]]; cbn [fst] in *; lia.
Qed.

End RetrieverClaims.

(** Five rate-limited requests; and one rate-limited request followed by
    a failure of another kind. *)
Lemma search_rate_limit_is_fatal_witness :
  (search (svc := scripted [] [u "doc"] (u "ok") 0) (u "ebitda") 1 []).2
    = Raise (Exn RuntimeError (u "Demasiados intentos fallidos con Cohere"))
  /\ (search (svc := scripted [Raise too_many_requests;
                               Raise (Exn OtherException (u "timeout"))]
                        [u "doc"] (u "ok") 0) (u "ebitda") 1 []).2
    = Raise (Exn OtherException (u "timeout")).
Proof.
  split.
  - destruct (search_rate_limit_is_fatal
                (svc := scripted [] [u "doc"] (u "ok") 0)
                (u "ebitda") 1 [] [u "doc"] eq_refl) as [Hfatal _].
    apply Hfatal. intros i Hi. exists too_many_requests.
    split; reflexivity.
  - destruct (search_rate_limit_is_fatal
                (svc := scripted [Raise too_many_requests;
                                  Raise (Exn OtherException (u "timeout"))]
                                 [u "doc"] (u "ok") 0)
                (u "ebitda") 1 [] [u "doc"] eq_refl) as [_ Hother].
    apply (Hother 1%nat); [lia | | reflexivity | reflexivity].
    intros i Hi. exists too_many_requests.
    destruct i; [split; reflexivity | lia].
Defined.

(** One rate-limited request, then the reranker puts the third candidate
    before the first. *)
Lemma search_overfetch_and_rerank_order_witness :
  exists result,
    (search (svc := scripted [Raise too_many_requests; Ret [2; 0]]
                     [u "uno"; u "dos"; u "tres"] (u "ok") 0)
            (u "ebitda") 1 []).2 = Ret result
    /\ Forall2 (fun i d => [u "uno"; u "dos"; u "tres"] !! Z.to_nat i = Some d)
               [2; 0] result.
Proof.
  destruct (search_overfetch_and_rerank_order
              (svc := scripted [Raise too_many_requests; Ret [2; 0]]
                               [u "uno"; u "dos"; u "tres"] (u "ok") 0)
              (u "ebitda") 1 []) as [_ Horder].
  apply (Horder [u "uno"; u "dos"; u "tres"] 1%nat [2; 0]);
    [reflexivity | lia | | reflexivity |].
  - intros i Hi. exists too_many_requests.
    destruct i; [split; reflexivity | lia].
  - repeat constructor; simpl; lia.
Defined.

(** Two rate-limited requests, then a result. *)
Lemma rerank_delays_witness :
  (search (svc := scripted [Raise too_many_requests; Raise too_many_requests;
                            Ret [0]] [u "doc"] (u "ok") 0)
          (u "ebitda") 1 []).1
  = [DatastoreSearch (u "ebitda") 3; Sleep 6;
     Sleep 10; CoRerank (u "ebitda") [u "doc"] 1; Sleep 10;
     Sleep 10; CoRerank (u "ebitda") [u "doc"] 1; Sleep 20;
     Sleep 10; CoRerank (u "ebitda") [u "doc"] 1].
Proof.
  destruct (rerank_delays
              (svc := scripted [Raise too_many_requests;
                                Raise too_many_requests; Ret [0]]
                               [u "doc"] (u "ok") 0)
              (u "ebitda") 1 [] [u "doc"] eq_refl) as [Htrace _].
  apply (Htrace 2%nat); [lia | | exact I].
  intros i Hi. exists too_many_requests.
  destruct i as [|[|i]]; [split; reflexivity | split; reflexivity | lia].
Defined.

(** C8, as the specification states it, fails: with one rate-limited
    request followed by a result there are two attempts; a 10-second
    delay precedes each of them, a 6-second delay precedes only the
    first. *)
Lemma six_second_delay_not_before_every_attempt :
  count_rerank
    (search (svc := scripted [Raise too_many_requests; Ret [0]]
                     [u "doc"] (u "ok") 0) (u "ebitda") 1 []).1 = 2%nat
  /\ delay_before_every_attempt 10
       (search (svc := scripted [Raise too_many_requests; Ret [0]]
                        [u "doc"] (u "ok") 0) (u "ebitda") 1 []).1 = true
  /\ delay_before_every_attempt 6
       (search (svc := scripted [Raise too_many_requests; Ret [0]]
                        [u "doc"] (u "ok") 0) (u "ebitda") 1 []).1 = false.
Proof. vm_compute. auto. Qed.

(** ** The evaluator: exceptions *)

Section EvaluatorErrors.
Context {ops : StrOps} {svc : Services}.
Local Open Scope Q_scope.

Lemma semantic_similarity_run (r e : str) (t : list event) :
  _semantic_similarity r e t
  = (t ++ [Sleep (3 # 2); EmbeddingsCreate r e],
     Ret match embeddings_cosine r e with
         | Ret cosine_sim => py_round cosine_sim 3
         | Raise _ => float_lit 0 1
         end).
Proof.
  unfold _semantic_similarity, try_except, bind, sleep, emit, ret.
  rewrite <- app_assoc. by destruct (embeddings_cosine r e).
Qed.

(** C5, as the code has it.  [evaluate] returns an [EvaluationResult]
    and never raises, and [is_correct] is a boolean in every case.  An
    exception that reaches [evaluate] from the literal comparison, or
    from the semantic comparison after a literal score below the
    threshold, gives [is_correct = false] and the reasoning "Error en
    evaluación:" followed by the text of the exception.  An exception of
    the embedding request does not reach [evaluate]:
    [_semantic_similarity] catches it and scores 0.0, so the result is
    incorrect with the ordinary reasoning of a low score, in which the
    text of the exception does not appear. *)
Theorem evaluate_never_raises
    (text_similarity semantic_similarity : str -> str -> M Q)
    (q r e : str) (t : list event) :
  (exists res,
     (evaluate_with text_similarity semantic_similarity q r e t).2 = Ret res
     /\ question res = q /\ response res = r /\ expected_answer res = e
     /\ (is_correct res = true \/ is_correct res = false))
  /\ (forall t1 x,
        text_similarity r e t = (t1, Raise x) ->
        evaluate_with text_similarity semantic_similarity q r e t
        = (t1, Ret {| question := q; response := r; expected_answer := e;
                      is_correct := false;
                      reasoning := error_reasoning x |}))
  /\ (forall t1 sim t2 x,
        text_similarity r e t = (t1, Ret sim) ->
        Qle_bool (float_lit 75 100) sim = false ->
        semantic_similarity r e t1 = (t2, Raise x) ->
        evaluate_with text_similarity semantic_similarity q r e t
        = (t2, Ret {| question := q; response := r; expected_answer := e;
                      is_correct := false;
                      reasoning := error_reasoning x |}))
  /\ (exists res, (evaluate q r e t).2 = Ret res)
  /\ (forall x,
        embeddings_cosine r e = Raise x ->
        py_round (ratio (SequenceMatcher (lower r) (lower e))) 3
        < float_lit 75 100 ->
        evaluate q r e t
        = (t ++ [Sleep (3 # 2); EmbeddingsCreate r e],
           Ret {| question := q; response := r; expected_answer := e;
                  is_correct := false;
                  reasoning :=
                    u "Similarity: "
                      ++ format_2f
                           (py_round
                              (ratio (SequenceMatcher (lower r) (lower e))) 3)
                      ++ u ". Semantic Similarity: 0.00. ❌ La respuesta no coincide ni semánticamente con la esperada."
               |})).
Proof.
  assert (forall ts ss, exists res,
    (evaluate_with ts ss q r e t).2 = Ret res
    /\ question res = q /\ response res = r /\ expected_answer res = e
    /\ (is_correct res = true \/ is_correct res = false)) as Hret.
  { intros ts ss. unfold evaluate_with, bind, try_except, ret.
    destruct (ts r e t) as [t1 [sim | x]]; cbn [negb].
    - destruct (Qle_bool (float_lit 75 100) sim); cbn [negb].
      + eexists. repeat split. by left.
      + destruct (ss r e t1) as [t2 [sem | x]].
        * destruct (Qle_bool (float_lit 80 100) sem);
            eexists; repeat split; cbn; auto.
        * eexists. repeat split. by right.
    - eexists. repeat split. by right. }
  split; [apply Hret |]. split; [| split; [| split]].
  - intros t1 x Hts. unfold evaluate_with, bind, try_except, ret.
    by rewrite Hts.
  - intros t1 sim t2 x Hts Hlow Hss.
    unfold evaluate_with, bind, try_except, ret.
    rewrite Hts, Hlow. cbn [negb]. by rewrite Hss.
  - destruct (Hret _text_similarity _semantic_similarity) as (res & Hres & _).
    by exists res.
  - intros x Hfail Hsim.
    set (similarity := py_round (ratio (SequenceMatcher (lower r) (lower e))) 3)
      in *.
    assert (Qle_bool (float_lit 75 100) similarity = false) as Hlow.
    { destruct (Qle_bool _ similarity) eqn:Hb; [| done].
      apply Qle_bool_iff in Hb. lra. }
    unfold evaluate, evaluate_with, _text_similarity, bind, try_except, ret.
    fold similarity. rewrite Hlow. cbn [negb].
    rewrite semantic_similarity_run, Hfail.
    replace (Qle_bool (float_lit 80 100) (float_lit 0 1)) with false
      by (by vm_compute).
    cbn [fst snd]. rewrite <- !app_assoc.
    apply (f_equal (fun s => (t ++ [Sleep (3 # 2); EmbeddingsCreate r e],
                              Ret {| question := q; response := r;
                                     expected_answer := e; is_correct := false;
                                     reasoning := u "Similarity: "
                                                    ++ format_2f similarity ++ s
                                  |}))).
    vm_compute. reflexivity.
Qed.

End EvaluatorErrors.

(** A literal comparison that fails for want of an attribute; and an
    embedding request that fails. *)
Lemma evaluate_never_raises_witness :
  evaluate_with
    (fun _ _ => raise (Exn OtherException (u "no attribute lower")))
    (_semantic_similarity (svc := without_embeddings))
    (u "q") (u "r") (u "e") []
  = ([], Ret {| question := u "q"; response := u "r";
                expected_answer := u "e"; is_correct := false;
                reasoning :=
                  error_reasoning (Exn OtherException (u "no attribute lower")) |})
  /\ (evaluate (ops := Latin1) (svc := without_embeddings)
        (u "q") (u "120") (u "95") []).2
     = Ret {| question := u "q"; response := u "120";
              expected_answer := u "95"; is_correct := false;
              reasoning :=
                u "Similarity: 0.00. Semantic Similarity: 0.00. ❌ La respuesta no coincide ni semánticamente con la esperada." |}.
Proof.
  destruct (evaluate_never_raises (ops := Latin1) (svc := without_embeddings)
              (fun _ _ => raise (Exn OtherException (u "no attribute lower")))
              (_semantic_similarity (svc := without_embeddings))
              (u "q") (u "r") (u "e") [])
    as (_ & Hraise & _).
  destruct (evaluate_never_raises (ops := Latin1) (svc := without_embeddings)
              (_text_similarity (ops := Latin1))
              (_semantic_similarity (svc := without_embeddings))
              (u "q") (u "120") (u "95") [])
    as (_ & _ & _ & _ & Hdown).
  split.
  - apply Hraise. reflexivity.
  - rewrite (Hdown connection_error eq_refl); [| by vm_compute].
    vm_compute. reflexivity.
Defined.

(** C5, as the specification states it, fails: when the embedding
    request raises "Connection error." the result is incorrect, but its
    reasoning is the ordinary one and does not contain the text of the
    exception. *)
Lemma embedding_error_not_in_reasoning :
  embeddings_cosine (Services := without_embeddings) (u "120") (u "95")
  = Raise connection_error
  /\ match evaluate (ops := Latin1) (svc := without_embeddings)
             (u "q") (u "120") (u "95") [] with
     | (_, Ret res) =>
       is_correct res = false
       /\ str_in (exn_str connection_error) (reasoning res) = false
       /\ reasoning res
          = u "Similarity: 0.00. Semantic Similarity: 0.00. ❌ La respuesta no coincide ni semánticamente con la esperada."
     | (_, Raise _) => False
     end.
Proof. vm_compute. auto. Qed.

(** ** The pipeline *)

Section ProcessQuery.
Context {ops : StrOps} {svc : Services}.

Lemma source_suffix_not_empty (s : str) : s ++ source_suffix <> s.
Proof.
  intros Heq. apply (f_equal length) in Heq.
  rewrite length_app in Heq.
  assert (0 < length source_suffix)%nat by (vm_compute; lia). lia.
Qed.

Lemma ethical_guardrails_forms (resp : str) :
  ethical_guardrails resp = investment_refusal
  \/ ethical_guardrails resp = prediction_refusal
  \/ ethical_guardrails resp = resp ++ source_suffix.
Proof.
  unfold ethical_guardrails.
  destruct (existsb _ investment_terms); [by left |].
  destruct (existsb _ prediction_terms); [by right; left | by right; right].
Qed.

(** C10.  [process_query] returns a string exactly when retrieval
    returns passages and generation returns a response, and the string
    is then [ethical_guardrails] of that response: one of the two
    refusals, or the response followed by the source suffix.  The
    returned string can equal the generator's response only when that
    response is itself one of the refusals. *)
Theorem process_query_always_filtered (query : str) (t : list event) :
  (forall t' s,
     process_query query t = (t', Ret s) <->
     exists docs t1 resp,
       search query 10 t = (t1, Ret docs)
       /\ generate_response query docs t1 = (t', Ret resp)
       /\ s = ethical_guardrails resp)
  /\ (forall resp,
        (ethical_guardrails resp = investment_refusal
         \/ ethical_guardrails resp = prediction_refusal
         \/ ethical_guardrails resp = resp ++ source_suffix)
        /\ (ethical_guardrails resp = resp ->
            resp = investment_refusal \/ resp = prediction_refusal)).
Proof.
  split.
  - intros t' s. unfold process_query, bind, ret. split.
    + destruct (search query 10 t) as [t1 [docs | e]]; [| done].
      destruct (generate_response query docs t1) as [t2 [resp | e]] eqn:Hgen;
        [| done].
      intros [= <- <-]. by exists docs, t1, resp.
    + intros (docs & t1 & resp & -> & -> & ->). done.
  - intros resp. split; [apply ethical_guardrails_forms |].
    intros Hsame.
    destruct (ethical_guardrails_forms resp) as [Hf | [Hf | Hf]].
    + left. congruence.
    + right. congruence.
    + rewrite Hf in Hsame. by apply source_suffix_not_empty in Hsame.
Qed.

End ProcessQuery.

(** The generator answers with a text containing "predicción". *)
Lemma process_query_always_filtered_witness :
  (process_query (ops := Latin1)
     (svc := scripted [Ret [0]] [u "doc"] (u "La Predicción es favorable") 0)
     (u "ebitda") []).2 = Ret prediction_refusal.
Proof.
  destruct (process_query_always_filtered (ops := Latin1)
              (svc := scripted [Ret [0]] [u "doc"]
                               (u "La Predicción es favorable") 0)
              (u "ebitda") []) as [Hiff _].
  pose proof (proj2 (Hiff _ prediction_refusal)
                (ex_intro _ [u "doc"] (ex_intro _ _ (ex_intro _
                   (u "La Predicción es favorable")
                   (conj eq_refl (conj eq_refl eq_refl)))))) as Hrun.
  rewrite Hrun. reflexivity.
Defined.

(** ** Binary64 arithmetic *)

Section FloatFacts.
Local Open Scope Q_scope.

Lemma pow2_pos e : 0 < pow2 e.
Proof. apply Qpower_0_lt. reflexivity. Qed.

Lemma pow2_add a b : pow2 (a + b) == pow2 a * pow2 b.
Proof. apply Qpower_plus. discriminate. Qed.

Lemma pow2_succ a : pow2 (a + 1) == 2 * pow2 a.
Proof. rewrite pow2_add. unfold pow2 at 2. simpl. ring. Qed.

Lemma pow2_lt a b : (a < b)%Z -> pow2 a < pow2 b.
Proof. intros. apply Qpower_lt_compat_l; [done | reflexivity]. Qed.

Lemma pow2_le a b : (a <= b)%Z -> pow2 a <= pow2 b.
Proof. intros. apply Qpower_le_compat_l; [done | discriminate]. Qed.

Lemma pow2_lt_inv a b : pow2 a < pow2 b -> (a < b)%Z.
Proof.
  intros Hlt. destruct (Z.lt_ge_cases a b) as [|Hge]; [done |].
  apply pow2_le in Hge. apply Qle_not_lt in Hge. contradiction.
Qed.

Lemma pow2_Z n : (0 <= n)%Z -> pow2 n == inject_Z (2 ^ n).
Proof. intros. unfold pow2. by rewrite Zpower_Qpower. Qed.

(** *** Rounding to an integer *)

Lemma rne_floor q : (Qfloor q <= rne q <= Qfloor q + 1)%Z.
Proof.
  unfold rne. destruct (_ ?= _); [destruct (Z.even _) | |]; lia.
Qed.

Lemma rne_Z z : rne (inject_Z z) = z.
Proof.
  unfold rne. rewrite Qfloor_Z.
  replace (inject_Z z - inject_Z z ?= 1 # 2) with Lt; [done |].
  symmetry. apply (proj1 (Qlt_alt _ _)). lra.
Qed.

#[local] Instance rne_comp : Proper (Qeq ==> eq) rne.
Proof.
  intros x y Hxy. unfold rne. rewrite (Qfloor_comp _ _ Hxy).
  by rewrite Hxy.
Qed.

Lemma rne_mono x y : x <= y -> (rne x <= rne y)%Z.
Proof.
  intros Hxy. pose proof (Qfloor_resp_le _ _ Hxy) as Hf.
  destruct (Z.eq_dec (Qfloor x) (Qfloor y)) as [Heq | Hne].
  - unfold rne. rewrite <- Heq.
    destruct (Qcompare_spec (x - inject_Z (Qfloor x)) (1 # 2)) as [Hx|Hx|Hx];
    destruct (Qcompare_spec (y - inject_Z (Qfloor x)) (1 # 2)) as [Hy|Hy|Hy];
      try destruct (Z.even _); try lia; exfalso; lra.
  - pose proof (rne_floor x). pose proof (rne_floor y). lia.
Qed.

Lemma rne_le_Z q z : q <= inject_Z z -> (rne q <= z)%Z.
Proof. intros Hq. rewrite <- (rne_Z z). by apply rne_mono. Qed.

Lemma rne_ge_Z q z : inject_Z z <= q -> (z <= rne q)%Z.
Proof. intros Hq. rewrite <- (rne_Z z). by apply rne_mono. Qed.


(** *** The binary exponent *)

Lemma ilog2_bounds n d :
  (0 < n)%Z ->
  pow2 (Z.log2 n - Z.log2 (Zpos d) - 1) <= n # d
  /\ n # d < pow2 (Z.log2 n - Z.log2 (Zpos d) + 1).
Proof.
  intros Hn.
  pose proof (Z.log2_nonneg n) as Hln0.
  pose proof (Z.log2_nonneg (Zpos d)) as Hld0.
  destruct (Z.log2_spec n Hn) as [Hn1 Hn2].
  destruct (Z.log2_spec (Zpos d) eq_refl) as [Hd1 Hd2].
  set (ln := Z.log2 n) in *. set (ld := Z.log2 (Zpos d)) in *.
  assert (pow2 ln <= inject_Z n) as HN1.
  { rewrite pow2_Z by done. by rewrite <- Zle_Qle. }
  assert (inject_Z n < pow2 (ln + 1)) as HN2.
  { rewrite pow2_Z by lia. by rewrite <- Zlt_Qlt. }
  assert (pow2 ld <= inject_Z (Zpos d)) as HD1.
  { rewrite pow2_Z by done. by rewrite <- Zle_Qle. }
  assert (inject_Z (Zpos d) < pow2 (ld + 1)) as HD2.
  { rewrite pow2_Z by lia. by rewrite <- Zlt_Qlt. }
  assert (0 < inject_Z (Zpos d)) as HD0 by reflexivity.
  rewrite (Qmake_Qdiv n d). split.
  - apply Qle_shift_div_l; [done |].
    apply Qle_trans with (pow2 (ln - ld - 1) * pow2 (ld + 1)).
    + apply Qmult_le_l; [apply pow2_pos | by apply Qlt_le_weak].
    + rewrite <- pow2_add. by replace (ln - ld - 1 + (ld + 1))%Z with ln by lia.
  - apply Qlt_shift_div_r; [done |].
    apply Qlt_le_trans with (pow2 (ln - ld + 1) * pow2 ld).
    + rewrite <- pow2_add. by replace (ln - ld + 1 + ld)%Z with (ln + 1)%Z by lia.
    + apply Qmult_le_l; [apply pow2_pos | done].
Qed.

Lemma ilog2_spec q : 0 < q -> pow2 (ilog2 q) <= q /\ q < pow2 (ilog2 q + 1).
Proof.
  intros Hq. destruct q as [n d].
  assert (0 < n)%Z as Hn.
  { unfold Qlt in Hq. simpl in Hq. lia. }
  destruct (ilog2_bounds n d Hn) as [Hlo Hhi].
  unfold ilog2. cbn [Qnum Qden].
  set (t := (Z.log2 n - Z.log2 (Zpos d))%Z) in *.
  destruct (Qle_bool (pow2 t) (n # d)) eqn:Hcmp.
  - apply Qle_bool_iff in Hcmp. by split.
  - split; [done |].
    replace (t - 1 + 1)%Z with t by lia.
    apply Qnot_le_lt. intros Hle. apply Qle_bool_iff in Hle. congruence.
Qed.

Lemma ilog2_unique q a : pow2 a <= q -> q < pow2 (a + 1) -> ilog2 q = a.
Proof.
  intros Hlo Hhi.
  assert (0 < q) as Hq by (eapply Qlt_le_trans; [apply (pow2_pos a) | done]).
  destruct (ilog2_spec q Hq) as [Hlo' Hhi'].
  assert (a < ilog2 q + 1)%Z
    by (apply pow2_lt_inv; eapply Qle_lt_trans; eassumption).
  assert (ilog2 q < a + 1)%Z
    by (apply pow2_lt_inv; eapply Qle_lt_trans; eassumption).
  lia.
Qed.

Lemma ilog2_comp x y : 0 < x -> x == y -> ilog2 x = ilog2 y.
Proof.
  intros Hx Hxy. symmetry. destruct (ilog2_spec x Hx) as [Hlo Hhi].
  apply ilog2_unique; by rewrite <- Hxy.
Qed.

Lemma ilog2_mono x y : 0 < x -> x <= y -> (ilog2 x <= ilog2 y)%Z.
Proof.
  intros Hx Hxy.
  assert (0 < y) as Hy by (eapply Qlt_le_trans; eassumption).
  destruct (ilog2_spec x Hx) as [Hlo _].
  destruct (ilog2_spec y Hy) as [_ Hhi].
  assert (ilog2 x < ilog2 y + 1)%Z; [| lia].
  apply pow2_lt_inv. eapply Qle_lt_trans; [| exact Hhi].
  by eapply Qle_trans.
Qed.

Lemma ulp_exp_mono x y : 0 < x -> x <= y -> (ulp_exp x <= ulp_exp y)%Z.
Proof.
  intros Hx Hxy. pose proof (ilog2_mono x y Hx Hxy). unfold ulp_exp. lia.
Qed.

(** The scaled value [q / 2^ulp_exp q] lies below [2^53], and from
    [2^52] on when [q] is a normal number. *)
Lemma scaled_lt q : 0 < q -> q / pow2 (ulp_exp q) < pow2 53.
Proof.
  intros Hq. destruct (ilog2_spec q Hq) as [_ Hhi].
  apply Qlt_shift_div_r; [apply pow2_pos |].
  rewrite <- pow2_add. eapply Qlt_le_trans; [exact Hhi |].
  apply pow2_le. unfold ulp_exp. lia.
Qed.

Lemma scaled_ge q :
  0 < q -> (-1074 < ulp_exp q)%Z -> pow2 52 <= q / pow2 (ulp_exp q).
Proof.
  intros Hq Hnorm. destruct (ilog2_spec q Hq) as [Hlo _].
  apply Qle_shift_div_l; [apply pow2_pos |].
  rewrite <- pow2_add. eapply Qle_trans; [| exact Hlo].
  apply pow2_le. unfold ulp_exp in *. lia.
Qed.


(** *** Rounding to binary64 *)

Lemma fl_of_pos q : 0 < q -> fl q = fl_pos q.
Proof.
  destruct q as [[|n|n] d]; unfold Qlt; simpl; intros; try lia. reflexivity.
Qed.

Lemma fl_of_zero q : q == 0 -> fl q = 0.
Proof.
  destruct q as [[|n|n] d]; unfold Qeq; simpl; intros; try lia. reflexivity.
Qed.

Lemma fl_pos_nonneg q : 0 < q -> 0 <= fl_pos q.
Proof.
  intros Hq. unfold fl_pos. apply Qmult_le_0_compat.
  - change 0 with (inject_Z 0). rewrite <- Zle_Qle. apply rne_ge_Z.
    apply Qle_shift_div_l; [apply pow2_pos |].
    change (inject_Z 0) with 0. lra.
  - apply Qlt_le_weak, pow2_pos.
Qed.

Lemma fl_pos_mono x y : 0 < x -> x <= y -> fl_pos x <= fl_pos y.
Proof.
  intros Hx Hxy.
  assert (0 < y) as Hy by (eapply Qlt_le_trans; eassumption).
  pose proof (ulp_exp_mono x y Hx Hxy) as Hexp. unfold fl_pos.
  destruct (Z.eq_dec (ulp_exp x) (ulp_exp y)) as [Heq | Hne].
  - rewrite Heq. apply Qmult_le_compat_r; [| apply Qlt_le_weak, pow2_pos].
    rewrite <- Zle_Qle. apply rne_mono.
    apply Qmult_le_compat_r; [done |].
    apply Qlt_le_weak, Qinv_lt_0_compat, pow2_pos.
  - apply Qle_trans with (pow2 (ulp_exp x + 53)).
    + rewrite pow2_add, (Qmult_comm (pow2 (ulp_exp x))).
      apply Qmult_le_compat_r; [| apply Qlt_le_weak, pow2_pos].
      rewrite (pow2_Z 53) by lia. rewrite <- Zle_Qle. apply rne_le_Z.
      rewrite <- (pow2_Z 53) by lia. apply Qlt_le_weak, scaled_lt, Hx.
    + apply Qle_trans with (pow2 (ulp_exp y + 52)); [apply pow2_le; lia |].
      rewrite pow2_add, (Qmult_comm (pow2 (ulp_exp y))).
      apply Qmult_le_compat_r; [| apply Qlt_le_weak, pow2_pos].
      rewrite (pow2_Z 52) by lia. rewrite <- Zle_Qle. apply rne_ge_Z.
      rewrite <- (pow2_Z 52) by lia. apply scaled_ge; [done |].
      unfold ulp_exp in *. lia.
Qed.

(** [fl] is monotone on the non-negative rationals and maps them to
    non-negative ones. *)
Lemma fl_nonneg q : 0 <= q -> 0 <= fl q.
Proof.
  intros Hq. destruct (Qlt_le_dec 0 q) as [Hpos | Hle].
  - rewrite fl_of_pos by done. by apply fl_pos_nonneg.
  - rewrite fl_of_zero; [done | lra].
Qed.

Lemma fl_mono x y : 0 <= x -> x <= y -> fl x <= fl y.
Proof.
  intros Hx Hxy. destruct (Qlt_le_dec 0 x) as [Hpos | Hle].
  - rewrite !fl_of_pos by lra. by apply fl_pos_mono.
  - rewrite (fl_of_zero x) by lra. apply fl_nonneg. lra.
Qed.

Lemma fl_pos_comp x y : 0 < x -> x == y -> fl_pos x == fl_pos y.
Proof.
  intros Hx Hxy. unfold fl_pos, ulp_exp.
  rewrite <- (ilog2_comp x y Hx Hxy).
  set (uexp := Z.max (ilog2 x - 52) (-1074)).
  assert (rne (x / pow2 uexp) = rne (y / pow2 uexp)) as ->; [| reflexivity].
  apply rne_comp. by rewrite Hxy.
Qed.

Lemma fl_comp x y : 0 <= x -> x == y -> fl x == fl y.
Proof.
  intros Hx Hxy. destruct (Qlt_le_dec 0 x) as [Hpos | Hle].
  - rewrite !fl_of_pos by lra. by apply fl_pos_comp.
  - rewrite !fl_of_zero by lra. reflexivity.
Qed.

(** A rational [m * 2^e] with [0 < m < 2^53] and [e >= -1074] is a
    binary64 number: rounding leaves it unchanged. *)
Lemma fl_representable x m e :
  (0 < m < 2 ^ 53)%Z -> (-1074 <= e)%Z ->
  x == inject_Z m * pow2 e -> fl x == x.
Proof.
  intros Hm He Hx.
  assert (0 < x) as Hpos.
  { rewrite Hx. apply Qmult_lt_0_compat; [| apply pow2_pos].
    change 0 with (inject_Z 0). rewrite <- Zlt_Qlt. lia. }
  rewrite fl_of_pos by done. unfold fl_pos.
  destruct (ilog2_spec x Hpos) as [Hlo _].
  assert (ulp_exp x <= e)%Z as Hu.
  { assert (ilog2 x < e + 53)%Z; [| unfold ulp_exp; lia].
    apply pow2_lt_inv. eapply Qle_lt_trans; [exact Hlo |].
    rewrite Hx, pow2_add, (Qmult_comm (pow2 e)).
    apply Qmult_lt_compat_r; [apply pow2_pos |].
    rewrite (pow2_Z 53) by lia. rewrite <- Zlt_Qlt. lia. }
  set (uexp := ulp_exp x) in *.
  assert (x / pow2 uexp == inject_Z (m * 2 ^ (e - uexp))) as Hscaled.
  { rewrite inject_Z_mult, <- (pow2_Z (e - uexp)) by lia.
    replace e with ((e - uexp) + uexp)%Z in Hx by lia.
    rewrite pow2_add in Hx. rewrite Hx. field.
    apply Qnot_eq_sym, Qlt_not_eq, pow2_pos. }
  rewrite Hscaled, rne_Z.
  rewrite <- Hscaled. field. apply Qnot_eq_sym, Qlt_not_eq, pow2_pos.
Qed.

(** The result of rounding is a binary64 number. *)
Lemma fl_pos_idempotent x : 0 < x -> fl (fl_pos x) == fl_pos x.
Proof.
  intros Hx.
  assert (0 <= rne (x / pow2 (ulp_exp x)) <= 2 ^ 53)%Z as [Hr0 Hr1].
  { split.
    - apply rne_ge_Z. apply Qle_shift_div_l; [apply pow2_pos |].
      change (inject_Z 0) with 0. lra.
    - apply rne_le_Z. rewrite <- (pow2_Z 53) by lia.
      by apply Qlt_le_weak, scaled_lt. }
  assert (-1074 <= ulp_exp x)%Z as Hu by (unfold ulp_exp; lia).
  destruct (Z.eq_dec (rne (x / pow2 (ulp_exp x))) 0) as [Hz | Hnz].
  - unfold fl_pos. rewrite Hz. rewrite fl_of_zero; [| ring]. ring.
  - destruct (Z.eq_dec (rne (x / pow2 (ulp_exp x))) (2 ^ 53)) as [Htop | Hlt].
    + apply (fl_representable _ (2 ^ 52) (ulp_exp x + 1)); [lia | lia |].
      unfold fl_pos. rewrite Htop, pow2_succ.
      change (inject_Z (2 ^ 53)) with (2 * inject_Z (2 ^ 52)). ring.
    + apply (fl_representable _ (rne (x / pow2 (ulp_exp x))) (ulp_exp x));
        [lia | lia | reflexivity].
Qed.

Lemma fl_idempotent x : 0 <= x -> fl (fl x) == fl x.
Proof.
  intros Hx. destruct (Qlt_le_dec 0 x) as [Hpos | Hle].
  - rewrite (fl_of_pos x) by done. by apply fl_pos_idempotent.
  - rewrite (fl_of_zero x) by lra. reflexivity.
Qed.

(** Doubling is exact (there is no overflow in this model). *)
Lemma fl_double x : 1 <= x -> fl (2 * x) == 2 * fl x.
Proof.
  intros Hx. assert (0 < x) as Hpos by lra.
  rewrite !fl_of_pos by lra. unfold fl_pos.
  destruct (ilog2_spec x Hpos) as [Hlo Hhi].
  assert (0 <= ilog2 x)%Z as Hi.
  { assert (0 < ilog2 x + 1)%Z; [| lia]. apply pow2_lt_inv.
    eapply Qle_lt_trans; [| exact Hhi]. exact Hx. }
  assert (ilog2 (2 * x) = ilog2 x + 1)%Z as Hi2.
  { apply ilog2_unique; rewrite !pow2_succ in *; lra. }
  assert (ulp_exp (2 * x) = ulp_exp x + 1)%Z as Hu.
  { unfold ulp_exp. rewrite Hi2. lia. }
  rewrite Hu.
  assert (2 * x / pow2 (ulp_exp x + 1) == x / pow2 (ulp_exp x)) as Hs.
  { rewrite pow2_succ. field. apply Qnot_eq_sym, Qlt_not_eq, pow2_pos. }
  rewrite Hs, pow2_succ. ring.
Qed.

End FloatFacts.

(** ** [SequenceMatcher]: blocks stay in their range, the queue empties *)

Section MatcherBounds.
Context {A : Type} `{Countable A}.
Variable sm : matcher A.

Lemma flm_row_within alo blo bhi i (j2len : gmap nat nat) js :
  forall (new : gmap nat nat) best,
    (alo <= i)%nat ->
    (forall j v, j2len !! j = Some v -> (v + alo <= i /\ v + blo <= j + 1)%nat) ->
    (forall j v, new !! j = Some v -> (v + alo <= i + 1 /\ v + blo <= j + 1)%nat) ->
    block_within alo (S i) blo bhi best ->
    (forall j v, (flm_row blo bhi i j2len js new best).1 !! j = Some v ->
                 (v + alo <= i + 1 /\ v + blo <= j + 1)%nat)
    /\ block_within alo (S i) blo bhi (flm_row blo bhi i j2len js new best).2.
Proof.
  induction js as [|j js IH]; intros new best Hi Hprev Hnew Hbest; [done |].
  cbn [flm_row].
  destruct (Nat.ltb_spec j blo); [by apply IH |].
  destruct (Nat.leb_spec bhi j); [done |].
  destruct best as [[bi bj] bs].
  set (k := S match j with O => O | S j' => default O (j2len !! j') end).
  assert (k + alo <= i + 1 /\ k + blo <= j + 1)%nat as [Hk1 Hk2].
  { unfold k. destruct j as [|j']; [lia |].
    destruct (j2len !! j') as [v|] eqn:Hv; cbn; [| lia].
    destruct (Hprev _ _ Hv). lia. }
  apply IH; [done | done | |].
  - intros j0 v. destruct (decide (j0 = j)) as [-> | Hne].
    + rewrite lookup_insert_eq. intros [= <-]. done.
    + rewrite lookup_insert_ne by done. apply Hnew.
  - destruct (bs <? k)%nat; [| done]. unfold block_within. lia.
Qed.

Lemma flm_rows_within alo blo bhi m :
  forall i (j2len : gmap nat nat) best,
    (alo <= i)%nat ->
    (forall j v, j2len !! j = Some v -> (v + alo <= i /\ v + blo <= j + 1)%nat) ->
    block_within alo i blo bhi best ->
    block_within alo (i + m) blo bhi (flm_rows sm blo bhi (seq i m) j2len best).
Proof.
  induction m as [|m IH]; intros i j2len best Hi Hprev Hbest.
  - by rewrite Nat.add_0_r.
  - cbn [seq flm_rows].
    set (js := match seq_a sm !! i with
               | Some x => default [] (b2j sm !! x)
               | None => []
               end).
    destruct (flm_row_within alo blo bhi i j2len js ∅ best Hi Hprev)
      as [Hnew Hbest'].
    + intros j v. by rewrite lookup_empty.
    + destruct best as [[bi bj] bs]. unfold block_within in *. lia.
    + destruct (flm_row blo bhi i j2len js ∅ best) as [new best'].
      replace (i + S m)%nat with (S i + m)%nat by lia.
      apply IH; [lia | | done].
      intros j v Hv. destruct (Hnew j v Hv). lia.
Qed.

Lemma extend_down_within junk alo ahi blo bhi bi :
  forall bj bs,
    block_within alo ahi blo bhi (bi, bj, bs) ->
    block_within alo ahi blo bhi (extend_down sm junk alo blo bi bj bs).
Proof.
  induction bi as [|bi IH]; intros bj bs Hb; [done |].
  cbn [extend_down]. destruct bj as [|bj]; [done |].
  destruct (Nat.ltb_spec alo (S bi)); cbn [andb]; [| done].
  destruct (Nat.ltb_spec blo (S bj)); cbn [andb]; [| done].
  destruct (extends_at sm junk bi bj); [| done].
  apply IH. unfold block_within in *. lia.
Qed.

Lemma extend_up_within junk alo ahi blo bhi room :
  forall bi bj bs,
    block_within alo ahi blo bhi (bi, bj, bs) ->
    block_within alo ahi blo bhi (extend_up sm junk ahi bhi room bi bj bs).
Proof.
  induction room as [|room IH]; intros bi bj bs Hb; [done |].
  cbn [extend_up].
  destruct (Nat.ltb_spec (bi + bs) ahi); cbn [andb]; [| done].
  destruct (Nat.ltb_spec (bj + bs) bhi); cbn [andb]; [| done].
  destruct (extends_at sm junk (bi + bs) (bj + bs)); [| done].
  apply IH. unfold block_within in *. lia.
Qed.

(** The block found lies inside the ranges searched; in particular the
    subtractions [i - k + 1] and [j - k + 1] of the source never go
    below [alo] and [blo]. *)
Lemma find_longest_match_within alo ahi blo bhi :
  (alo <= ahi)%nat -> (blo <= bhi)%nat ->
  block_within alo ahi blo bhi (find_longest_match sm alo ahi blo bhi).
Proof.
  intros Ha Hb. unfold find_longest_match.
  pose proof (flm_rows_within alo blo bhi (ahi - alo) alo ∅ (alo, blo, O))
    as Hrows.
  replace (alo + (ahi - alo))%nat with ahi in Hrows by lia.
  destruct (flm_rows _ _ _ _ _ _) as [[i0 j0] k0].
  pose proof (extend_down_within false alo ahi blo bhi i0 j0 k0) as Hd1.
  destruct (extend_down _ false _ _ _ _ _) as [[i1 j1] k1].
  pose proof (extend_up_within false alo ahi blo bhi (ahi - (i1 + k1)) i1 j1 k1)
    as Hu1.
  destruct (extend_up _ false _ _ _ _ _ _) as [[i2 j2] k2].
  pose proof (extend_down_within true alo ahi blo bhi i2 j2 k2) as Hd2.
  destruct (extend_down _ true _ _ _ _ _) as [[i3 j3] k3].
  apply extend_up_within, Hd2, Hu1, Hd1, Hrows; [lia | | unfold block_within; lia].
  intros j v. by rewrite lookup_empty.
Qed.

(** Once the fuel covers the cost of the queue, more fuel changes
    nothing: the loop has ended with an empty queue. *)
Lemma blocks_loop_fuel fuel :
  forall fuel' queue blocks,
    queue_ok queue -> (queue_cost queue <= fuel)%nat -> (fuel <= fuel')%nat ->
    blocks_loop fuel' sm queue blocks = blocks_loop fuel sm queue blocks.
Proof.
  induction fuel as [|fuel IH]; intros fuel' queue blocks Hok Hcost Hle.
  - destruct queue as [|[[[alo ahi] blo] bhi] queue].
    + by destruct fuel'.
    + unfold queue_cost in Hcost. cbn in Hcost. lia.
  - destruct fuel' as [|fuel']; [lia |].
    destruct queue as [|[[[alo ahi] blo] bhi] queue]; [done |].
    cbn [blocks_loop].
    apply Forall_cons in Hok as [[Ha Hb] Hok].
    pose proof (find_longest_match_within alo ahi blo bhi Ha Hb) as Hin.
    unfold queue_cost in Hcost. cbn [map sum_list sum_list_with id] in Hcost.
    fold (queue_cost queue) in Hcost.
    destruct (find_longest_match sm alo ahi blo bhi) as [[i j] k].
    unfold block_within in Hin.
    destruct k as [|k]; [apply IH; [done | lia | lia] |].
    apply IH; [| | lia].
    + destruct (Nat.ltb_spec alo i), (Nat.ltb_spec blo j),
        (Nat.ltb_spec (i + S k) ahi), (Nat.ltb_spec (j + S k) bhi);
        cbn [andb]; repeat (apply Forall_cons; split); try done; lia.
    + destruct (Nat.ltb_spec alo i), (Nat.ltb_spec blo j),
        (Nat.ltb_spec (i + S k) ahi), (Nat.ltb_spec (j + S k) bhi);
        cbn [andb]; unfold queue_cost; cbn [map sum_list sum_list_with id];
        fold (queue_cost queue); lia.
Qed.

(** The fuel of [get_matching_blocks] is enough. *)
Lemma get_matching_blocks_fuel (extra : nat) :
  blocks_loop (2 * length (seq_a sm) + 1 + extra) sm
    [(O, length (seq_a sm), O, length (seq_b sm))] []
  = blocks_loop (2 * length (seq_a sm) + 1) sm
      [(O, length (seq_a sm), O, length (seq_b sm))] [].
Proof.
  apply blocks_loop_fuel; [| unfold queue_cost; cbn; lia | lia].
  apply Forall_cons. split; [lia | done].
Qed.

End MatcherBounds.

(** ** [SequenceMatcher] on two equal sequences *)

Section Chain.
Context {A : Type} `{Countable A}.

Lemma positions_from_S (x : A) (b : list A) lo m :
  positions_from x b lo (S m)
  = if decide (b !! lo = Some x)
    then lo :: positions_from x b (S lo) m
    else positions_from x b (S lo) m.
Proof. unfold positions_from. simpl. by rewrite filter_cons. Qed.

Lemma positions_from_snoc (x y : A) (b : list A) lo m :
  (lo + m <= length b)%nat ->
  positions_from x (b ++ [y]) lo m = positions_from x b lo m.
Proof.
  revert lo. induction m as [|m IH]; intros lo Hlen; [done |].
  rewrite !positions_from_S, IH by lia.
  by rewrite lookup_app_l by lia.
Qed.

Lemma positions_snoc (x y : A) (b : list A) :
  positions x (b ++ [y])
  = positions x b ++ (if decide (x = y) then [length b] else []).
Proof.
  unfold positions, positions_from. rewrite length_app. simpl.
  rewrite seq_app, filter_app. f_equal.
  - apply (positions_from_snoc x y b 0 (length b)). lia.
  - simpl. rewrite filter_cons, filter_nil.
    rewrite lookup_app_r by lia. rewrite Nat.sub_diag. simpl.
    destruct (decide (x = y)) as [-> | Hne].
    + by rewrite decide_True.
    + rewrite decide_False; [done | congruence].
Qed.

Lemma b2j_all_snoc (b : list A) (y : A) :
  b2j_all (b ++ [y])
  = <[y := default [] (b2j_all b !! y) ++ [length b]]> (b2j_all b).
Proof.
  unfold b2j_all. rewrite imap_app, foldl_app. simpl.
  by rewrite Nat.add_0_r.
Qed.

Lemma b2j_all_lookup (b : list A) (x : A) :
  b2j_all b !! x
  = match positions x b with [] => None | js => Some js end.
Proof.
  induction b as [|y b IH] using rev_ind; [done |].
  rewrite b2j_all_snoc, positions_snoc.
  destruct (decide (x = y)) as [-> | Hne].
  - rewrite lookup_insert_eq, IH.
    destruct (positions y b); reflexivity.
  - rewrite lookup_insert_ne by done. by rewrite app_nil_r.
Qed.

(** What [b2j] holds for a key is the list of its positions in [b]. *)
Lemma chain_b_lookup (b : list A) (x : A) (js : list nat) :
  chain_b b !! x = Some js -> js = positions x b.
Proof.
  unfold chain_b. intros Hlook.
  assert (b2j_all b !! x = Some js) as Hall.
  { destruct (200 <=? length b)%nat; [| done].
    by apply map_lookup_filter_Some in Hlook as [? _]. }
  rewrite b2j_all_lookup in Hall. by destruct (positions x b); simplify_eq.
Qed.

End Chain.

Section SameSequence.
Context {A : Type} `{Countable A}.
Variable a : list A.
Local Abbreviation sm := (SequenceMatcher a a).
Local Abbreviation n := (length a).

Lemma live_key i :
  live sm i = true ->
  exists x, a !! i = Some x /\ b2j sm !! x = Some (positions x a).
Proof.
  unfold live. cbn [seq_a SequenceMatcher b2j].
  destruct (a !! i) as [x|]; [| done].
  intros [js Hjs]%bool_decide_eq_true. exists x. split; [done |].
  by rewrite Hjs, (chain_b_lookup _ _ _ Hjs).
Qed.

Lemma live_same i j : a !! i = a !! j -> live sm i = live sm j.
Proof. unfold live. cbn [seq_a SequenceMatcher]. by intros ->. Qed.

Lemma run_le i : (run sm i <= S i)%nat.
Proof.
  induction i as [|i IH]; simpl; destruct (live sm _); lia.
Qed.

Lemma common_le_run i j :
  (common sm i j <= run sm i)%nat /\ (common sm i j <= run sm j)%nat.
Proof.
  revert j. induction i as [|i IH]; intros j.
  - cbn [common run]. destruct (live sm 0) eqn:Hl; cbn [andb]; [| lia].
    case_bool_decide as Heq; [| lia].
    cbn [seq_a seq_b SequenceMatcher] in Heq.
    pose proof (live_same _ _ Heq) as Hlj. rewrite Hl in Hlj.
    split; [lia |]. destruct j; cbn [run]; rewrite <- Hlj; lia.
  - cbn [common run]. destruct (live sm (S i)) eqn:Hl; cbn [andb]; [| lia].
    case_bool_decide as Heq; [| lia].
    cbn [seq_a seq_b SequenceMatcher] in Heq.
    pose proof (live_same _ _ Heq) as Hlj. rewrite Hl in Hlj.
    destruct j as [|j].
    + split; [lia |]. cbn [run]. rewrite <- Hlj. lia.
    + destruct (IH j). split; [lia |]. cbn [run]. rewrite <- Hlj. lia.
Qed.

Lemma common_diag i : common sm i i = run sm i.
Proof.
  induction i as [|i IH]; cbn [common run];
    destruct (live sm _); cbn [andb]; try done;
    rewrite bool_decide_eq_true_2 by done; congruence.
Qed.

Lemma common_other i j x :
  a !! i = Some x -> a !! j <> Some x -> common sm i j = O.
Proof.
  intros Hi Hj. destruct i; cbn [common];
    rewrite bool_decide_eq_false_2, andb_false_r; try done;
    cbn [seq_a seq_b SequenceMatcher]; congruence.
Qed.

Lemma common_dead i j : live sm i = false -> common sm i j = O.
Proof. intros Hl. destruct i; cbn [common]; by rewrite Hl. Qed.

Lemma run_dead i : live sm i = false -> run sm i = O.
Proof. intros Hl. destruct i; cbn [run]; by rewrite Hl. Qed.

(** The value the inner loop stores for a matching pair. *)
Lemma common_step i j x (j2len : gmap nat nat) :
  a !! i = Some x -> a !! j = Some x -> live sm i = true ->
  (forall j', default O (j2len !! j')
              = match i with O => O | S i' => common sm i' j' end) ->
  S (match j with O => O | S j' => default O (j2len !! j') end)
  = common sm i j.
Proof.
  intros Hi Hj Hl Hprev.
  destruct i as [|i], j as [|j]; cbn [common]; rewrite Hl; cbn [andb];
    rewrite bool_decide_eq_true_2
      by (cbn [seq_a seq_b SequenceMatcher]; congruence);
    try done.
  - by rewrite Hprev.
  - by rewrite Hprev.
Qed.


(** The inner loop on row [i], started at position [lim] of [b] with
    the best block on the diagonal, ends with the best block on the
    diagonal and with row [i] of the table of common runs. *)
Lemma flm_row_diag i x m :
  a !! i = Some x -> live sm i = true ->
  forall lim (j2len new : gmap nat nat) d s,
    (lim + m = n)%nat ->
    (forall j, default O (j2len !! j)
               = match i with O => O | S i' => common sm i' j end) ->
    (forall j, default O (new !! j)
               = if decide (j < lim)%nat then common sm i j else O) ->
    (d + s <= S i)%nat ->
    (forall i', (i' < i)%nat -> (run sm i' <= s)%nat) ->
    ((i < lim)%nat -> (run sm i <= s)%nat) ->
    exists new' d' s',
      flm_row O n i j2len (positions_from x a lim m) new (d, d, s)
      = (new', (d', d', s'))
      /\ (forall j, default O (new' !! j)
                    = if decide (j < n)%nat then common sm i j else O)
      /\ (d' + s' <= S i)%nat
      /\ (forall i', (i' <= i)%nat -> (run sm i' <= s')%nat).
Proof.
  intros Hi Hl. induction m as [|m IH];
    intros lim j2len new d s Hlen Hprev Hnew Hsum Hruns Hrun.
  - exists new, d, s. rewrite Nat.add_0_r in Hlen. subst lim.
    split; [done |]. split; [done |]. split; [done |].
    intros i' Hi'. destruct (decide (i' = i)) as [-> | Hne].
    + apply Hrun. by apply lookup_lt_Some in Hi.
    + apply Hruns. lia.
  - rewrite positions_from_S. destruct (decide (a !! lim = Some x)) as [Hj | Hj].
    + cbn [flm_row].
      replace (lim <? 0)%nat with false by (symmetry; apply Nat.ltb_ge; lia).
      replace (n <=? lim)%nat with false by (symmetry; apply Nat.leb_gt; lia).
      rewrite (common_step i lim x j2len Hi Hj Hl Hprev).
      pose proof (common_le_run i lim) as [Hci Hcl].
      destruct (s <? common sm i lim)%nat eqn:Hcmp.
      * apply Nat.ltb_lt in Hcmp.
        assert (lim = i) as ->.
        { destruct (Nat.lt_trichotomy lim i) as [Hlt | [Heq | Hgt]]; [| done |].
          - specialize (Hruns lim Hlt). lia.
          - specialize (Hrun Hgt). lia. }
        rewrite common_diag in *. pose proof (run_le i) as Hri.
        apply IH; [lia | done | | lia | intros; specialize (Hruns i'); lia | lia].
        intros j. destruct (decide (j = i)) as [-> | Hne].
        -- rewrite lookup_insert_eq, decide_True by lia.
           by rewrite common_diag.
        -- rewrite lookup_insert_ne by done. rewrite Hnew.
           destruct (decide (j < i)%nat), (decide (j < S i)%nat); try done; lia.
      * apply Nat.ltb_ge in Hcmp.
        apply IH; [lia | done | | done | done |].
        -- intros j. destruct (decide (j = lim)) as [-> | Hne].
           ++ by rewrite lookup_insert_eq, decide_True by lia.
           ++ rewrite lookup_insert_ne by done. rewrite Hnew.
              destruct (decide (j < lim)%nat), (decide (j < S lim)%nat);
                try done; lia.
        -- intros Hlt. destruct (decide (i = lim)) as [-> | Hne].
           ++ rewrite common_diag in Hcmp. done.
           ++ apply Hrun. lia.
    + apply IH; [lia | done | | done | done |].
      * intros j. rewrite Hnew.
        destruct (decide (j < lim)%nat), (decide (j < S lim)%nat);
          try done; try lia.
        assert (j = lim) as -> by lia.
        symmetry. by apply (common_other i lim x).
      * intros Hlt. apply Hrun.
        destruct (decide (i = lim)) as [-> | Hne]; [congruence | lia].
Qed.

Lemma common_out_of_range i j : (n <= j)%nat -> (i < n)%nat -> common sm i j = O.
Proof.
  intros Hj Hi. apply lookup_lt_is_Some_2 in Hi as [x Hx].
  apply (common_other i j x Hx). rewrite lookup_ge_None_2 by done. done.
Qed.

(** The outer loop keeps the best block on the diagonal. *)
Lemma flm_rows_diag m :
  forall i (j2len : gmap nat nat) d s,
    (i + m = n)%nat ->
    (forall j, default O (j2len !! j)
               = match i with O => O | S i' => common sm i' j end) ->
    (d + s <= i)%nat ->
    (forall i', (i' < i)%nat -> (run sm i' <= s)%nat) ->
    exists d' s',
      flm_rows sm O n (seq i m) j2len (d, d, s) = (d', d', s')
      /\ (d' + s' <= n)%nat.
Proof.
  induction m as [|m IH]; intros i j2len d s Hlen Hprev Hsum Hruns.
  - exists d, s. split; [done | lia].
  - cbn [seq flm_rows]. cbn [seq_a SequenceMatcher].
    destruct (lookup_lt_is_Some_2 a i) as [x Hx]; [lia |].
    rewrite Hx. destruct (live sm i) eqn:Hl.
    + destruct (live_key i Hl) as (x' & Hx' & Hkey).
      assert (x' = x) as -> by congruence. rewrite Hkey. cbn [default from_option id].
      destruct (flm_row_diag i x n Hx Hl O j2len ∅ d s)
        as (new' & d' & s' & Hrow & Hnew' & Hsum' & Hruns');
        [lia | done | | lia | done | lia |].
      { intros j. rewrite lookup_empty. destruct (decide (j < 0)%nat); [lia | done]. }
      unfold positions. rewrite Hrow.
      apply IH; [lia | | lia | intros; apply Hruns'; lia].
      intros j. rewrite Hnew'. destruct (decide (j < n)%nat); [done |].
      symmetry. apply common_out_of_range; lia.
    + assert (b2j sm !! x = None) as Hnone.
      { unfold live in Hl. cbn [seq_a SequenceMatcher] in Hl. rewrite Hx in Hl.
        apply bool_decide_eq_false in Hl. by apply eq_None_not_Some. }
      rewrite Hnone. cbn [default from_option id flm_row].
      apply IH; [lia | | lia |].
      * intros j. rewrite lookup_empty. symmetry. by apply common_dead.
      * intros i' Hi'. destruct (decide (i' = i)) as [-> | Hne].
        -- rewrite run_dead by done. lia.
        -- apply Hruns. lia.
Qed.

Lemma extends_at_diag i : (i < n)%nat -> extends_at sm false i i = true.
Proof.
  intros Hi. unfold extends_at. cbn [seq_a seq_b SequenceMatcher].
  destruct (lookup_lt_is_Some_2 a i Hi) as [x ->].
  unfold isbjunk. cbn [bjunk SequenceMatcher].
  rewrite bool_decide_eq_false_2 by set_solver.
  by rewrite bool_decide_eq_true_2.
Qed.

Lemma extend_down_diag d s :
  (d <= n)%nat -> extend_down sm false O O d d s = (O, O, (s + d)%nat).
Proof.
  revert s. induction d as [|d IH]; intros s Hd.
  - simpl. by rewrite Nat.add_0_r.
  - cbn [extend_down]. rewrite extends_at_diag by lia.
    cbn [andb Nat.ltb Nat.leb]. rewrite IH by lia. f_equal. lia.
Qed.

Lemma extend_up_diag room s :
  (s + room = n)%nat -> extend_up sm false n n room O O s = (O, O, n).
Proof.
  revert s. induction room as [|room IH]; intros s Hs.
  - simpl. by rewrite Nat.add_0_r in Hs; subst.
  - cbn [extend_up]. cbn [Nat.add].
    replace (s <? n)%nat with true by (symmetry; apply Nat.ltb_lt; lia).
    rewrite extends_at_diag by lia. cbn [andb]. apply IH. lia.
Qed.

(** Matching a sequence against itself finds the whole sequence. *)
Lemma find_longest_match_self : find_longest_match sm O n O n = (O, O, n).
Proof.
  unfold find_longest_match. rewrite Nat.sub_0_r.
  destruct (flm_rows_diag n O ∅ O O) as (d & s & -> & Hsum);
    [lia | by intros j; rewrite lookup_empty | lia | intros; lia |].
  rewrite extend_down_diag by lia.
  rewrite extend_up_diag by lia.
  cbn [extend_down]. by rewrite Nat.add_0_l, Nat.sub_diag.
Qed.

End SameSequence.

(** ** Rounded quantities of the pipeline *)

Section RoundedFacts.
Local Open Scope Q_scope.

Lemma fl_one : fl 1 == 1.
Proof. vm_compute. reflexivity. Qed.

Lemma fl_unit_interval q : 0 <= q <= 1 -> 0 <= fl q <= 1.
Proof.
  intros [Hq0 Hq1]. split; [by apply fl_nonneg |].
  rewrite <- fl_one. by apply fl_mono.
Qed.

Lemma int_truediv_unit_interval (a b : Z) :
  (0 <= a <= b)%Z -> (0 < b)%Z -> 0 <= int_truediv a b <= 1.
Proof.
  intros [Ha Hab] Hb. apply fl_unit_interval.
  assert (0 < inject_Z b) by (change 0 with (inject_Z 0); by rewrite <- Zlt_Qlt).
  split.
  - apply Qle_shift_div_l; [done |]. rewrite Qmult_0_l.
    change 0 with (inject_Z 0). by rewrite <- Zle_Qle.
  - apply Qle_shift_div_r; [done |]. rewrite Qmult_1_l. by rewrite <- Zle_Qle.
Qed.

Lemma py_round_unit_interval x : 0 <= x <= 1 -> 0 <= py_round x 3 <= 1.
Proof.
  intros [Hx0 Hx1]. unfold py_round.
  change (inject_Z (10 ^ 3)) with 1000.
  assert (0 <= rne (x * 1000) <= 1000)%Z as [Hk0 Hk1].
  { split; [apply rne_ge_Z | apply rne_le_Z].
    - change (inject_Z 0) with 0. lra.
    - change (inject_Z 1000) with 1000. lra. }
  apply fl_unit_interval.
  rewrite Zle_Qle in Hk0, Hk1.
  change (inject_Z 0) with 0 in Hk0. change (inject_Z 1000) with 1000 in Hk1.
  split.
  - apply Qle_shift_div_l; [reflexivity | lra].
  - apply Qle_shift_div_r; [reflexivity | lra].
Qed.

Lemma py_round_one x : x == 1 -> py_round x 3 == 1.
Proof.
  intros Hx. unfold py_round. change (inject_Z (10 ^ 3)) with (inject_Z 1000).
  assert (rne (x * inject_Z 1000) = 1000%Z) as ->.
  { rewrite <- (rne_Z 1000). apply rne_comp. rewrite Hx. apply Qmult_1_l. }
  vm_compute. reflexivity.
Qed.

(** [2.0 * m / (m + m)] is [1.0], whatever the size of [m]. *)
Lemma calculate_ratio_all_matched (m : nat) : _calculate_ratio m (m + m) == 1.
Proof.
  destruct m as [|m]; [vm_compute; reflexivity |].
  cbn [Nat.add _calculate_ratio]. unfold fdiv, fmul, float_of_int.
  set (x := inject_Z (Z.of_nat (S m))).
  assert (1 <= x) as Hx.
  { unfold x. change 1 with (inject_Z 1). rewrite <- Zle_Qle. lia. }
  assert (inject_Z (Z.of_nat (S (m + S m))) == 2 * x) as Hden.
  { unfold x. change 2 with (inject_Z 2). rewrite <- inject_Z_mult.
    apply inject_Z_injective. lia. }
  assert (1 <= fl x) as Hflx.
  { rewrite <- fl_one. apply fl_mono; lra. }
  assert (fl (float_lit 2 1 * fl x) == 2 * fl x) as Hnum.
  { rewrite (fl_comp (float_lit 2 1 * fl x) (2 * fl x)).
    - rewrite fl_double by done. rewrite fl_idempotent; [reflexivity | lra].
    - apply Qmult_le_0_compat; [by vm_compute | lra].
    - assert (float_lit 2 1 == 2) as -> by (vm_compute; reflexivity).
      reflexivity. }
  assert (fl (inject_Z (Z.of_nat (S (m + S m)))) == 2 * fl x) as Hden'.
  { rewrite (fl_comp _ (2 * x)); [by apply fl_double | | done].
    change 0 with (inject_Z 0). rewrite <- Zle_Qle. lia. }
  transitivity (fl 1); [| apply fl_one]. symmetry. apply fl_comp; [lra |].
  rewrite Hnum, Hden'. field. lra.
Qed.

End RoundedFacts.

(** ** Rounding errors *)

Section RoundingError.
Local Open Scope Q_scope.

Lemma rne_error q : q - (1 # 2) <= inject_Z (rne q) <= q + (1 # 2).
Proof.
  unfold rne. pose proof (Qfloor_le q) as Hlo. pose proof (Qlt_floor q) as Hhi.
  rewrite inject_Z_plus in Hhi. change (inject_Z 1) with 1 in Hhi.
  destruct (Qcompare_spec (q - inject_Z (Qfloor q)) (1 # 2)) as [He | Hl | Hg];
    [destruct (Z.even (Qfloor q)) | |];
    rewrite ?inject_Z_plus; change (inject_Z 1) with 1; lra.
Qed.

Lemma rne_near q z :
  inject_Z z - (1 # 2) < q -> q < inject_Z z + (1 # 2) -> rne q = z.
Proof.
  intros Hlo Hhi. destruct (rne_error q) as [Hr1 Hr2].
  assert (inject_Z z - 1 < inject_Z (rne q)) as H1 by lra.
  assert (inject_Z (rne q) < inject_Z z + 1) as H2 by lra.
  change 1 with (inject_Z 1) in H1, H2.
  unfold Qminus in H1. rewrite <- inject_Z_opp, <- inject_Z_plus in H1.
  rewrite <- inject_Z_plus in H2.
  rewrite <- Zlt_Qlt in H1, H2. lia.
Qed.

(** On the unit interval binary64 rounding moves a number by at most
    [2^-53]. *)
Lemma fl_error_unit q :
  0 <= q <= 1 -> q - pow2 (-53) <= fl q <= q + pow2 (-53).
Proof.
  intros [Hq0 Hq1]. pose proof (pow2_pos (-53)) as Hp.
  destruct (Qlt_le_dec 0 q) as [Hpos | Hle].
  2:{ rewrite fl_of_zero by lra. lra. }
  rewrite fl_of_pos by done. unfold fl_pos.
  destruct (ilog2_spec q Hpos) as [Hlo _].
  assert (ulp_exp q <= -52)%Z as Hu.
  { assert (ilog2 q < 1)%Z; [| unfold ulp_exp; lia].
    apply pow2_lt_inv. eapply Qle_lt_trans; [exact Hlo |].
    eapply Qle_lt_trans; [exact Hq1 |]. by vm_compute. }
  set (uexp := ulp_exp q) in *.
  pose proof (pow2_pos uexp) as Hpu.
  assert (pow2 uexp <= 2 * pow2 (-53)) as Hule.
  { rewrite <- pow2_succ. by apply pow2_le. }
  destruct (rne_error (q / pow2 uexp)) as [Hr1 Hr2].
  assert (q == q / pow2 uexp * pow2 uexp) as Hq by (field; lra).
  set (s := q / pow2 uexp) in *. set (r := inject_Z (rne s)) in *.
  split.
  - apply Qle_trans with ((s - (1 # 2)) * pow2 uexp).
    + rewrite Hq at 1. nra.
    + apply Qmult_le_compat_r; lra.
  - apply Qle_trans with ((s + (1 # 2)) * pow2 uexp).
    + apply Qmult_le_compat_r; lra.
    + rewrite Hq at 1. nra.
Qed.

(** A rate rounded to three decimals reads back as the same number of
    thousandths. *)
Lemma thousandths_py_round x :
  0 <= x <= 1 -> thousandths (py_round x 3) = thousandths x.
Proof.
  intros Hx. unfold thousandths at 1. unfold py_round.
  change (inject_Z (10 ^ 3)) with 1000. fold (thousandths x).
  assert (0 <= thousandths x <= 1000)%Z as [Hk0 Hk1].
  { unfold thousandths. split; [apply rne_ge_Z | apply rne_le_Z].
    - change (inject_Z 0) with 0. lra.
    - change (inject_Z 1000) with 1000. lra. }
  rewrite Zle_Qle in Hk0, Hk1.
  change (inject_Z 0) with 0 in Hk0. change (inject_Z 1000) with 1000 in Hk1.
  set (kq := inject_Z (thousandths x)) in *.
  destruct (fl_error_unit (kq / 1000)) as [He1 He2].
  { split; [apply Qle_shift_div_l | apply Qle_shift_div_r]; lra. }
  assert (pow2 (-53) < 1 # 4000) as Hsmall by (by vm_compute).
  assert (kq / 1000 * 1000 == kq) as Hk by (field; lra).
  set (y := kq / 1000) in *. set (F := fl y) in *.
  apply rne_near; fold kq; lra.
Qed.

(** The two complementary rates of a batch, read in thousandths, add
    up to 1000 give or take one. *)
Lemma complementary_thousandths (G N : Z) :
  (0 <= G <= N)%Z -> (0 < N)%Z ->
  (999 <= thousandths (int_truediv G N) + thousandths (int_truediv (N - G) N)
   <= 1001)%Z.
Proof.
  intros HG HN.
  assert (0 < inject_Z N) as HNq.
  { change 0 with (inject_Z 0). rewrite <- Zlt_Qlt. lia. }
  assert (forall a, (0 <= a <= N)%Z -> 0 <= inject_Z a / inject_Z N <= 1)
    as Hunit.
  { intros a [Ha0 Ha1]. rewrite Zle_Qle in Ha0, Ha1.
    change (inject_Z 0) with 0 in Ha0.
    split; [apply Qle_shift_div_l | apply Qle_shift_div_r]; lra. }
  destruct (fl_error_unit _ (Hunit G HG)) as [Hx1 Hx2].
  destruct (fl_error_unit _ (Hunit (N - G)%Z ltac:(lia))) as [Hy1 Hy2].
  assert (inject_Z G / inject_Z N + inject_Z (N - G) / inject_Z N == 1) as Hsum.
  { unfold Z.sub. rewrite inject_Z_plus, inject_Z_opp. field. lra. }
  unfold thousandths, int_truediv.
  set (x := fl (inject_Z G / inject_Z N)) in *.
  set (y := fl (inject_Z (N - G) / inject_Z N)) in *.
  set (gq := inject_Z G / inject_Z N) in *.
  set (hq := inject_Z (N - G) / inject_Z N) in *.
  destruct (rne_error (x * 1000)) as [Hkx1 Hkx2].
  destruct (rne_error (y * 1000)) as [Hky1 Hky2].
  assert (pow2 (-53) < 1 # 4000) as Hsmall by (by vm_compute).
  assert (inject_Z 998 < inject_Z (rne (x * 1000) + rne (y * 1000))) as Hlo.
  { rewrite inject_Z_plus. change (inject_Z 998) with 998. lra. }
  assert (inject_Z (rne (x * 1000) + rne (y * 1000)) < inject_Z 1002) as Hhi.
  { rewrite inject_Z_plus. change (inject_Z 1002) with 1002. lra. }
  rewrite <- Zlt_Qlt in Hlo, Hhi. lia.
Qed.

End RoundingError.

(** ** Groundedness and metrics *)

Section Grounding.
Local Open Scope Q_scope.

Lemma Qlt_bool_iff x y : Qlt_bool x y = true <-> x < y.
Proof.
  unfold Qlt_bool. rewrite Qlt_alt. destruct (x ?= y); split; congruence.
Qed.

(** The binary64 number that follows [0.15]. *)
Lemma above_float_0_15 :
  float_lit 15 100 < 5404319552844596 # 36028797018963968
  /\ fl (5404319552844596 # 36028797018963968)
     == 5404319552844596 # 36028797018963968.
Proof.
  split; [by vm_compute |].
  apply (fl_representable _ 5404319552844596 (-55)); [lia | lia |].
  by vm_compute.
Qed.

(** Up to [2^50] tokens the comparison of the two binary64 numbers
    agrees with the comparison of the exact ratio with [15/100]. *)
Lemma grounded_threshold (k d : Z) :
  (0 <= k)%Z -> (1 <= d <= 2 ^ 50)%Z ->
  Qlt_bool (float_lit 15 100) (int_truediv k d) = true
  <-> 15 # 100 < inject_Z k / inject_Z d.
Proof.
  intros Hk [Hd1 Hd2]. rewrite Qlt_bool_iff.
  assert (0 < inject_Z d) as Hdpos.
  { change 0 with (inject_Z 0). rewrite <- Zlt_Qlt. lia. }
  assert (0 <= inject_Z k / inject_Z d) as Hratio.
  { apply Qle_shift_div_l; [done |]. rewrite Qmult_0_l.
    change 0 with (inject_Z 0). by rewrite <- Zle_Qle. }
  unfold int_truediv, float_lit. split.
  - intros Hlt. apply Qnot_le_lt. intros Hle.
    apply (fl_mono _ _ Hratio) in Hle. lra.
  - intros Hlt. destruct above_float_0_15 as [Hnext Hfix].
    eapply Qlt_le_trans; [exact Hnext |]. rewrite <- Hfix.
    apply fl_mono; [done |].
    apply Qle_shift_div_l; [done |].
    apply (Qmult_lt_r _ _ (inject_Z d) Hdpos) in Hlt.
    assert (inject_Z k / inject_Z d * inject_Z d == inject_Z k) as Hcancel
      by (field; lra).
    rewrite Hcancel in Hlt.
    unfold Qlt, Qle, Qmult in *. cbn in *. lia.
Qed.

End Grounding.

Section Metrics.
Context {ops : StrOps}.
Local Open Scope Q_scope.

Lemma sum_bool_range {X} (flag : X -> bool) (xs : list X) :
  (0 <= sum_bool flag xs <= Z.of_nat (length xs))%Z.
Proof.
  unfold sum_bool.
  pose proof (length_filter (fun x => flag x = true) xs). lia.
Qed.

Lemma sum_bool_negb {X} (flag : X -> bool) (xs : list X) :
  sum_bool (fun x => negb (flag x)) xs
  = (Z.of_nat (length xs) - sum_bool flag xs)%Z.
Proof.
  unfold sum_bool. induction xs as [|x xs IH]; [done |].
  rewrite !filter_cons. destruct (flag x) eqn:Hx; cbn [negb];
    repeat case_decide; try done; cbn [length]; lia.
Qed.

Lemma py_truediv_nonzero (a b : Z) :
  b <> 0%Z -> py_truediv a b = Ret (int_truediv a b).
Proof.
  intros Hb. unfold py_truediv. by destruct (Z.eqb_spec b 0).
Qed.

(** C1, as the code has it.  [is_grounded_in_context] lower-cases the
    response and the joined context and splits both on whitespace.  It
    returns true exactly when the number of distinct response tokens
    that are also context tokens, divided by the number of response
    tokens counted with their repetitions (at least 1), is strictly
    greater than 0.15.  The denominator comes from the response, never
    from the context.  (The quotient is a binary64 number; for a
    response of at most [2^50] tokens the comparison is the exact
    one.) *)
Theorem is_grounded_in_context_ratio (response : str)
    (context_list : list str) :
  (Z.of_nat (length (split (lower response))) <= 2 ^ 50)%Z ->
  is_grounded_in_context response context_list = true
  <-> 15 # 100
      < inject_Z (Z.of_nat (size (shared_tokens response context_list)))
        / inject_Z (Z.max 1 (Z.of_nat (length (split (lower response))))).
Proof.
  intros Hlen. unfold is_grounded_in_context.
  fold (shared_tokens response context_list).
  apply grounded_threshold; lia.
Qed.

(** C9.  On a non-empty batch [compute_metrics] returns three values
    between 0 and 1; on the empty batch it raises
    [ZeroDivisionError]. *)
Theorem compute_metrics_range (results : list EvaluationResult) :
  (results <> [] ->
   exists m,
     compute_metrics results = Ret m
     /\ 0 <= accuracy m <= 1
     /\ 0 <= groundedness m <= 1
     /\ 0 <= hallucination_rate m <= 1)
  /\ (exists e,
        compute_metrics [] = Raise e /\ exn_cls e = ZeroDivisionError).
Proof.
  split; [| eexists; split; reflexivity].
  intros Hne. unfold compute_metrics.
  assert (0 < Z.of_nat (length results))%Z as Htotal
    by (destruct results; [done | cbn [length]; lia]).
  rewrite !py_truediv_nonzero by lia.
  eexists. split; [reflexivity |]. cbn [accuracy groundedness hallucination_rate].
  repeat split;
    apply py_round_unit_interval, int_truediv_unit_interval;
    try apply sum_bool_range; done.
Qed.

(** C2, as the code has it.  For a batch of [N > 0] results of which [C]
    are correct and [G] are grounded in their own expected answer,
    [compute_metrics] returns [round(C/N, 3)], [round(G/N, 3)] and
    [round((N-G)/N, 3)]: every result is counted once, as grounded or
    as hallucinated, so the two unrounded rates add up to 1.  The two
    rounded rates need not: read in thousandths they add up to 999,
    1000 or 1001. *)
Theorem compute_metrics_rates (results : list EvaluationResult) :
  results <> [] ->
  let N := Z.of_nat (length results) in
  let C := sum_bool is_correct results in
  let G := sum_bool
             (fun r => is_grounded_in_context (response r) [expected_answer r])
             results in
  compute_metrics results
  = Ret {| accuracy := py_round (int_truediv C N) 3;
           groundedness := py_round (int_truediv G N) 3;
           hallucination_rate := py_round (int_truediv (N - G) N) 3 |}
  /\ (0 <= C <= N)%Z /\ (0 <= G <= N)%Z
  /\ inject_Z G / inject_Z N + inject_Z (N - G) / inject_Z N == 1
  /\ (999 <= thousandths (py_round (int_truediv G N) 3)
             + thousandths (py_round (int_truediv (N - G) N) 3) <= 1001)%Z.
Proof.
  intros Hne N C G.
  assert (0 < N)%Z as Htotal
    by (subst N; destruct results; [done | cbn [length]; lia]).
  pose proof (sum_bool_range
                (fun r => is_grounded_in_context (response r) [expected_answer r])
                results) as HG.
  fold G N in HG.
  split; [| split; [apply sum_bool_range | split; [done | split]]].
  - unfold compute_metrics. rewrite !py_truediv_nonzero by (fold N; lia).
    by rewrite sum_bool_negb.
  - assert (0 < inject_Z N) as HN.
    { change 0 with (inject_Z 0). rewrite <- Zlt_Qlt. lia. }
    unfold Z.sub. rewrite inject_Z_plus, inject_Z_opp. field. lra.
  - rewrite !thousandths_py_round
      by (apply int_truediv_unit_interval; lia).
    by apply complementary_thousandths.
Qed.

End Metrics.

Lemma is_grounded_in_context_ratio_witness :
  is_grounded_in_context (ops := Latin1)
    (u "El EBITDA Ajustado fue 120") [u "EBITDA ajustado: 120 millones"] = true.
Proof.
  apply is_grounded_in_context_ratio; [by vm_compute | by vm_compute].
Defined.

Lemma compute_metrics_range_witness :
  exists m,
    compute_metrics (ops := Latin1)
      [{| question := u "q"; response := u "120"; expected_answer := u "120";
          is_correct := true; reasoning := u "" |}] = Ret m
    /\ (0 <= accuracy m <= 1)%Q
    /\ (0 <= groundedness m <= 1)%Q
    /\ (0 <= hallucination_rate m <= 1)%Q.
Proof.
  apply (compute_metrics_range (ops := Latin1)). discriminate.
Defined.

Lemma compute_metrics_rates_witness :
  compute_metrics (ops := Latin1)
    [{| question := u "q"; response := u "120"; expected_answer := u "120";
        is_correct := true; reasoning := u "" |};
     {| question := u "q"; response := u "no"; expected_answer := u "95";
        is_correct := false; reasoning := u "" |};
     {| question := u "q"; response := u "tal vez"; expected_answer := u "7";
        is_correct := false; reasoning := u "" |}]
  = Ret {| accuracy := py_round (int_truediv 1 3) 3;
           groundedness := py_round (int_truediv 1 3) 3;
           hallucination_rate := py_round (int_truediv (3 - 1) 3) 3 |}.
Proof.
  refine (proj1 (compute_metrics_rates (ops := Latin1) _ _)). discriminate.
Defined.

(** C1, as the specification states it, fails: the response below has
    eight tokens, two of them distinct, one of them in the context.  The
    code divides by eight and answers false; dividing by the number of
    distinct tokens gives one half and the answer true. *)
Lemma grounded_denominator_counts_repetitions :
  is_grounded_in_context (ops := Latin1)
    (u "ebitda ebitda ebitda ebitda ebitda ebitda ebitda ajustado")
    [u "EBITDA"] = false
  /\ grounded_by_distinct_ratio (ops := Latin1)
       (u "ebitda ebitda ebitda ebitda ebitda ebitda ebitda ajustado")
       [u "EBITDA"] = true.
Proof. vm_compute. auto. Qed.

(** C2, as the specification states it, fails: with 1 grounded result
    out of 80 the rates are [round(0.0125, 3) = 0.013] and
    [round(0.9875, 3) = 0.988]; their sum is not [1.0], neither as a
    binary64 sum nor exactly. *)
Lemma rounded_rates_do_not_add_up :
  match compute_metrics (ops := Latin1) batch_of_80 with
  | Ret m =>
    Qeq_bool (groundedness m) (float_lit 13 1000) = true
    /\ Qeq_bool (hallucination_rate m) (float_lit 988 1000) = true
    /\ Qeq_bool (fadd (groundedness m) (hallucination_rate m)) (float_lit 1 1)
       = false
    /\ Qeq_bool (groundedness m + hallucination_rate m) 1 = false
  | Raise _ => False
  end.
Proof. vm_compute. auto. Qed.

(** ** The literal similarity of two equal sequences *)

Section RatioOfEqual.
Context {A : Type} `{Countable A}.
Variable a : list A.

Lemma get_matching_blocks_self :
  get_matching_blocks (SequenceMatcher a a)
  = match length a with
    | O => [(O, O, O)]
    | S _ => [(O, O, length a); (length a, length a, O)]
    end.
Proof.
  unfold get_matching_blocks. cbn [seq_a seq_b SequenceMatcher].
  replace (2 * length a + 1)%nat with (S (2 * length a)) by lia.
  cbn [blocks_loop]. rewrite find_longest_match_self.
  destruct (length a) as [|len] eqn:Hlen.
  - by destruct (2 * 0)%nat.
  - rewrite Nat.ltb_irrefl. cbn [andb Nat.add].
    rewrite Nat.ltb_irrefl. cbn [andb app].
    assert (forall fuel (blocks : list Match),
              blocks_loop fuel (SequenceMatcher a a) [] blocks = blocks)
      as Hdone by (by intros [|fuel] blocks).
    rewrite Hdone. by vm_compute.
Qed.

Lemma ratio_self : (ratio (SequenceMatcher a a) == 1)%Q.
Proof.
  unfold ratio. rewrite get_matching_blocks_self.
  cbn [seq_a seq_b SequenceMatcher].
  assert (sum_list
            (map (fun m : Match => m.2)
               match length a with
               | O => [(O, O, O)]
               | S _ => [(O, O, length a); (length a, length a, O)]
               end) = length a) as ->.
  { destruct (length a); cbn; lia. }
  apply calculate_ratio_all_matched.
Qed.

End RatioOfEqual.

(** ** The evaluator: classification *)

Section EvaluatorClassification.
Context {ops : StrOps} {svc : Services}.
Local Open Scope Q_scope.

Lemma text_similarity_equal_up_to_case (r e : str) :
  lower r = lower e ->
  py_round (ratio (SequenceMatcher (lower r) (lower e))) 3 == 1.
Proof. intros ->. apply py_round_one, ratio_self. Qed.

(** C4, as the code has it.  The literal similarity that [evaluate]
    compares with 0.75 is the matching-blocks ratio of the two
    lower-cased texts rounded to three decimals.  When it is at least
    0.75 the result is correct and nothing is requested from the
    embedding service (the trace is unchanged).  Otherwise one
    embedding request is made, after a 1.5-second delay, and the result
    is correct exactly when the semantic score is at least 0.80; the
    semantic score is the cosine rounded to three decimals, or 0.0 when
    the request fails.  A response equal to the expected answer up to
    case has literal similarity 1.0 and is correct with no request. *)
Theorem evaluate_classification (q r e : str) (t : list event) :
  let similarity := py_round (ratio (SequenceMatcher (lower r) (lower e))) 3 in
  let semantic_score :=
    match embeddings_cosine r e with
    | Ret cosine_sim => py_round cosine_sim 3
    | Raise _ => float_lit 0 1
    end in
  (float_lit 75 100 <= similarity ->
   exists res,
     evaluate q r e t = (t, Ret res) /\ is_correct res = true)
  /\ (similarity < float_lit 75 100 ->
      exists res,
        evaluate q r e t
        = (t ++ [Sleep (3 # 2); EmbeddingsCreate r e], Ret res)
        /\ (is_correct res = true <-> float_lit 80 100 <= semantic_score))
  /\ (lower r = lower e ->
      similarity == 1
      /\ exists res,
           evaluate q r e t = (t, Ret res) /\ is_correct res = true).
Proof.
  intros similarity semantic_score.
  assert (float_lit 75 100 <= similarity ->
          exists res,
            evaluate q r e t = (t, Ret res) /\ is_correct res = true) as Hhigh.
  { intros Hsim%Qle_bool_iff.
    unfold evaluate, evaluate_with, _text_similarity, bind, try_except, ret.
    fold similarity. rewrite Hsim. cbn [negb]. eexists. by split. }
  split; [exact Hhigh |]. split.
  - intros Hsim.
    assert (Qle_bool (float_lit 75 100) similarity = false) as Hlow.
    { destruct (Qle_bool _ similarity) eqn:Hb; [| done].
      apply Qle_bool_iff in Hb. lra. }
    unfold evaluate, evaluate_with, _text_similarity, bind, try_except, ret.
    fold similarity. rewrite Hlow. cbn [negb].
    rewrite semantic_similarity_run. fold semantic_score.
    destruct (Qle_bool (float_lit 80 100) semantic_score) eqn:Hsem;
      eexists; (split; [reflexivity |]); cbn [is_correct fst].
    + split; [intros _; by apply Qle_bool_iff | done].
    + split; [done |]. intros Hle%Qle_bool_iff. congruence.
  - intros Hcase.
    pose proof (text_similarity_equal_up_to_case r e Hcase) as Hone.
    fold similarity in Hone. split; [done |].
    apply Hhigh. rewrite Hone. by vm_compute.
Qed.

End EvaluatorClassification.

(** A response that differs from the expected answer in case only. *)
Lemma evaluate_classification_witness :
  exists res,
    evaluate (ops := Latin1) (svc := scripted [] [] (u "") 0)
      (u "¿EBITDA?") (u "EBITDA Ajustado: 120") (u "ebitda ajustado: 120") []
    = ([], Ret res)
    /\ is_correct res = true.
Proof.
  destruct (evaluate_classification (ops := Latin1)
              (svc := scripted [] [] (u "") 0)
              (u "¿EBITDA?") (u "EBITDA Ajustado: 120")
              (u "ebitda ajustado: 120") []) as (_ & _ & Hcase).
  apply Hcase. reflexivity.
Defined.

(** C4, as the specification states it, fails.  The response is 190
    times "x", the expected answer the same followed by 127 times "y".
    The matching-blocks ratio is [2 * 190 / 507], below 0.75, and the
    cosine of the embeddings is 0, below 0.80; [evaluate] rounds the
    ratio to 0.75, answers correct and makes no embedding request. *)
Lemma rounded_similarity_reaches_threshold :
  Qlt_bool
    (ratio (SequenceMatcher
              (lower (StrOps := Latin1) (replicate 190 120%N))
              (lower (StrOps := Latin1)
                 (replicate 190 120%N ++ replicate 127 121%N))))
    (75 # 100) = true
  /\ Qeq_bool
       (ratio (SequenceMatcher
                 (lower (StrOps := Latin1) (replicate 190 120%N))
                 (lower (StrOps := Latin1)
                    (replicate 190 120%N ++ replicate 127 121%N))))
       (fl (380 # 507)) = true
  /\ embeddings_cosine (Services := scripted [] [] (u "") 0)
       (replicate 190 120%N) (replicate 190 120%N ++ replicate 127 121%N)
     = Ret 0%Q
  /\ match evaluate (ops := Latin1) (svc := scripted [] [] (u "") 0)
             (u "q") (replicate 190 120%N)
             (replicate 190 120%N ++ replicate 127 121%N) [] with
     | (t, Ret res) => t = [] /\ is_correct res = true
     | (_, Raise _) => False
     end.
Proof. vm_compute. auto. Qed.

(** ** The embedding on concrete inputs

    The right-hand sides are the values CPython 3.11 computes for the
    same inputs ([Fraction(x)] for a float [x]). *)

Example split_on_unicode_whitespace :
  split (u "  EBITDA" ++ [9%N] ++ u "Ajustado" ++ nl ++ u " 120 ")
  = [u "EBITDA"; u "Ajustado"; u "120"]
  /\ split ([104; 111; 108; 97; 160; 8195; 12288; 113; 117; 233]%N)
     = [u "hola"; u "qué"]
  /\ split (u "   ") = [].
Proof. repeat split; reflexivity. Qed.

Example lower_latin1 :
  lower (StrOps := Latin1) (u "Predicción: INVERSIÓN en ÑANDÚ × 2")
  = u "predicción: inversión en ñandú × 2".
Proof. reflexivity. Qed.

Example join_with_separator :
  join (u " ") [u "a"; u "b c"; u ""] = u "a b c "
  /\ join nl [] = []
  /\ join nl [u "uno"] = u "uno".
Proof. repeat split; reflexivity. Qed.

Example binary64_values :
  Qeq_bool (float_lit 15 100) (5404319552844595 # 36028797018963968) = true
  /\ Qeq_bool (float_lit 75 100) (3 # 4) = true
  /\ Qeq_bool (float_lit 80 100) (3602879701896397 # 4503599627370496) = true
  /\ Qeq_bool (int_truediv 1 80) (3602879701896397 # 288230376151711744) = true
  /\ Qeq_bool (int_truediv 79 80) (4447304632028365 # 4503599627370496) = true
  /\ Qeq_bool (int_truediv 1 3) (6004799503160661 # 18014398509481984) = true
  /\ Qeq_bool (int_truediv 2 3) (6004799503160661 # 9007199254740992) = true
  /\ Qeq_bool (py_round (int_truediv 1 80) 3) (7493989779944505 # 576460752303423488) = true
  /\ Qeq_bool (py_round (int_truediv 79 80) 3) (2224778215921025 # 2251799813685248) = true
  /\ Qeq_bool (py_round (int_truediv 1 16) 3) (1116892707587883 # 18014398509481984) = true
  /\ Qeq_bool (py_round (int_truediv 15 16) 3) (4224376450473525 # 4503599627370496) = true
  /\ Qeq_bool (py_round (int_truediv 2 3) 3) (3003900951456121 # 4503599627370496) = true
  /\ Qeq_bool (float_of_int (2 ^ 53 + 1)) (9007199254740992 # 1) = true
  /\ Qeq_bool (float_of_int (2 ^ 53 + 3)) (9007199254740996 # 1) = true
  /\ Qeq_bool (fadd (float_lit 13 1000) (float_lit 988 1000)) (2254051613498933 # 2251799813685248) = true
  /\ Qeq_bool (fadd (float_lit 1 10) (float_lit 2 10)) (1351079888211149 # 4503599627370496) = true.
Proof. vm_compute. repeat split. Qed.

Example format_2f_values :
  format_2f (float_lit 75 100) = u "0.75"
  /\ format_2f (int_truediv 1 3) = u "0.33"
  /\ format_2f (float_lit 12345 1000) = u "12.35"
  /\ format_2f (float_lit 995 1000) = u "0.99"
  /\ format_2f (float_lit (-1) 1000) = u "-0.00"
  /\ format_2f (float_lit 1 1) = u "1.00"
  /\ format_2f (float_lit 1005 1000) = u "1.00".
Proof. vm_compute. repeat split. Qed.

Example matcher_one_deletion :
  get_matching_blocks (SequenceMatcher (u "abxcd") (u "abcd"))
  = [(0, 0, 2); (3, 2, 2); (5, 4, 0)]%nat
  /\ Qeq_bool (ratio (SequenceMatcher (u "abxcd") (u "abcd")))
       (2001599834386887 # 2251799813685248) = true
  /\ Qeq_bool (py_round (ratio (SequenceMatcher (u "abxcd") (u "abcd"))) 3)
       (4003700068732371 # 4503599627370496) = true.
Proof. vm_compute. repeat split. Qed.

Example matcher_two_blocks :
  get_matching_blocks (SequenceMatcher (u "qabxcd") (u "abycdf"))
  = [(1, 0, 2); (4, 3, 2); (6, 6, 0)]%nat
  /\ Qeq_bool (ratio (SequenceMatcher (u "qabxcd") (u "abycdf")))
       (6004799503160661 # 9007199254740992) = true
  /\ Qeq_bool (py_round (ratio (SequenceMatcher (u "qabxcd") (u "abycdf"))) 3)
       (3003900951456121 # 4503599627370496) = true.
Proof. vm_compute. repeat split. Qed.

Example matcher_inserted_word :
  get_matching_blocks (SequenceMatcher (u "private Thread currentThread;") (u "private volatile Thread currentThread;"))
  = [(0, 0, 6); (6, 15, 23); (29, 38, 0)]%nat
  /\ Qeq_bool (ratio (SequenceMatcher (u "private Thread currentThread;") (u "private volatile Thread currentThread;")))
       (7797276966790709 # 9007199254740992) = true
  /\ Qeq_bool (py_round (ratio (SequenceMatcher (u "private Thread currentThread;") (u "private volatile Thread currentThread;"))) 3)
       (7800234554605699 # 9007199254740992) = true.
Proof. vm_compute. repeat split. Qed.

Example matcher_answers :
  get_matching_blocks (SequenceMatcher (u "el ebitda ajustado fue de 120 millones") (u "ebitda ajustado: 120 millones"))
  = [(3, 0, 15); (25, 16, 13); (38, 29, 0)]%nat
  /\ Qeq_bool (ratio (SequenceMatcher (u "el ebitda ajustado fue de 120 millones") (u "ebitda ajustado: 120 millones")))
       (3764202673623101 # 4503599627370496) = true
  /\ Qeq_bool (py_round (ratio (SequenceMatcher (u "el ebitda ajustado fue de 120 millones") (u "ebitda ajustado: 120 millones"))) 3)
       (7530018576963469 # 9007199254740992) = true.
Proof. vm_compute. repeat split. Qed.

Example matcher_empty_side :
  get_matching_blocks (SequenceMatcher (u "") (u "abc"))
  = [(0, 3, 0)]%nat
  /\ Qeq_bool (ratio (SequenceMatcher (u "") (u "abc")))
       (0 # 1) = true
  /\ Qeq_bool (py_round (ratio (SequenceMatcher (u "") (u "abc"))) 3)
       (0 # 1) = true.
Proof. vm_compute. repeat split. Qed.

Example matcher_popular_elements :
  get_matching_blocks (SequenceMatcher (mjoin (replicate 110 (u "ab"))) (mjoin (replicate 100 (u "ab"))))
  = [(0, 0, 200); (220, 200, 0)]%nat
  /\ Qeq_bool (ratio (SequenceMatcher (mjoin (replicate 110 (u "ab"))) (mjoin (replicate 100 (u "ab")))))
       (4289142502257615 # 4503599627370496) = true
  /\ Qeq_bool (py_round (ratio (SequenceMatcher (mjoin (replicate 110 (u "ab"))) (mjoin (replicate 100 (u "ab"))))) 3)
       (535928355657089 # 562949953421312) = true.
Proof. vm_compute. repeat split. Qed.

Example matcher_rounds_up :
  get_matching_blocks (SequenceMatcher (mjoin (replicate 190 (u "x"))) (mjoin (replicate 190 (u "x")) ++ mjoin (replicate 127 (u "y"))))
  = [(0, 0, 190); (190, 317, 0)]%nat
  /\ Qeq_bool (ratio (SequenceMatcher (mjoin (replicate 190 (u "x"))) (mjoin (replicate 190 (u "x")) ++ mjoin (replicate 127 (u "y")))))
       (3375479010652443 # 4503599627370496) = true
  /\ Qeq_bool (py_round (ratio (SequenceMatcher (mjoin (replicate 190 (u "x"))) (mjoin (replicate 190 (u "x")) ++ mjoin (replicate 127 (u "y"))))) 3)
       (3 # 4) = true.
Proof. vm_compute. repeat split. Qed.

Example matcher_long_texts :
  get_matching_blocks (SequenceMatcher (mjoin (replicate 21 (u "abcdefghij")) ++ u "Z") (mjoin (replicate 21 (u "abcdefghij"))))
  = [(0, 0, 210); (211, 210, 0)]%nat
  /\ Qeq_bool (ratio (SequenceMatcher (mjoin (replicate 21 (u "abcdefghij")) ++ u "Z") (mjoin (replicate 21 (u "abcdefghij")))))
       (4492902241082205 # 4503599627370496) = true
  /\ Qeq_bool (py_round (ratio (SequenceMatcher (mjoin (replicate 21 (u "abcdefghij")) ++ u "Z") (mjoin (replicate 21 (u "abcdefghij"))))) 3)
       (4494592428115755 # 4503599627370496) = true.
Proof. vm_compute. repeat split. Qed.

(* ===================================================================== *)
(** * Part III.  Further properties of the code                           *)
(* ===================================================================== *)

(** ** The retriever: candidates, indices and delays *)

Section Delays.
Context {svc : Services}.
Local Open Scope Q_scope.

Lemma slept_app t t' : slept (t ++ t') == slept t + slept t'.
Proof.
  induction t as [|[d| | | |] t IH]; cbn [app slept]; try done; lra.
Qed.

Lemma rerank_loop_slept q docs k attempts :
  forall t,
    Forall (fun attempt => (0 <= attempt)%Z) attempts ->
    exists t',
      (rerank_loop attempts q docs k t).1 = t ++ t'
      /\ (attempts <> [] -> 10 <= slept t')
      /\ 0 <= slept t' <= inject_Z (sleep_budget attempts).
Proof.
  induction attempts as [|attempt rest IH]; intros t Hpos.
  - exists []. rewrite app_nil_r. split; [done |]. split; [done |].
    split; by vm_compute.
  - apply Forall_cons in Hpos as [Ha Hrest]. cbn [sleep_budget foldr].
    fold (sleep_budget rest).
    assert (0 <= sleep_budget rest)%Z as Hb.
    { clear -Hrest. induction Hrest; cbn; [lia |].
      fold (sleep_budget l). lia. }
    rewrite Zle_Qle in Hb. change (inject_Z 0) with 0 in Hb.
    rewrite Zle_Qle in Ha. change (inject_Z 0) with 0 in Ha.
    rewrite !inject_Z_plus, inject_Z_mult, inject_Z_plus.
    change (inject_Z 10) with 10. change (inject_Z 1) with 1.
    destruct (co_rerank (count_rerank t) q docs k) as [idxs | e] eqn:Hreply.
    + rewrite (rerank_loop_final _ _ _ _ _ _ _ Hreply I).
      eexists. split; [reflexivity |]. cbn [slept]. split; [lra | lra].
    + destruct (is_too_many e) eqn:Hcls.
      * rewrite (rerank_loop_retry _ _ _ _ _ _ _ Hreply Hcls).
        destruct (IH (t ++ failed_attempt q docs k (Z.succ attempt)) Hrest)
          as (t' & -> & _ & Hlo & Hhi).
        exists (failed_attempt q docs k (Z.succ attempt) ++ t').
        split; [by rewrite app_assoc |].
        rewrite slept_app. unfold failed_attempt. cbn [slept].
        unfold Z.succ. rewrite inject_Z_mult, inject_Z_plus.
        change (inject_Z 10) with 10. change (inject_Z 1) with 1.
        split; [intros _; lra | lra].
      * rewrite (rerank_loop_final _ _ _ _ _ _ _ Hreply Hcls).
        eexists. split; [reflexivity |]. cbn [slept]. split; [lra | lra].
Qed.

Lemma slept_failed_attempts q docs k (n : nat) :
  slept (failed_attempts q docs k n)
  == inject_Z (10 * Z.of_nat n + 5 * Z.of_nat n * (Z.of_nat n + 1)).
Proof.
  unfold failed_attempts, py_range.
  assert (forall s,
    slept (flat_map (failed_attempt q docs k)
             (map Z.succ (map Z.of_nat (seq s n))))
    == inject_Z (10 * Z.of_nat n
                 + 10 * (Z.of_nat s * Z.of_nat n)
                 + 5 * Z.of_nat n * (Z.of_nat n + 1))) as Hgen.
  { induction n as [|n IH]; intros s.
    { cbn [seq map flat_map slept]. change 0 with (inject_Z 0).
      apply inject_Z_injective. lia. }
    cbn [seq map flat_map]. rewrite slept_app, IH.
    unfold failed_attempt. cbn [slept].
    change 10 with (inject_Z 10). change 0 with (inject_Z 0).
    rewrite <- !inject_Z_plus. apply inject_Z_injective. lia. }
  rewrite Hgen. apply inject_Z_injective. lia.
Qed.

End Delays.

Section RerankReplies.
Context {svc : Services}.

Lemma rerank_loop_reply q docs k attempts :
  forall t t' idxs,
    rerank_loop attempts q docs k t = (t', Ret idxs) ->
    exists n, (n < length attempts)%nat
              /\ co_rerank (count_rerank t + n) q docs k = Ret idxs.
Proof.
  induction attempts as [|attempt rest IH]; intros t t' idxs; [done |].
  destruct (co_rerank (count_rerank t) q docs k) as [idxs0 | e] eqn:Hreply.
  - rewrite (rerank_loop_final _ _ _ _ _ _ _ Hreply I). intros [= _ <-].
    exists 0%nat. rewrite Nat.add_0_r. split; [cbn; lia | done].
  - destruct (is_too_many e) eqn:Hcls.
    + rewrite (rerank_loop_retry _ _ _ _ _ _ _ Hreply Hcls). intros Hrun.
      apply IH in Hrun as (n & Hn & Hr).
      rewrite count_rerank_app, count_rerank_failed_attempt in Hr.
      exists (S n). split; [cbn; lia |]. rewrite <- Hr. f_equal. lia.
    + by rewrite (rerank_loop_final _ _ _ _ _ _ _ Hreply Hcls).
Qed.

Lemma py_getitem_Ret {A} (l : list A) (i : Z) (x : A) :
  py_getitem l i = Ret x <->
  valid_index (length l) i
  /\ l !! Z.to_nat (i mod Z.of_nat (length l)) = Some x.
Proof.
  unfold py_getitem, valid_index.
  destruct (Z.ltb_spec i 0) as [Hneg | Hpos].
  - destruct (Z.leb_spec 0 (i + Z.of_nat (length l))) as [Hlo | Hlo];
      destruct (Z.ltb_spec (i + Z.of_nat (length l)) (Z.of_nat (length l)));
      cbn [andb]; try lia.
    + replace (i mod Z.of_nat (length l)) with (i + Z.of_nat (length l)).
      * destruct (l !! _) as [y|] eqn:Hy; split;
          [intros [= ->]; split; [lia | done] | intros [_ [= ->]]; done
          | done | intros [_ ?]; done].
      * apply Z.mod_unique with (-1); lia.
    + split; [done | lia].
  - destruct (Z.leb_spec 0 i) as [_ | ?]; [| lia].
    destruct (Z.ltb_spec i (Z.of_nat (length l))) as [Hhi | Hhi]; cbn [andb].
    + rewrite Z.mod_small by lia.
      destruct (l !! _) as [y|] eqn:Hy; split;
        [intros [= ->]; split; [lia | done] | intros [_ [= ->]]; done
        | done | intros [_ ?]; done].
    + split; [done | lia].
Qed.

Lemma py_getitem_Raise {A} (l : list A) (i : Z) (e : exn) :
  py_getitem l i = Raise e ->
  e = Exn IndexError (u "list index out of range")
  /\ ~ valid_index (length l) i.
Proof.
  intros Hraise. destruct (decide (valid_index (length l) i)) as [Hv | Hv].
  - assert (is_Some (l !! Z.to_nat (i mod Z.of_nat (length l)))) as [x Hx].
    { apply lookup_lt_is_Some_2. unfold valid_index in Hv.
      assert (0 < Z.of_nat (length l)) by lia.
      pose proof (Z.mod_pos_bound i (Z.of_nat (length l))). lia. }
    pose proof (proj2 (py_getitem_Ret l i x) (conj Hv Hx)). congruence.
  - split; [| done]. unfold py_getitem in Hraise.
    destruct (if _ : bool then _ else _); [done | congruence].
Qed.

Lemma comprehension_Ret (docs : list str) (idxs : list Z) (result : list str) :
  comprehension (py_getitem docs) idxs = Ret result <->
  Forall (valid_index (length docs)) idxs
  /\ Forall2 (fun i d => docs !! Z.to_nat (i mod Z.of_nat (length docs)) = Some d)
       idxs result.
Proof.
  revert result. induction idxs as [|i idxs IH]; intros result; cbn [comprehension].
  - split.
    + intros [= <-]. split; constructor.
    + intros [_ Hall]. by inversion Hall.
  - destruct (py_getitem docs i) as [d | e] eqn:Hi.
    + apply py_getitem_Ret in Hi as [Hv Hd].
      destruct (comprehension (py_getitem docs) idxs) as [ds | e] eqn:Hrest.
      * destruct (proj1 (IH ds) eq_refl) as [Hvs Hds]. split.
        -- intros [= <-]. split; by constructor.
        -- intros [_ Hall]. inversion Hall as [|? d' ? ds' Hd' Hds']; subst.
           assert (ds' = ds) as ->.
           { pose proof (proj2 (IH ds') (conj Hvs Hds')) as Heq. congruence. }
           congruence.
      * split; [done |]. intros [Hvs Hall].
        apply Forall_cons in Hvs as [_ Hvs].
        inversion Hall as [|? d' ? ds' Hd' Hds']; subst.
        by pose proof (proj2 (IH ds') (conj Hvs Hds')).
    + apply py_getitem_Raise in Hi as [_ Hv]. split; [done |].
      intros [Hvs _]. by apply Forall_cons in Hvs as [? _].
Qed.

Lemma comprehension_Raise (docs : list str) (idxs : list Z) (e : exn) :
  comprehension (py_getitem docs) idxs = Raise e ->
  e = Exn IndexError (u "list index out of range")
  /\ Exists (fun i => ~ valid_index (length docs) i) idxs.
Proof.
  induction idxs as [|i idxs IH]; cbn [comprehension]; [done |].
  destruct (py_getitem docs i) as [d | e0] eqn:Hi.
  - destruct (comprehension (py_getitem docs) idxs) as [ds | e1]; [done |].
    intros [= ->]. destruct (IH eq_refl) as [-> Hex]. split; [done |].
    by apply Exists_cons_tl.
  - intros [= ->]. apply py_getitem_Raise in Hi as [-> Hv]. split; [done |].
    by apply Exists_cons_hd.
Qed.

Lemma search_datastore_failure q k t e :
  datastore_search q (k * 3) = Raise e ->
  search q k t = (t ++ [DatastoreSearch q (k * 3)], Raise e).
Proof.
  intros Hds. unfold search, bind, datastore_request. by rewrite Hds.
Qed.

End RerankReplies.

Section RetrieverResults.
Context {svc : Services}.

(** X1.  Whenever [search] returns a list, the datastore had answered
    with candidates and one of the first five rerank requests had
    answered with indices; the list has one passage per index (it is
    not cut to [top_k]) and every passage of it is one of the
    candidates.  With no candidate the list is empty. *)
Theorem search_returns_candidates (q : str) (k : Z) (t t' : list event)
    (result : list str) :
  search q k t = (t', Ret result) ->
  exists docs n idxs,
    datastore_search q (k * 3) = Ret docs
    /\ (n < 5)%nat
    /\ co_rerank (count_rerank t + n) q docs k = Ret idxs
    /\ length result = length idxs
    /\ Forall (fun d => d ∈ docs) result
    /\ (docs = [] -> result = []).
Proof.
  intros Hrun.
  destruct (datastore_search q (k * 3)) as [docs | e] eqn:Hds.
  2:{ by rewrite (search_datastore_failure _ _ _ _ Hds) in Hrun. }
  rewrite (search_unfold _ _ _ _ Hds) in Hrun.
  destruct (rerank_loop (py_range 5) q docs k _) as [t1 [idxs | e]] eqn:Hloop;
    [| done].
  injection Hrun as -> Hres.
  apply rerank_loop_reply in Hloop as (n & Hn & Hreply).
  rewrite count_rerank_app, count_rerank_prologue, Nat.add_0_r in Hreply.
  apply comprehension_Ret in Hres as [_ Hall].
  assert (Forall (fun d => d ∈ docs) result) as Hin.
  { clear -Hall. induction Hall as [|i d idxs result Hd _ IH]; constructor;
      [by eapply list_elem_of_lookup_2 | done]. }
  exists docs, n, idxs. repeat split; try done.
  - symmetry. by eapply Forall2_length.
  - intros ->. destruct Hin as [|d result Hd _]; [done |].
    by apply elem_of_nil in Hd.
Qed.

(** X2.  The indices of the reranker are used as Python list indices
    on the candidates.  When every index [i] satisfies
    [-len <= i < len] the result holds, for each index, the candidate at
    position [i mod len] (a negative index counts from the end).  When
    some index is outside that range [search] raises [IndexError],
    after the request that was answered. *)
Theorem search_index_bounds (q : str) (k : Z) (t : list event)
    (docs : list str) (n : nat) (idxs : list Z) :
  datastore_search q (k * 3) = Ret docs ->
  (n < 5)%nat ->
  rate_limited (count_rerank t) n q docs k ->
  co_rerank (count_rerank t + n) q docs k = Ret idxs ->
  (Forall (valid_index (length docs)) idxs ->
   exists result,
     (search q k t).2 = Ret result
     /\ Forall2
          (fun i d => docs !! Z.to_nat (i mod Z.of_nat (length docs)) = Some d)
          idxs result)
  /\ (Exists (fun i => ~ valid_index (length docs) i) idxs ->
      (search q k t).2 = Raise (Exn IndexError (u "list index out of range"))
      /\ count_rerank (search q k t).1 = (count_rerank t + n + 1)%nat).
Proof.
  intros Hds Hn Hlim Hreply.
  rewrite (search_after_retries _ _ _ _ _ _ Hds Hn Hlim Hreply I). cbn [fst snd].
  destruct (comprehension (py_getitem docs) idxs) as [result | e] eqn:Hres.
  - apply comprehension_Ret in Hres as [Hvalid Hall]. split.
    + intros _. by exists result.
    + intros Hex. apply Exists_exists in Hex as (i & Hi & Hbad).
      rewrite Forall_forall in Hvalid. by destruct Hbad; apply Hvalid.
  - apply comprehension_Raise in Hres as [-> Hex]. split.
    + intros Hvalid. apply Exists_exists in Hex as (i & Hi & Hbad).
      rewrite Forall_forall in Hvalid. by destruct Hbad; apply Hvalid.
    + intros _. split; [done |].
      rewrite !count_rerank_app, count_rerank_failed_attempts,
        count_rerank_prologue, count_rerank_attempt. lia.
Qed.

End RetrieverResults.

(** One rate-limited request, then the reranker puts the second
    candidate first. *)
Lemma search_returns_candidates_witness :
  exists docs n idxs,
    datastore_search
      (Services := scripted [Raise too_many_requests; Ret [1; 0]]
                     [u "uno"; u "dos"] (u "ok") 0) (u "ebitda") (2 * 3)
    = Ret docs
    /\ (n < 5)%nat
    /\ co_rerank
         (Services := scripted [Raise too_many_requests; Ret [1; 0]]
                        [u "uno"; u "dos"] (u "ok") 0)
         (count_rerank [] + n) (u "ebitda") docs 2 = Ret idxs
    /\ length [u "dos"; u "uno"] = length idxs
    /\ Forall (fun d => d ∈ docs) [u "dos"; u "uno"]
    /\ (docs = [] -> [u "dos"; u "uno"] = []).
Proof.
  eapply (search_returns_candidates
            (svc := scripted [Raise too_many_requests; Ret [1; 0]]
                      [u "uno"; u "dos"] (u "ok") 0) (u "ebitda") 2 []).
  reflexivity.
Defined.

(** The reranker answers [-1; 0] for two candidates, and [0; 2]. *)
Lemma search_index_bounds_witness :
  (search (svc := scripted [Ret [-1; 0]] [u "uno"; u "dos"] (u "ok") 0)
          (u "ebitda") 2 []).2 = Ret [u "dos"; u "uno"]
  /\ (search (svc := scripted [Ret [0; 2]] [u "uno"; u "dos"] (u "ok") 0)
             (u "ebitda") 2 []).2
     = Raise (Exn IndexError (u "list index out of range")).
Proof.
  split.
  - destruct (search_index_bounds
                (svc := scripted [Ret [-1; 0]] [u "uno"; u "dos"] (u "ok") 0)
                (u "ebitda") 2 [] [u "uno"; u "dos"] 0 [-1; 0] eq_refl)
      as [Hvalid _]; [lia | intros i Hi; lia | reflexivity |].
    destruct Hvalid as (result & -> & Hall).
    { repeat constructor; unfold valid_index; simpl; lia. }
    f_equal. inversion Hall as [|? d1 ? ? Hd1 Hall1]; subst.
    inversion Hall1 as [|? d2 ? ? Hd2 Hall2]; subst.
    inversion Hall2; subst. vm_compute in Hd1, Hd2.
    injection Hd1 as <-. injection Hd2 as <-. by vm_compute.
  - destruct (search_index_bounds
                (svc := scripted [Ret [0; 2]] [u "uno"; u "dos"] (u "ok") 0)
                (u "ebitda") 2 [] [u "uno"; u "dos"] 0 [0; 2] eq_refl)
      as [_ Hbad]; [lia | intros i Hi; lia | reflexivity |].
    apply Hbad. apply Exists_cons_tl, Exists_cons_hd.
    unfold valid_index. simpl. lia.
Defined.

Section RetrieverPacing.
Context {svc : Services}.
Local Open Scope Q_scope.

(** One [search] sleeps for at most 206 seconds, and for at least 16
    once the datastore has answered. *)
Lemma search_slept (q : str) (k : Z) (t : list event) :
  exists t',
    (search q k t).1 = t ++ t'
    /\ 0 <= slept t' <= 206
    /\ (forall e, datastore_search q (k * 3) = Raise e ->
          t' = [DatastoreSearch q (k * 3)])
    /\ (forall docs, datastore_search q (k * 3) = Ret docs -> 16 <= slept t').
Proof.
  destruct (datastore_search q (k * 3)) as [docs | e] eqn:Hds.
  2:{ exists [DatastoreSearch q (k * 3)].
      rewrite (search_datastore_failure _ _ _ _ Hds).
      split; [done |]. split; [cbn; lra |]. by split. }
  destruct (rerank_loop_slept q docs k (py_range 5)
              (t ++ [DatastoreSearch q (k * 3); Sleep 6]))
    as (t1 & Hrun & Hlo & Hnn & Hhi).
  { unfold py_range. apply Forall_map, Forall_forall. intros; simpl; lia. }
  specialize (Hlo ltac:(done)).
  change (inject_Z (sleep_budget (py_range 5))) with 200 in Hhi.
  exists ([DatastoreSearch q (k * 3); Sleep 6] ++ t1).
  split.
  { rewrite (search_unfold _ _ _ _ Hds), app_assoc, <- Hrun.
    by destruct (rerank_loop _ _ _ _ _) as [? [?|?]]. }
  cbn [app slept]. split; [lra |]. split; [done | intros; lra].
Qed.

(** X3.  The delays of one [search].  Whatever the collaborators
    answer, [search] sleeps for at most 206 seconds.  When the datastore
    raises, nothing follows the datastore request: no delay and no
    rerank request.  When it answers, [search] sleeps for at least 16
    seconds; for [16 + 10 n + 5 n (n + 1)] seconds when [n < 5]
    rate-limited requests precede a reply that is not retried; for 206
    seconds when all five requests are rate-limited. *)
Theorem search_sleep_budget (q : str) (k : Z) (t : list event) :
  exists t',
    (search q k t).1 = t ++ t'
    /\ 0 <= slept t' <= 206
    /\ (forall e, datastore_search q (k * 3) = Raise e ->
          t' = [DatastoreSearch q (k * 3)])
    /\ (forall docs, datastore_search q (k * 3) = Ret docs -> 16 <= slept t')
    /\ (forall docs n,
          datastore_search q (k * 3) = Ret docs ->
          (n < 5)%nat ->
          rate_limited (count_rerank t) n q docs k ->
          final_reply (co_rerank (count_rerank t + n) q docs k) ->
          slept t'
          == inject_Z (16 + 10 * Z.of_nat n + 5 * Z.of_nat n * (Z.of_nat n + 1)))
    /\ (forall docs,
          datastore_search q (k * 3) = Ret docs ->
          rate_limited (count_rerank t) 5 q docs k ->
          slept t' == 206).
Proof.
  destruct (search_slept q k t) as (t' & Htrace & Hbound & Hfail & Hlow).
  exists t'. do 4 (split; [done |]). split.
  - intros docs n Hds Hn Hlim Hfinal.
    rewrite (search_after_retries _ _ _ _ _ _ Hds Hn Hlim eq_refl Hfinal)
      in Htrace.
    cbn [fst] in Htrace. apply app_inv_head in Htrace. subst t'.
    cbn [app slept]. rewrite slept_app, slept_failed_attempts. cbn [slept].
    rewrite !inject_Z_plus. change (inject_Z 16) with 16. lra.
  - intros docs Hds Hlim.
    rewrite (search_after_five _ _ _ _ Hds Hlim) in Htrace.
    cbn [fst] in Htrace. apply app_inv_head in Htrace. subst t'.
    cbn [app slept]. rewrite slept_failed_attempts. by vm_compute.
Qed.

End RetrieverPacing.

(** Two rate-limited requests, then a result: 6 + (10 + 10) + (10 + 20)
    + 10 seconds. *)
Lemma search_sleep_budget_witness :
  Qeq (slept (search (svc := scripted [Raise too_many_requests;
                                       Raise too_many_requests; Ret [0]]
                                [u "doc"] (u "ok") 0) (u "ebitda") 1 []).1)
      66.
Proof.
  destruct (search_sleep_budget
              (svc := scripted [Raise too_many_requests;
                                Raise too_many_requests; Ret [0]]
                               [u "doc"] (u "ok") 0) (u "ebitda") 1 [])
    as (t' & -> & _ & _ & _ & Hexact & _).
  cbn [app]. rewrite (Hexact [u "doc"] 2%nat); [reflexivity | reflexivity | lia | | exact I].
  intros i Hi. exists too_many_requests.
  destruct i as [|[|i]]; [split; reflexivity | split; reflexivity | lia].
Defined.

(** ** [SequenceMatcher]: the matched positions *)

Section MatchedPositions.
Context {A : Type} `{Countable A}.
Variable sm : matcher A.

Lemma matched_app (l1 l2 : list Match) :
  matched (l1 ++ l2) = (matched l1 + matched l2)%nat.
Proof. unfold matched. rewrite map_app. apply sum_list_with_app. Qed.

Lemma matched_Permutation (l1 l2 : list Match) :
  l1 ≡ₚ l2 -> matched l1 = matched l2.
Proof.
  unfold matched. induction 1 as [| [[? ?] ?] ? ? ? IH | [[? ?] ?] [[? ?] ?] ? | ]; cbn in *; lia.
Qed.

Lemma matched_collapse (blocks : list Match) :
  forall i1 j1 k1,
    matched (collapse i1 j1 k1 blocks) = (k1 + matched blocks)%nat.
Proof.
  induction blocks as [|[[i2 j2] k2] rest IH]; intros i1 j1 k1; cbn [collapse].
  - destruct k1; cbn; lia.
  - destruct (_ && _).
    + rewrite IH. unfold matched. cbn. lia.
    + rewrite matched_app, IH. unfold matched. destruct k1; cbn; lia.
Qed.

Lemma blocks_loop_matched fuel :
  forall queue blocks,
    queue_ok queue ->
    (matched (blocks_loop fuel sm queue blocks)
       <= matched blocks + queue_width_a queue
     /\ matched (blocks_loop fuel sm queue blocks)
       <= matched blocks + queue_width_b queue)%nat.
Proof.
  induction fuel as [|fuel IH]; intros queue blocks Hok.
  - cbn [blocks_loop]. lia.
  - destruct queue as [|[[[alo ahi] blo] bhi] queue]; [cbn [blocks_loop]; lia |].
    cbn [blocks_loop].
    apply Forall_cons in Hok as [[Ha Hb] Hok].
    pose proof (find_longest_match_within sm alo ahi blo bhi Ha Hb) as Hin.
    unfold queue_width_a, queue_width_b.
    cbn [map sum_list sum_list_with id].
    fold (queue_width_a queue) (queue_width_b queue).
    destruct (find_longest_match sm alo ahi blo bhi) as [[i j] k].
    unfold block_within in Hin.
    destruct k as [|k].
    + destruct (IH queue blocks Hok). lia.
    + match goal with
      | |- context [blocks_loop fuel sm ?q ?bs] =>
        destruct (IH q bs) as [Hqa Hqb]
      end.
      * destruct (Nat.ltb_spec alo i), (Nat.ltb_spec blo j),
          (Nat.ltb_spec (i + S k) ahi), (Nat.ltb_spec (j + S k) bhi);
          cbn [andb]; repeat (apply Forall_cons; split); try done; lia.
      * rewrite matched_app in Hqa, Hqb.
        change (matched [(i, j, S k)]) with (S k + 0)%nat in Hqa, Hqb.
        destruct (Nat.ltb_spec alo i), (Nat.ltb_spec blo j),
          (Nat.ltb_spec (i + S k) ahi), (Nat.ltb_spec (j + S k) bhi);
          cbn [andb] in Hqa, Hqb |- *;
          unfold queue_width_a, queue_width_b in Hqa, Hqb;
          cbn [map sum_list sum_list_with id] in Hqa, Hqb;
          fold (queue_width_a queue) (queue_width_b queue) in Hqa, Hqb; lia.
Qed.

(** The matching blocks cover no position of [a] twice and no position of [b] twice. *)
Lemma get_matching_blocks_matched :
  (matched (get_matching_blocks sm) <= length (seq_a sm)
   /\ matched (get_matching_blocks sm) <= length (seq_b sm))%nat.
Proof.
  unfold get_matching_blocks.
  rewrite matched_app, matched_collapse,
    (matched_Permutation _ _ (merge_sort_Permutation _ _)).
  destruct (blocks_loop_matched (2 * length (seq_a sm) + 1)
              [(O, length (seq_a sm), O, length (seq_b sm))] []) as [Ha Hb].
  { apply Forall_cons. split; [lia | done]. }
  unfold queue_width_a, queue_width_b in Ha, Hb.
  cbn [map sum_list sum_list_with id] in Ha, Hb.
  change (matched []) with O in Ha, Hb.
  change (matched [(length (seq_a sm), length (seq_b sm), O)]) with (0 + 0)%nat.
  lia.
Qed.

End MatchedPositions.

Section RatioRange.
Local Open Scope Q_scope.

Lemma inject_nat_pos (n : nat) : (0 < n)%nat -> 1 <= inject_Z (Z.of_nat n).
Proof. intros Hn. change 1 with (inject_Z 1). rewrite <- Zle_Qle. lia. Qed.

Lemma fl_ge_one x : 1 <= x -> 1 <= fl x.
Proof. intros Hx. rewrite <- fl_one. apply fl_mono; lra. Qed.

(** [2.0 * float(m)] is the binary64 number nearest to [2 * m]. *)
Lemma fmul_two_float_of_int (m : nat) :
  fmul (float_lit 2 1) (float_of_int (Z.of_nat m))
  == fl (2 * inject_Z (Z.of_nat m)).
Proof.
  unfold fmul, float_of_int. destruct m as [|m]; [by vm_compute |].
  set (x := inject_Z (Z.of_nat (S m))).
  assert (1 <= x) as Hx by (apply inject_nat_pos; lia).
  pose proof (fl_ge_one x Hx) as Hfx.
  rewrite (fl_comp (float_lit 2 1 * fl x) (2 * fl x)).
  - rewrite !fl_double by done. rewrite fl_idempotent; [reflexivity | lra].
  - apply Qmult_le_0_compat; [by vm_compute | lra].
  - assert (float_lit 2 1 == 2) as -> by (vm_compute; reflexivity).
    reflexivity.
Qed.

Lemma calculate_ratio_range (m l : nat) :
  (2 * m <= l)%nat -> 0 <= _calculate_ratio m l <= 1.
Proof.
  intros Hml. destruct l as [|l]; [by vm_compute |].
  cbn [_calculate_ratio]. unfold fdiv.
  set (y := inject_Z (Z.of_nat (S l))).
  assert (1 <= y) as Hy by (apply inject_nat_pos; lia).
  pose proof (fl_ge_one y Hy) as Hfy.
  change (float_of_int (Z.of_nat (S l))) with (fl y).
  set (N := fmul (float_lit 2 1) (float_of_int (Z.of_nat m))).
  assert (0 <= N <= fl y) as [HN0 HN1].
  { unfold N. rewrite fmul_two_float_of_int.
    assert (0 <= 2 * inject_Z (Z.of_nat m)) as Hnn.
    { apply Qmult_le_0_compat; [lra |]. change 0 with (inject_Z 0).
      rewrite <- Zle_Qle. lia. }
    split; [by apply fl_nonneg |]. apply fl_mono; [done |].
    unfold y. change 2 with (inject_Z 2). rewrite <- inject_Z_mult, <- Zle_Qle.
    lia. }
  apply fl_unit_interval. split.
  - apply Qle_shift_div_l; lra.
  - apply Qle_shift_div_r; lra.
Qed.

(** For [x >= 1] binary64 rounding moves [x] by at most [x * 2^-53]. *)
Lemma fl_error_rel x :
  1 <= x -> x * (1 - pow2 (-53)) <= fl x <= x * (1 + pow2 (-53)).
Proof.
  intros Hx. rewrite fl_of_pos by lra. unfold fl_pos.
  destruct (ilog2_spec x ltac:(lra)) as [Hlo _].
  assert (0 <= ilog2 x)%Z as Hlog.
  { rewrite <- (ilog2_unique 1 0); [apply ilog2_mono; lra | by vm_compute
                                    | by vm_compute]. }
  assert (ulp_exp x = (ilog2 x - 52)%Z) as -> by (unfold ulp_exp; lia).
  set (e := (ilog2 x - 52)%Z).
  pose proof (pow2_pos e) as Hpe.
  assert (pow2 e == 2 * (pow2 (ilog2 x) * pow2 (-53))) as Hsplit.
  { rewrite <- pow2_add, <- pow2_succ. unfold e.
    replace (ilog2 x - 52)%Z with (ilog2 x + -53 + 1)%Z by lia. reflexivity. }
  destruct (rne_error (x / pow2 e)) as [Hr1 Hr2].
  assert (x == x / pow2 e * pow2 e) as Hq by (field; lra).
  pose proof (pow2_pos (-53)) as Hu.
  set (s := x / pow2 e) in *. set (r := inject_Z (rne s)) in *.
  set (p := pow2 (ilog2 x)) in *. set (v := pow2 (-53)) in *.
  assert (p * v <= x * v) as Hpv by (apply Qmult_le_compat_r; lra).
  split.
  - apply Qle_trans with ((s - (1 # 2)) * pow2 e).
    + rewrite Hq at 1. nra.
    + apply Qmult_le_compat_r; lra.
  - apply Qle_trans with ((s + (1 # 2)) * pow2 e).
    + apply Qmult_le_compat_r; lra.
    + rewrite Hq at 1. nra.
Qed.

End RatioRange.

Section RatioBounds.
Context {A : Type} `{Countable A}.
Variable sm : matcher A.
Local Open Scope Q_scope.

Lemma ratio_range : 0 <= ratio sm <= 1.
Proof.
  unfold ratio. fold (matched (get_matching_blocks sm)).
  apply calculate_ratio_range.
  pose proof (get_matching_blocks_matched sm). lia.
Qed.

(** When the shorter sequence is too short for a ratio of 0.749, the
    rounded ratio stays below 0.75. *)
Lemma ratio_length_gap :
  (2000 * Nat.min (length (seq_a sm)) (length (seq_b sm))
   < 749 * (length (seq_a sm) + length (seq_b sm)))%nat ->
  py_round (ratio sm) 3 <= float_lit 749 1000.
Proof.
  intros Hgap. unfold ratio. fold (matched (get_matching_blocks sm)).
  pose proof (get_matching_blocks_matched sm) as [Hma Hmb].
  set (m := matched (get_matching_blocks sm)) in *.
  set (l := (length (seq_a sm) + length (seq_b sm))%nat) in *.
  assert (2000 * m < 749 * l)%nat as Hml by lia.
  clearbody m l. clear Hgap Hma Hmb.
  destruct l as [|l]; [lia |].
  cbn [_calculate_ratio]. unfold fdiv.
  set (y := inject_Z (Z.of_nat (S l))).
  assert (1 <= y) as Hy by (apply inject_nat_pos; lia).
  change (float_of_int (Z.of_nat (S l))) with (fl y).
  set (x := inject_Z (Z.of_nat m)).
  assert (0 <= x) as Hx0.
  { unfold x. change 0 with (inject_Z 0). rewrite <- Zle_Qle. lia. }
  assert (2000 * x < 749 * y) as Hxy.
  { unfold x, y. change 2000 with (inject_Z 2000).
    change 749 with (inject_Z 749). rewrite <- !inject_Z_mult, <- Zlt_Qlt. lia. }
  set (N := fmul (float_lit 2 1) (float_of_int (Z.of_nat m))).
  assert (0 <= N <= 2 * x * (1 + pow2 (-53))) as [HN0 HN1].
  { unfold N. rewrite fmul_two_float_of_int. fold x.
    split; [apply fl_nonneg; lra |].
    destruct m as [|m].
    - replace (fl (2 * x)) with 0 by (by vm_compute).
      change x with 0. by vm_compute.
    - assert (1 <= x) by (apply inject_nat_pos; lia).
      apply fl_error_rel. lra. }
  destruct (fl_error_rel y Hy) as [HD _].
  change (pow2 (-53)) with (1 # 9007199254740992) in HN1, HD.
  set (D := fl y) in *.
  assert (0 < D) as HDpos by lra.
  assert (0 <= N / D <= 7491 # 10000) as [Hq0 Hq1].
  { split.
    - apply Qle_shift_div_l; lra.
    - apply Qle_shift_div_r; lra. }
  destruct (fl_error_unit (N / D)) as [_ Hfl]; [lra |].
  change (pow2 (-53)) with (1 # 9007199254740992) in Hfl.
  unfold py_round. change (inject_Z (10 ^ 3)) with 1000.
  set (F := fl (N / D)) in *.
  assert (0 <= F) as HF0 by (apply fl_nonneg; lra).
  assert (0 <= rne (F * 1000) <= 749)%Z as [Hk0 Hk1].
  { split; [apply rne_ge_Z; change (inject_Z 0) with 0; lra |].
    destruct (rne_error (F * 1000)) as [_ Hr].
    assert (inject_Z (rne (F * 1000)) < inject_Z 750) as Hlt.
    { change (inject_Z 750) with 750. lra. }
    rewrite <- Zlt_Qlt in Hlt. lia. }
  rewrite Zle_Qle in Hk0, Hk1.
  change (inject_Z 0) with 0 in Hk0. change (inject_Z 749) with 749 in Hk1.
  unfold float_lit. apply fl_mono.
  - apply Qle_shift_div_l; lra.
  - apply Qle_shift_div_r; [lra |].
    assert ((749 # 1000) * 1000 == 749) as -> by reflexivity. lra.
Qed.

End RatioBounds.

Section Disjoint.
Context {A : Type} `{Countable A}.
Variables a b : list A.
Hypothesis nothing_in_common : forall x, x ∈ a -> x ∉ b.

Lemma positions_absent (x : A) : x ∉ b -> positions x b = [].
Proof.
  intros Hx. unfold positions. generalize 0%nat.
  induction (length b) as [|m IH]; intros lo; [done |].
  rewrite positions_from_S, decide_False; [apply IH |].
  intros Hj. by apply Hx, list_elem_of_lookup_2 with lo.
Qed.

Lemma b2j_absent (x : A) :
  x ∉ b -> default [] (b2j (SequenceMatcher a b) !! x) = [].
Proof.
  intros Hx. cbn [b2j SequenceMatcher].
  destruct (chain_b b !! x) as [js|] eqn:Hlook; [| done].
  apply chain_b_lookup in Hlook as ->. cbn. by apply positions_absent.
Qed.

Lemma flm_rows_disjoint blo bhi rows :
  forall j2len best,
    flm_rows (SequenceMatcher a b) blo bhi rows j2len best = best.
Proof.
  induction rows as [|i rows IH]; intros j2len best; [done |].
  cbn [flm_rows].
  assert (match seq_a (SequenceMatcher a b) !! i with
          | Some x => default [] (b2j (SequenceMatcher a b) !! x)
          | None => []
          end = []) as ->.
  { cbn [seq_a SequenceMatcher]. destruct (a !! i) as [x|] eqn:Hx; [| done].
    apply b2j_absent, nothing_in_common. by eapply list_elem_of_lookup_2. }
  cbn [flm_row]. apply IH.
Qed.

Lemma extends_at_disjoint junk i j :
  extends_at (SequenceMatcher a b) junk i j = false.
Proof.
  unfold extends_at. cbn [seq_a seq_b SequenceMatcher].
  destruct (a !! i) as [x|] eqn:Hx; [| done].
  destruct (b !! j) as [y|] eqn:Hy; [| done].
  rewrite bool_decide_eq_false_2; [by rewrite andb_false_r |].
  intros ->. apply (nothing_in_common y); by eapply list_elem_of_lookup_2.
Qed.

Lemma extend_down_disjoint junk alo blo i j k :
  extend_down (SequenceMatcher a b) junk alo blo i j k = (i, j, k).
Proof.
  destruct i as [|i], j as [|j]; cbn [extend_down]; try done.
  by rewrite extends_at_disjoint, andb_false_r.
Qed.

Lemma extend_up_disjoint junk ahi bhi room i j k :
  extend_up (SequenceMatcher a b) junk ahi bhi room i j k = (i, j, k).
Proof.
  destruct room as [|room]; cbn [extend_up]; [done |].
  by rewrite extends_at_disjoint, andb_false_r.
Qed.

Lemma find_longest_match_disjoint alo ahi blo bhi :
  find_longest_match (SequenceMatcher a b) alo ahi blo bhi = (alo, blo, O).
Proof.
  unfold find_longest_match.
  rewrite flm_rows_disjoint, extend_down_disjoint, extend_up_disjoint.
  by rewrite extend_down_disjoint, extend_up_disjoint.
Qed.

Lemma get_matching_blocks_disjoint :
  get_matching_blocks (SequenceMatcher a b) = [(length a, length b, O)].
Proof.
  unfold get_matching_blocks. cbn [seq_a seq_b SequenceMatcher].
  replace (2 * length a + 1)%nat with (S (2 * length a)) by lia.
  cbn [blocks_loop]. rewrite find_longest_match_disjoint.
  by destruct (2 * length a)%nat.
Qed.

Lemma ratio_disjoint : a ++ b <> [] -> ratio (SequenceMatcher a b) = 0%Q.
Proof.
  intros Hne. unfold ratio. rewrite get_matching_blocks_disjoint.
  cbn [seq_a seq_b SequenceMatcher map sum_list sum_list_with snd id Nat.add].
  destruct (length a + length b)%nat as [|l] eqn:Hl.
  { destruct a, b; cbn in Hl; try lia. done. }
  cbn [_calculate_ratio]. unfold fdiv.
  replace (fmul (float_lit 2 1) (float_of_int (Z.of_nat 0))) with 0%Q
    by (by vm_compute).
  apply fl_of_zero. unfold Qdiv. apply Qmult_0_l.
Qed.

End Disjoint.

(** ** The evaluator: scores and reasoning *)

Section EvaluatorScores.
Context {ops : StrOps} {svc : Services}.
Local Open Scope Q_scope.

(** What [evaluate] does, by the literal score. *)
Lemma evaluate_run (q r e : str) (t : list event) :
  let similarity := py_round (ratio (SequenceMatcher (lower r) (lower e))) 3 in
  let semantic_score :=
    match embeddings_cosine r e with
    | Ret cosine_sim => py_round cosine_sim 3
    | Raise _ => float_lit 0 1
    end in
  evaluate q r e t
  = if Qle_bool (float_lit 75 100) similarity then
      (t, Ret {| question := q; response := r; expected_answer := e;
                 is_correct := true;
                 reasoning := u "Similarity: " ++ format_2f similarity
                                ++ u ". " ++ verdict_sentence true |})
    else
      (t ++ [Sleep (3 # 2); EmbeddingsCreate r e],
       Ret {| question := q; response := r; expected_answer := e;
              is_correct := Qle_bool (float_lit 80 100) semantic_score;
              reasoning :=
                u "Similarity: " ++ format_2f similarity ++ u ". "
                  ++ (u "Semantic Similarity: " ++ format_2f semantic_score
                        ++ u ". ")
                  ++ verdict_sentence
                       (Qle_bool (float_lit 80 100) semantic_score) |}).
Proof.
  intros similarity semantic_score.
  unfold evaluate, evaluate_with, _text_similarity. fold similarity.
  clearbody similarity. unfold bind, try_except, ret.
  destruct (Qle_bool (float_lit 75 100) similarity); cbn [negb].
  - cbn [fst snd verdict_sentence]. by rewrite <- !app_assoc.
  - rewrite semantic_similarity_run. fold semantic_score. clearbody semantic_score.
    destruct (Qle_bool (float_lit 80 100) semantic_score);
      cbn [fst snd verdict_sentence]; by rewrite <- !app_assoc.
Qed.

(** With two texts whose lengths are too far apart, [evaluate] always
    goes on to the semantic comparison. *)
Lemma evaluate_after_length_gap (q r e : str) (t : list event) :
  (2000 * Nat.min (length (lower r)) (length (lower e))
   < 749 * (length (lower r) + length (lower e)))%nat ->
  exists res,
    evaluate q r e t = (t ++ [Sleep (3 # 2); EmbeddingsCreate r e], Ret res)
    /\ (is_correct res = true <->
        float_lit 80 100
        <= match embeddings_cosine r e with
           | Ret cosine_sim => py_round cosine_sim 3
           | Raise _ => float_lit 0 1
           end).
Proof.
  intros Hgap.
  pose proof (ratio_length_gap (SequenceMatcher (lower r) (lower e)) Hgap)
    as Hlow.
  pose proof (evaluate_run q r e t) as Hrun. cbv zeta in Hrun.
  set (similarity := py_round (ratio (SequenceMatcher (lower r) (lower e))) 3)
    in *.
  assert (Qle_bool (float_lit 75 100) similarity = false) as Hb.
  { destruct (Qle_bool _ similarity) eqn:Hb; [| done].
    apply Qle_bool_iff in Hb.
    assert (float_lit 749 1000 < float_lit 75 100) by (by vm_compute). lra. }
  rewrite Hb in Hrun. eexists. split; [exact Hrun |].
  cbn [is_correct]. apply Qle_bool_iff.
Qed.

(** X4.  [_text_similarity] returns, for any two texts, a score
    between 0 and 1, and leaves no trace: the matching blocks never
    cover a position of either text twice. *)
Theorem text_similarity_range (text_a text_b : str) (t : list event) :
  exists s, _text_similarity text_a text_b t = (t, Ret s) /\ 0 <= s <= 1.
Proof.
  eexists. split; [reflexivity |].
  apply py_round_unit_interval, ratio_range.
Qed.

(** X5.  When the two lower-cased texts have no code point in common
    and are not both empty, [_text_similarity] returns 0.0; in
    particular when exactly one of them is empty. *)
Theorem text_similarity_nothing_in_common (text_a text_b : str)
    (t : list event) :
  (forall c, c ∈ lower text_a -> c ∉ lower text_b) ->
  lower text_a ++ lower text_b <> [] ->
  _text_similarity text_a text_b t = (t, Ret 0).
Proof.
  intros Hdisj Hne. unfold _text_similarity, ret.
  rewrite (ratio_disjoint _ _ Hdisj Hne). by vm_compute.
Qed.

(** X6.  The literal score is bounded by the lengths alone.  When the
    lower-cased texts have lengths [la] and [lb] with
    [2000 * min la lb < 749 * (la + lb)] (the shorter one is less than
    about 0.6 times the longer one), [_text_similarity] is at most
    0.749, so [evaluate] makes the embedding request and the verdict is
    the one of the semantic score. *)
Theorem evaluate_length_gap (q r e : str) (t : list event) :
  (2000 * Nat.min (length (lower r)) (length (lower e))
   < 749 * (length (lower r) + length (lower e)))%nat ->
  exists s res,
    _text_similarity r e t = (t, Ret s)
    /\ s <= float_lit 749 1000
    /\ evaluate q r e t = (t ++ [Sleep (3 # 2); EmbeddingsCreate r e], Ret res)
    /\ (is_correct res = true <->
        float_lit 80 100
        <= match embeddings_cosine r e with
           | Ret cosine_sim => py_round cosine_sim 3
           | Raise _ => float_lit 0 1
           end).
Proof.
  intros Hgap.
  destruct (evaluate_after_length_gap q r e t Hgap) as (res & Hrun & Hiff).
  exists (py_round (ratio (SequenceMatcher (lower r) (lower e))) 3), res.
  split; [reflexivity |].
  split; [exact (ratio_length_gap (SequenceMatcher (lower r) (lower e)) Hgap) |].
  exact (conj Hrun Hiff).
Qed.



End EvaluatorScores.

(** An empty response against an expected answer, and two texts without
    a common character. *)
Lemma text_similarity_nothing_in_common_witness :
  _text_similarity (ops := Latin1) (u "") (u "95") [] = ([], Ret 0%Q)
  /\ _text_similarity (ops := Latin1) (u "CIEN") (u "120") [] = ([], Ret 0%Q).
Proof.
  split; apply text_similarity_nothing_in_common.
  - intros c Hc. by apply elem_of_nil in Hc.
  - discriminate.
  - intros c Hc Hc'. vm_compute in Hc, Hc'.
    repeat (apply elem_of_cons in Hc' as [-> | Hc']);
      try (by apply elem_of_nil in Hc');
      repeat (apply elem_of_cons in Hc as [Hc | Hc]; [discriminate |]);
      by apply elem_of_nil in Hc.
  - discriminate.
Defined.

(** A long response against the expected answer "120". *)
Lemma evaluate_length_gap_witness :
  exists s res,
    _text_similarity (ops := Latin1)
      (u "El EBITDA ajustado fue de 120 millones") (u "120") [] = ([], Ret s)
    /\ (s <= float_lit 749 1000)%Q
    /\ evaluate (ops := Latin1) (svc := scripted [] [] (u "") (9 # 10))
         (u "¿EBITDA?") (u "El EBITDA ajustado fue de 120 millones") (u "120") []
       = ([] ++ [Sleep (3 # 2);
                 EmbeddingsCreate (u "El EBITDA ajustado fue de 120 millones")
                   (u "120")], Ret res)
    /\ (is_correct res = true <->
        (float_lit 80 100
         <= match embeddings_cosine
                    (Services := scripted [] [] (u "") (9 # 10))
                    (u "El EBITDA ajustado fue de 120 millones") (u "120") with
            | Ret cosine_sim => py_round cosine_sim 3
            | Raise _ => float_lit 0 1
            end)%Q).
Proof.
  apply (evaluate_length_gap (ops := Latin1)
           (svc := scripted [] [] (u "") (9 # 10))).
  apply Nat.ltb_lt. by vm_compute.
Defined.

(** ** Groundedness and metrics: edge cases *)

Section GroundingEdges.
Context {ops : StrOps}.
Local Open Scope Q_scope.

Lemma size_list_to_set_le (tokens : list str) :
  (size (list_to_set tokens : gset str) <= length tokens)%nat.
Proof.
  induction tokens as [|x tokens IH]; [done |].
  cbn [list_to_set length].
  destruct (decide (x ∈ (list_to_set tokens : gset str))) as [Hin | Hout].
  - rewrite (subseteq_union_1_L {[x]} (list_to_set tokens : gset str)); [lia |].
    by apply singleton_subseteq_l.
  - rewrite size_union by (by apply disjoint_singleton_l).
    rewrite size_singleton. lia.
Qed.

Lemma shared_tokens_le (response : str) (context_list : list str) :
  (size (shared_tokens response context_list)
   <= size (list_to_set (split (lower response)) : gset str))%nat.
Proof. apply subseteq_size, intersection_subseteq_l. Qed.

(** X8.  [is_grounded_in_context] answers false whenever the shared
    tokens are at most 15% of the response tokens; in particular when
    the response shares no token with the context, when the response
    has no token at all, and, whatever the context, when at most 15% of
    the response tokens are distinct. *)
Theorem is_grounded_in_context_needs_overlap (response : str)
    (context_list : list str) :
  ((100 * size (shared_tokens response context_list)
    <= 15 * length (split (lower response)))%nat ->
   is_grounded_in_context response context_list = false)
  /\ (shared_tokens response context_list = ∅ ->
      is_grounded_in_context response context_list = false)
  /\ (split (lower response) = [] ->
      is_grounded_in_context response context_list = false)
  /\ ((100 * size (list_to_set (split (lower response)) : gset str)
       <= 15 * length (split (lower response)))%nat ->
      is_grounded_in_context response context_list = false).
Proof.
  assert ((100 * size (shared_tokens response context_list)
           <= 15 * length (split (lower response)))%nat ->
          is_grounded_in_context response context_list = false) as Hmain.
  { intros Hfew. unfold is_grounded_in_context.
    fold (shared_tokens response context_list).
    set (k := Z.of_nat (size (shared_tokens response context_list))).
    set (d := Z.max 1 (Z.of_nat (length (split (lower response))))).
    destruct (Qlt_bool _ _) eqn:Hb; [| done].
    apply Qlt_bool_iff in Hb. exfalso.
    assert (0 < inject_Z d) as Hd.
    { change 0 with (inject_Z 0). rewrite <- Zlt_Qlt. lia. }
    assert (0 <= inject_Z k) as Hk.
    { change 0 with (inject_Z 0). rewrite <- Zle_Qle. lia. }
    assert (inject_Z k / inject_Z d <= 15 # 100) as Hle.
    { apply Qle_shift_div_r; [done |].
      assert (100 * inject_Z k <= 15 * inject_Z d); [| lra].
      change 100 with (inject_Z 100). change 15 with (inject_Z 15).
      rewrite <- !inject_Z_mult, <- Zle_Qle. lia. }
    assert (0 <= inject_Z k / inject_Z d) as Hnn
      by (apply Qle_shift_div_l; lra).
    apply (fl_mono _ _ Hnn) in Hle.
    unfold int_truediv, float_lit in Hb. lra. }
  split; [exact Hmain |]. split; [| split].
  - intros Hnone. apply Hmain. rewrite Hnone, size_empty. lia.
  - intros Hno. apply Hmain.
    pose proof (shared_tokens_le response context_list) as Hle.
    rewrite Hno in Hle |- *.
    change (list_to_set [] : gset str) with (∅ : gset str) in Hle.
    rewrite size_empty in Hle. cbn [length]. lia.
  - intros Hrep. apply Hmain.
    pose proof (shared_tokens_le response context_list). lia.
Qed.

(** X9.  A response checked against itself, as [compute_metrics] does
    for an answer that repeats the expected one: it is grounded exactly
    when its distinct tokens are more than 15% of its tokens (for a
    response of at most [2^50] tokens).  An empty response is not
    grounded in itself. *)
Theorem is_grounded_in_own_text (response : str) :
  (Z.of_nat (length (split (lower response))) <= 2 ^ 50)%Z ->
  is_grounded_in_context response [response] = true
  <-> (15 * length (split (lower response))
       < 100 * size (list_to_set (split (lower response)) : gset str))%nat.
Proof.
  intros Hlen. unfold is_grounded_in_context. cbn [join].
  set (tokens := split (lower response)) in *.
  rewrite (idemp_L (∩) (list_to_set tokens : gset str)).
  pose proof (size_list_to_set_le tokens) as Hsize.
  set (k := size (list_to_set tokens : gset str)) in *.
  rewrite grounded_threshold by lia.
  assert (0 < inject_Z (Z.max 1 (Z.of_nat (length tokens)))) as Hd.
  { change 0 with (inject_Z 0). rewrite <- Zlt_Qlt. lia. }
  split.
  - intros Hlt. apply (Qmult_lt_r _ _ _ Hd) in Hlt.
    assert (inject_Z (Z.of_nat k) / inject_Z (Z.max 1 (Z.of_nat (length tokens)))
            * inject_Z (Z.max 1 (Z.of_nat (length tokens)))
            == inject_Z (Z.of_nat k)) as Hcancel by (field; lra).
    rewrite Hcancel in Hlt.
    assert (inject_Z 15 * inject_Z (Z.max 1 (Z.of_nat (length tokens)))
            < inject_Z 100 * inject_Z (Z.of_nat k)) as Hz.
    { change (inject_Z 15) with 15. change (inject_Z 100) with 100. lra. }
    rewrite <- !inject_Z_mult, <- Zlt_Qlt in Hz. lia.
  - intros Hlt. apply Qlt_shift_div_l; [done |].
    assert (inject_Z 15 * inject_Z (Z.max 1 (Z.of_nat (length tokens)))
            < inject_Z 100 * inject_Z (Z.of_nat k)) as Hz.
    { rewrite <- !inject_Z_mult, <- Zlt_Qlt. lia. }
    change (inject_Z 15) with 15 in Hz. change (inject_Z 100) with 100 in Hz.
    lra.
Qed.

Lemma sum_bool_Permutation {X} (flag : X -> bool) (xs ys : list X) :
  xs ≡ₚ ys -> sum_bool flag xs = sum_bool flag ys.
Proof. intros Hperm. unfold sum_bool. by rewrite Hperm. Qed.

(** X10.  [compute_metrics] does not depend on the order of the
    results. *)
Theorem compute_metrics_order_irrelevant (results results' : list EvaluationResult) :
  results ≡ₚ results' -> compute_metrics results = compute_metrics results'.
Proof.
  intros Hperm. unfold compute_metrics.
  rewrite !(sum_bool_Permutation _ _ _ Hperm).
  by rewrite (Permutation_length Hperm).
Qed.

Lemma sum_bool_all {X} (flag : X -> bool) (xs : list X) :
  Forall (fun x => flag x = true) xs ->
  sum_bool flag xs = Z.of_nat (length xs).
Proof.
  unfold sum_bool. induction 1 as [|x xs Hx _ IH]; [done |].
  rewrite filter_cons, decide_True by done. cbn [length]. lia.
Qed.

Lemma sum_bool_none {X} (flag : X -> bool) (xs : list X) :
  Forall (fun x => flag x = false) xs -> sum_bool flag xs = 0%Z.
Proof.
  unfold sum_bool. induction 1 as [|x xs Hx _ IH]; [done |].
  rewrite filter_cons, decide_False by congruence. done.
Qed.

Lemma int_truediv_same (n : Z) : (0 < n)%Z -> int_truediv n n == 1.
Proof.
  intros Hn. unfold int_truediv.
  assert (0 < inject_Z n) by (change 0 with (inject_Z 0); by rewrite <- Zlt_Qlt).
  rewrite (fl_comp _ 1); [apply fl_one | | field; lra].
  apply Qle_shift_div_l; lra.
Qed.

Lemma int_truediv_zero (n : Z) : int_truediv 0 n = 0.
Proof. unfold int_truediv. apply fl_of_zero. unfold Qdiv. apply Qmult_0_l. Qed.

Lemma py_round_zero : py_round 0 3 = 0.
Proof. by vm_compute. Qed.

(** X11.  The extreme rates.  When [compute_metrics] returns: if every
    result is correct the accuracy is 1.0, if none is it is 0.0; if
    every response is grounded in its expected answer the groundedness
    is 1.0 and the hallucination rate 0.0, and the other way round if
    none is. *)
Theorem compute_metrics_extremes (results : list EvaluationResult)
    (m : Metrics) :
  compute_metrics results = Ret m ->
  (Forall (fun r => is_correct r = true) results -> accuracy m == 1)
  /\ (Forall (fun r => is_correct r = false) results -> accuracy m == 0)
  /\ (Forall (fun r => is_grounded_in_context (response r) [expected_answer r]
                       = true) results ->
      groundedness m == 1 /\ hallucination_rate m == 0)
  /\ (Forall (fun r => is_grounded_in_context (response r) [expected_answer r]
                       = false) results ->
      groundedness m == 0 /\ hallucination_rate m == 1).
Proof.
  unfold compute_metrics. rewrite sum_bool_negb.
  destruct results as [|r0 rest]; [done |].
  assert (0 < Z.of_nat (length (r0 :: rest)))%Z as Htotal
    by (cbn [length]; lia).
  generalize dependent (r0 :: rest). intros results Htotal.
  rewrite !py_truediv_nonzero by lia. intros [= <-].
  cbn [accuracy groundedness hallucination_rate].
  split; [| split; [| split]].
  - intros Hall. rewrite (sum_bool_all _ _ Hall).
    by apply py_round_one, int_truediv_same.
  - intros Hnone. rewrite (sum_bool_none _ _ Hnone), int_truediv_zero.
    by rewrite py_round_zero.
  - intros Hall. rewrite (sum_bool_all _ _ Hall), Z.sub_diag, int_truediv_zero.
    split; [by apply py_round_one, int_truediv_same | by rewrite py_round_zero].
  - intros Hnone. rewrite (sum_bool_none _ _ Hnone), Z.sub_0_r, int_truediv_zero.
    split; [by rewrite py_round_zero | by apply py_round_one, int_truediv_same].
Qed.

End GroundingEdges.

(** An empty response, and a response that repeats one word seven
    times against a context made of that word. *)
Lemma is_grounded_in_context_needs_overlap_witness :
  is_grounded_in_context (ops := Latin1) (u "") [u "EBITDA"] = false
  /\ is_grounded_in_context (ops := Latin1) (u "si si si si si si si") [u "si"]
     = false.
Proof.
  split.
  - destruct (is_grounded_in_context_needs_overlap (ops := Latin1)
                (u "") [u "EBITDA"]) as (_ & _ & Hempty & _).
    by apply Hempty.
  - destruct (is_grounded_in_context_needs_overlap (ops := Latin1)
                (u "si si si si si si si") [u "si"]) as (_ & _ & _ & Hrep).
    apply Hrep. apply Nat.leb_le. by vm_compute.
Defined.

(** Four tokens, all distinct. *)
Lemma is_grounded_in_own_text_witness :
  is_grounded_in_context (ops := Latin1)
    (u "El EBITDA fue 120") [u "El EBITDA fue 120"] = true.
Proof.
  apply (is_grounded_in_own_text (ops := Latin1)); [by vm_compute |].
  apply Nat.ltb_lt. by vm_compute.
Defined.

Lemma compute_metrics_order_irrelevant_witness :
  compute_metrics (ops := Latin1)
    [{| question := u "q1"; response := u "120"; expected_answer := u "120";
        is_correct := true; reasoning := u "" |};
     {| question := u "q2"; response := u "no"; expected_answer := u "95";
        is_correct := false; reasoning := u "" |}]
  = compute_metrics (ops := Latin1)
      [{| question := u "q2"; response := u "no"; expected_answer := u "95";
          is_correct := false; reasoning := u "" |};
       {| question := u "q1"; response := u "120"; expected_answer := u "120";
          is_correct := true; reasoning := u "" |}].
Proof.
  apply compute_metrics_order_irrelevant, perm_swap.
Defined.

(** Two results, both correct. *)
Lemma compute_metrics_extremes_witness :
  exists m,
    compute_metrics (ops := Latin1)
      [{| question := u "q1"; response := u "120"; expected_answer := u "120";
          is_correct := true; reasoning := u "" |};
       {| question := u "q2"; response := u "95"; expected_answer := u "no";
          is_correct := true; reasoning := u "" |}] = Ret m
    /\ Qeq (accuracy m) 1.
Proof.
  destruct (compute_metrics (ops := Latin1) _) as [m | e] eqn:Hrun.
  - exists m. split; [reflexivity |].
    apply (compute_metrics_extremes (ops := Latin1) _ m Hrun).
    by repeat constructor.
  - vm_compute in Hrun. discriminate.
Defined.

(** ** The pipeline: one query *)

Section RetryEvents.
Context {svc : Services}.

Lemma rerank_loop_events attempts q docs k :
  forall t,
    exists t', (rerank_loop attempts q docs k t).1 = t ++ t'
               /\ Forall (retry_event q docs k) t'.
Proof.
  induction attempts as [|attempt rest IH]; intros t.
  - exists []. by rewrite app_nil_r.
  - destruct (co_rerank (count_rerank t) q docs k) as [idxs | e] eqn:Hreply.
    + rewrite (rerank_loop_final _ _ _ _ _ _ _ Hreply I).
      eexists. split; [reflexivity |]. by repeat constructor.
    + destruct (is_too_many e) eqn:Hcls.
      * rewrite (rerank_loop_retry _ _ _ _ _ _ _ Hreply Hcls).
        destruct (IH (t ++ failed_attempt q docs k (Z.succ attempt)))
          as (t' & -> & Hev).
        exists (failed_attempt q docs k (Z.succ attempt) ++ t').
        split; [by rewrite app_assoc |].
        apply Forall_app. split; [by repeat constructor | done].
      * rewrite (rerank_loop_final _ _ _ _ _ _ _ Hreply Hcls).
        eexists. split; [reflexivity |]. by repeat constructor.
Qed.

End RetryEvents.

Section ContainsFacts.

Lemma Contains_app_r (x pre s : str) : Contains x s -> Contains x (pre ++ s).
Proof.
  intros (p1 & p2 & ->). exists (pre ++ p1), p2. by rewrite <- !app_assoc.
Qed.

Lemma Contains_join (sep d : str) (parts : list str) :
  d ∈ parts -> Contains d (join sep parts).
Proof.
  induction parts as [|p parts IH]; [by intros ?%elem_of_nil |].
  intros Hin. cbn [join]. destruct parts as [|p' parts].
  - apply list_elem_of_singleton in Hin as ->. exists [], []. by rewrite app_nil_r.
  - apply elem_of_cons in Hin as [-> | Hin].
    + by exists [], (sep ++ join sep (p' :: parts)).
    + apply Contains_app_r, Contains_app_r, IH, Hin.
Qed.

End ContainsFacts.

Section PipelineRuns.
Context {ops : StrOps} {svc : Services}.

Lemma process_query_run (q : str) (t : list event) :
  process_query q t
  = match search q 10 t with
    | (t1, Raise x) => (t1, Raise x)
    | (t1, Ret docs) =>
      match generate_response q docs t1 with
      | (t2, Raise x) => (t2, Raise x)
      | (t2, Ret resp) => (t2, Ret (ethical_guardrails resp))
      end
    end.
Proof.
  unfold process_query, bind, ret.
  destruct (search q 10 t) as [t1 [docs | x]]; [| done].
  by destruct (generate_response q docs t1) as [t2 [resp | x]].
Qed.

Lemma filtered_guardrails (resp : str) : filtered (ethical_guardrails resp).
Proof.
  unfold filtered. destruct (ethical_guardrails_forms resp) as [-> | [-> | ->]];
    [by left | by right; left | right; right; by exists resp].
Qed.

(** X12.  The requests of [process_query].  When retrieval raises,
    [process_query] raises the same exception and makes no chat
    request.  When retrieval returns passages, exactly one chat request
    follows, with the system prompt and a user message that contains
    the query and every passage; an exception of that request is raised
    to the caller, a response is returned filtered.  The first request
    is the one to the datastore, for 30 passages; what follows it are
    delays, rerank requests with the same query, the candidates of the
    datastore and [top_n = 10], and the chat request. *)
Theorem process_query_requests (query : str) (t : list event) :
  (forall t1 x,
     search query 10 t = (t1, Raise x) ->
     process_query query t = (t1, Raise x))
  /\ (forall t1 docs,
        search query 10 t = (t1, Ret docs) ->
        exists user_message,
          (process_query query t).1
          = t1 ++ [InvokeAI SYSTEM_PROMPT user_message]
          /\ Contains query user_message
          /\ (forall d, d ∈ docs -> Contains d user_message)
          /\ (process_query query t).2
             = match invoke_ai SYSTEM_PROMPT user_message with
               | Ret resp => Ret (ethical_guardrails resp)
               | Raise x => Raise x
               end)
  /\ (exists t',
        (process_query query t).1 = t ++ DatastoreSearch query 30 :: t'
        /\ forall docs,
             datastore_search query 30 = Ret docs ->
             Forall (fun ev =>
                       retry_event query docs 10 ev
                       \/ exists user_message,
                            ev = InvokeAI SYSTEM_PROMPT user_message) t').
Proof.
  split; [| split].
  - intros t1 x Hs. by rewrite process_query_run, Hs.
  - intros t1 docs Hs. rewrite process_query_run, Hs.
    unfold generate_response. eexists. split.
    + by destruct (invoke_ai _ _).
    + split; [| split].
      * exists (u "<context>" ++ nl ++ join nl docs ++ nl ++ u "</context>"
                  ++ nl ++ u "<question>" ++ nl), (nl ++ u "</question>").
        by rewrite <- !app_assoc.
      * intros d Hd.
        destruct (Contains_join nl d docs Hd) as (p1 & p2 & ->).
        exists (u "<context>" ++ nl ++ p1),
               (p2 ++ nl ++ u "</context>" ++ nl ++ u "<question>" ++ nl
                  ++ query ++ nl ++ u "</question>").
        by rewrite <- !app_assoc.
      * by destruct (invoke_ai _ _).
  - rewrite process_query_run. change 30 with (10 * 3).
    destruct (datastore_search query (10 * 3)) as [docs | e] eqn:Hds.
    + rewrite (search_unfold _ _ _ _ Hds).
      destruct (rerank_loop_events (py_range 5) query docs 10
                  (t ++ [DatastoreSearch query (10 * 3); Sleep 6]))
        as (t' & Ht' & Hev).
      destruct (rerank_loop _ _ _ _ _) as [t1 [idxs | e]];
        cbn [fst] in Ht'; subst t1.
      * destruct (comprehension (py_getitem docs) idxs) as [result | e].
        -- unfold generate_response.
           set (user_message := u "<context>" ++ _).
           exists (Sleep 6 :: t' ++ [InvokeAI SYSTEM_PROMPT user_message]).
           split.
           ++ destruct (invoke_ai _ _); cbn [fst];
                by rewrite <- !app_assoc.
           ++ intros docs' [= <-]. constructor; [by left |].
              apply Forall_app. split.
              ** eapply Forall_impl; [exact Hev | by left].
              ** constructor; [right; by eexists | constructor].
        -- exists (Sleep 6 :: t'). split; [by rewrite <- app_assoc |].
           intros docs' [= <-]. constructor; [by left |].
           eapply Forall_impl; [exact Hev | by left].
      * exists (Sleep 6 :: t'). split; [by rewrite <- app_assoc |].
        intros docs' [= <-]. constructor; [by left |].
        eapply Forall_impl; [exact Hev | by left].
    + exists []. rewrite (search_datastore_failure _ _ _ _ Hds).
      split; [done |]. intros docs' [=].
Qed.

End PipelineRuns.

(** The reranker is rate-limited five times: no chat request is made.
    And a run where retrieval returns one passage. *)
Lemma process_query_requests_witness :
  process_query (ops := Latin1) (svc := scripted [] [u "doc"] (u "ok") 0)
    (u "ebitda") []
  = ((search (svc := scripted [] [u "doc"] (u "ok") 0) (u "ebitda") 10 []).1,
     Raise (Exn RuntimeError (u "Demasiados intentos fallidos con Cohere")))
  /\ exists user_message,
       (process_query (ops := Latin1) (svc := one_passage) (u "¿EBITDA?") []).1
       = (search (svc := one_passage) (u "¿EBITDA?") 10 []).1
           ++ [InvokeAI SYSTEM_PROMPT user_message]
       /\ Contains (u "EBITDA ajustado: 120 millones") user_message.
Proof.
  split.
  - destruct (process_query_requests (ops := Latin1)
                (svc := scripted [] [u "doc"] (u "ok") 0) (u "ebitda") [])
      as [Hfail _].
    apply Hfail. by vm_compute.
  - destruct (process_query_requests (ops := Latin1) (svc := one_passage)
                (u "¿EBITDA?") []) as (_ & Hok & _).
    destruct (Hok (search (svc := one_passage) (u "¿EBITDA?") 10 []).1
                [u "EBITDA ajustado: 120 millones"])
      as (user_message & Htrace & _ & Hdocs & _); [by vm_compute |].
    exists user_message. split; [exact Htrace |].
    apply Hdocs, list_elem_of_here.
Defined.

Section SingleQuestion.
Context {ops : StrOps} {svc : Services}.
Local Open Scope Q_scope.

Lemma process_query_slept (q : str) (t : list event) :
  exists t',
    (process_query q t).1 = t ++ t'
    /\ 0 <= slept t' <= 206
    /\ (forall s, (process_query q t).2 = Ret s -> 16 <= slept t' /\ filtered s).
Proof.
  rewrite process_query_run.
  destruct (search_slept q 10 t) as (t' & Htrace & Hbound & Hfail & Hlow).
  destruct (search q 10 t) as [t1 [docs | x]] eqn:Hs; cbn [fst] in Htrace;
    subst t1.
  - assert (16 <= slept t') as H16.
    { destruct (datastore_search q (10 * 3)) as [docs' | e] eqn:Hds;
        [by apply (Hlow docs') |].
      by rewrite (search_datastore_failure _ _ _ _ Hds) in Hs. }
    unfold generate_response.
    set (user_message := u "<context>" ++ _).
    assert (slept (t' ++ [InvokeAI SYSTEM_PROMPT user_message]) == slept t')
      as Hsl by (rewrite slept_app; cbn [slept]; lra).
    exists (t' ++ [InvokeAI SYSTEM_PROMPT user_message]).
    destruct (invoke_ai _ _) as [resp | x]; cbn [fst snd];
      (split; [symmetry; apply app_assoc |]); (split; [lra |]).
    + intros s [= <-]. split; [lra | apply filtered_guardrails].
    + done.
  - exists t'. split; [done |]. split; [done | done].
Qed.

Lemma evaluate_returns (q r e : str) (t : list event) :
  exists t' res,
    evaluate q r e t = (t ++ t', Ret res)
    /\ question res = q /\ response res = r /\ expected_answer res = e
    /\ (t' = [] \/ t' = [Sleep (3 # 2); EmbeddingsCreate r e]).
Proof.
  rewrite evaluate_run. cbv zeta.
  destruct (Qle_bool _ _).
  - exists []. eexists. rewrite app_nil_r. repeat split. by left.
  - eexists _, _. repeat split. by right.
Qed.

(** X13.  [_evaluate_single_question] raises what [process_query]
    raises.  When [process_query] returns a response: a pipeline built
    without evaluator raises [AttributeError] after the requests of
    [process_query] have been made; with the evaluator of
    [evaluator.py] a result is returned, for the question and the
    expected answer given, whose response is the filtered one, after at
    most one more request (for the embeddings). *)
Theorem evaluate_single_question_outcomes (q e : str) (t : list event) :
  (forall evaluator t1 x,
     process_query q t = (t1, Raise x) ->
     RAGPipeline._evaluate_single_question evaluator q e t = (t1, Raise x))
  /\ (forall t1 resp,
        process_query q t = (t1, Ret resp) ->
        RAGPipeline._evaluate_single_question None q e t
        = (t1, Raise no_evaluator)
        /\ exists t2 res,
             RAGPipeline._evaluate_single_question (Some evaluate) q e t
             = (t1 ++ t2, Ret res)
             /\ question res = q /\ response res = resp
             /\ expected_answer res = e
             /\ filtered resp
             /\ (t2 = [] \/ t2 = [Sleep (3 # 2); EmbeddingsCreate resp e])).
Proof.
  unfold RAGPipeline._evaluate_single_question, bind, ret, raise. split.
  - intros evaluator t1 x ->. done.
  - intros t1 resp Hpq. rewrite Hpq. split; [done |].
    destruct (evaluate_returns q resp e t1) as (t2 & res & -> & Hq & Hr & He & Ht).
    exists t2, res. repeat split; try done.
    destruct (process_query_slept q t) as (t' & _ & _ & Hf).
    rewrite Hpq in Hf. by destruct (Hf resp eq_refl).
Qed.

Lemma evaluate_single_question_run (q e : str) (t : list event) :
  exists t',
    (RAGPipeline._evaluate_single_question (Some evaluate) q e t).1 = t ++ t'
    /\ 0 <= slept t' <= 415 # 2
    /\ (forall res,
          (RAGPipeline._evaluate_single_question (Some evaluate) q e t).2
          = Ret res ->
          16 <= slept t' /\ question res = q /\ expected_answer res = e
          /\ filtered (response res)).
Proof.
  unfold RAGPipeline._evaluate_single_question, bind, ret.
  destruct (process_query_slept q t) as (t1 & Htrace & Hbound & Hok).
  destruct (process_query q t) as [t0 [resp | x]]; cbn [fst snd] in *; subst t0.
  - destruct (Hok resp eq_refl) as [H16 Hf].
    destruct (evaluate_returns q resp e (t ++ t1))
      as (t2 & res & -> & Hq & Hr & He & Ht).
    exists (t1 ++ t2). cbn [fst snd]. split; [by rewrite app_assoc |].
    pose proof (slept_app t1 t2) as Hsl.
    assert (0 <= slept t2 <= 3 # 2) as Hs2.
    { destruct Ht as [-> | ->]; cbn [slept]; lra. }
    split; [lra |]. intros res' [= <-]. rewrite Hr. repeat split; try done. lra.
  - exists t1. split; [done |]. split; [lra | done].
Qed.

End SingleQuestion.

Section SuffixedResponses.
Context {ops : StrOps} {svc : Services}.
Local Open Scope Q_scope.


Lemma filtered_length (resp : str) :
  filtered resp -> (58 <= length resp)%nat.
Proof.
  intros [-> | [-> | [raw ->]]].
  - change (length investment_refusal) with 75%nat. lia.
  - change (length prediction_refusal) with 87%nat. lia.
  -
    rewrite length_app. change (length source_suffix) with 58%nat. lia.
Qed.

(** X14.  The response that [_evaluate_single_question] hands to the
    evaluator went through [ethical_guardrails]: it is a refusal or
    ends with the source suffix, 58 code points long.  When
    lower-casing keeps the length of the response and of the expected
    answer, the literal similarity stays below the threshold for every
    expected answer of at most 34 code points, and also when the
    generator returned the expected answer itself, of at most 86 code
    points: the embedding request is made and the verdict is the one of
    the semantic score. *)
Theorem filtered_response_needs_embeddings (q e resp : str)
    (t t1 : list event) :
  process_query q t = (t1, Ret resp) ->
  length (lower resp) = length resp ->
  length (lower e) = length e ->
  (length e <= 34)%nat \/ (resp = e ++ source_suffix /\ (length e <= 86)%nat) ->
  exists res,
    RAGPipeline._evaluate_single_question (Some evaluate) q e t
    = (t1 ++ [Sleep (3 # 2); EmbeddingsCreate resp e], Ret res)
    /\ (is_correct res = true <->
        float_lit 80 100
        <= match embeddings_cosine resp e with
           | Ret cosine_sim => py_round cosine_sim 3
           | Raise _ => float_lit 0 1
           end).
Proof.
  intros Hpq Hlr Hle Hshort.
  assert (filtered resp) as Hf.
  { destruct (process_query_slept q t) as (t' & _ & _ & Hok).
    rewrite Hpq in Hok. by destruct (Hok resp eq_refl). }
  apply filtered_length in Hf.
  destruct (evaluate_after_length_gap q resp e t1) as (res & Hrun & Hiff).
  { rewrite Hlr, Hle. destruct Hshort as [Hs | [-> Hs]].
    - lia.
    - rewrite length_app in *. change (length source_suffix) with 58%nat in *.
      lia. }
  exists res. split; [| done].
  unfold RAGPipeline._evaluate_single_question, bind, ret.
  by rewrite Hpq, Hrun.
Qed.

End SuffixedResponses.

(** A pipeline without evaluator, and one with the evaluator of
    [evaluator.py]. *)
Lemma evaluate_single_question_outcomes_witness :
  (RAGPipeline._evaluate_single_question (ops := Latin1) (svc := one_passage)
     None (u "¿EBITDA?") (u "120 millones") []).2 = Raise no_evaluator
  /\ exists t2 res,
       RAGPipeline._evaluate_single_question (ops := Latin1)
         (svc := one_passage)
         (Some (evaluate (ops := Latin1) (svc := one_passage)))
         (u "¿EBITDA?") (u "120 millones") []
       = ((process_query (ops := Latin1) (svc := one_passage)
             (u "¿EBITDA?") []).1 ++ t2, Ret res)
       /\ response res = u "120 millones" ++ source_suffix.
Proof.
  destruct (evaluate_single_question_outcomes (ops := Latin1)
              (svc := one_passage) (u "¿EBITDA?") (u "120 millones") [])
    as [_ Hok].
  destruct (Hok (process_query (ops := Latin1) (svc := one_passage)
                   (u "¿EBITDA?") []).1
                (u "120 millones" ++ source_suffix))
    as (Hnone & t2 & res & Hrun & _ & Hresp & _); [by vm_compute |].
  split; [by rewrite Hnone |]. exists t2, res. by split.
Defined.

(** The generator returns the expected answer itself. *)
Lemma filtered_response_needs_embeddings_witness :
  exists res,
    RAGPipeline._evaluate_single_question (ops := Latin1) (svc := one_passage)
      (Some (evaluate (ops := Latin1) (svc := one_passage)))
      (u "¿EBITDA?") (u "120 millones") []
    = ((process_query (ops := Latin1) (svc := one_passage)
          (u "¿EBITDA?") []).1
         ++ [Sleep (3 # 2);
             EmbeddingsCreate (u "120 millones" ++ source_suffix)
               (u "120 millones")],
       Ret res)
    /\ is_correct res = true.
Proof.
  destruct (filtered_response_needs_embeddings (ops := Latin1)
              (svc := one_passage) (u "¿EBITDA?") (u "120 millones")
              (u "120 millones" ++ source_suffix) []
              (process_query (ops := Latin1) (svc := one_passage)
                 (u "¿EBITDA?") []).1)
    as (res & Hrun & Hiff).
  - by vm_compute.
  - by vm_compute.
  - by vm_compute.
  - right. split; [done |]. apply Nat.leb_le. by vm_compute.
  - exists res. split; [exact Hrun |]. apply Hiff. by vm_compute.
Defined.

(** ** The pipeline: a batch of sample questions *)

Section DictLookups.

Lemma comprehension_getitem_Ret (key : str) (items : list (gmap str str))
    (values : list str) :
  comprehension (py_dict_getitem key) items = Ret values <->
  Forall2 (fun item v => item !! key = Some v) items values.
Proof.
  revert values. induction items as [|item items IH]; intros values;
    cbn [comprehension].
  - split; [intros [= <-]; constructor | by inversion 1].
  - unfold py_dict_getitem at 1. destruct (item !! key) as [v|] eqn:Hv.
    + destruct (comprehension (py_dict_getitem key) items) as [vs | e].
      * split.
        -- intros [= <-]. constructor; [done | by apply IH].
        -- inversion 1 as [|? v' ? vs' Hv' Hvs']; subst.
           apply IH in Hvs'. congruence.
      * split; [done |]. inversion 1 as [|? v' ? vs' Hv' Hvs']; subst.
        by apply IH in Hvs'.
    + split; [done |]. inversion 1; congruence.
Qed.

Lemma comprehension_getitem_Raise (key : str) (items : list (gmap str str)) :
  Exists (fun item => item !! key = None) items ->
  comprehension (py_dict_getitem key) items = Raise (key_error key).
Proof.
  induction 1 as [item items Hnone | item items _ IH]; cbn [comprehension].
  - unfold py_dict_getitem. by rewrite Hnone.
  - rewrite IH. unfold py_dict_getitem. by destruct (item !! key).
Qed.

Lemma comprehension_getitem_total (key : str) (items : list (gmap str str)) :
  Forall (fun item => is_Some (item !! key)) items ->
  exists values, comprehension (py_dict_getitem key) items = Ret values.
Proof.
  induction 1 as [|item items [v Hv] _ [vs IH]]; [by exists [] |].
  exists (v :: vs). cbn [comprehension]. rewrite IH.
  unfold py_dict_getitem. by rewrite Hv.
Qed.

End DictLookups.

Section PipelineEvaluate.
Context {ops : StrOps} {svc : Services} {fs : FileSystem}.
Variable evaluator : option (str -> str -> str -> M EvaluationResult).

Lemma call_files {A} (m : M A) (w : world) : files (call m w).1 = files w.
Proof. unfold call. by destruct (m (calls w)). Qed.

Lemma evaluate_loop_files pairs :
  forall results w,
    files (RAGPipeline.evaluate_loop evaluator pairs results w).1 = files w.
Proof.
  induction pairs as [|[q expected] pairs IH]; intros results w; [done |].
  cbn [RAGPipeline.evaluate_loop]. unfold run_bind.
  cbn [call sleep emit].
  match goal with
  | |- context [call ?m ?w0] => pose proof (call_files m w0) as Hf
  end.
  destruct (call (RAGPipeline._evaluate_single_question evaluator q expected) _)
    as [w1 [r | e]]; cbn [fst files] in Hf.
  - by rewrite IH.
  - done.
Qed.

Lemma evaluate_loop_length pairs :
  forall results w w' rs,
    RAGPipeline.evaluate_loop evaluator pairs results w = (w', Ret rs) ->
    length rs = (length results + length pairs)%nat.
Proof.
  induction pairs as [|[q expected] pairs IH]; intros results w w' rs.
  - intros [= _ <-]. cbn. lia.
  - cbn [RAGPipeline.evaluate_loop]. unfold run_bind. cbn [call sleep emit].
    destruct (call (RAGPipeline._evaluate_single_question evaluator q expected) _)
      as [w1 [r | e]]; [| done].
    intros Hrun%IH. rewrite Hrun, length_app. cbn. lia.
Qed.

(** X15.  [RAGPipeline.evaluate] reads the key "question" of every
    item, then the key "answer" of every item, before anything else.  A
    missing key raises [KeyError] for that key with no delay, no
    request and no file written; a missing "question" is reported
    before a missing "answer". *)
Theorem evaluate_missing_key (sample_questions : list (gmap str str))
    (w : world) :
  (Exists (fun item => item !! u "question" = None) sample_questions ->
   RAGPipeline.evaluate evaluator sample_questions w
   = (w, Raise (key_error (u "question"))))
  /\ (Forall (fun item => is_Some (item !! u "question")) sample_questions ->
      Exists (fun item => item !! u "answer" = None) sample_questions ->
      RAGPipeline.evaluate evaluator sample_questions w
      = (w, Raise (key_error (u "answer")))).
Proof.
  unfold RAGPipeline.evaluate, run_bind, run_lift. split.
  - intros Hq. by rewrite (comprehension_getitem_Raise _ _ Hq).
  - intros Hq Ha. destruct (comprehension_getitem_total _ _ Hq) as [qs ->].
    by rewrite (comprehension_getitem_Raise _ _ Ha).
Qed.

(** X16.  The summary file of [RAGPipeline.evaluate].  When [evaluate]
    raises, no file has been written.  When it returns, the list of
    questions was not empty, there is one result per question, and
    "results/evaluation_summary.json" holds the metrics of exactly the
    results returned.  On the empty list [evaluate] raises
    [ZeroDivisionError] and leaves everything as it was. *)
Theorem evaluate_writes_all_or_nothing (sample_questions : list (gmap str str))
    (w : world) :
  (forall w' x,
     RAGPipeline.evaluate evaluator sample_questions w = (w', Raise x) ->
     files w' = files w)
  /\ (forall w' results,
        RAGPipeline.evaluate evaluator sample_questions w = (w', Ret results) ->
        sample_questions <> []
        /\ length results = length sample_questions
        /\ open_for_writing (u "results/evaluation_summary.json") = Ret tt
        /\ exists metrics,
             compute_metrics results = Ret metrics
             /\ files w'
                = <[u "results/evaluation_summary.json" := metrics]> (files w))
  /\ (sample_questions = [] ->
      exists x,
        RAGPipeline.evaluate evaluator sample_questions w = (w, Raise x)
        /\ exn_cls x = ZeroDivisionError).
Proof.
  unfold RAGPipeline.evaluate, run_bind, run_lift.
  split; [| split].
  - intros w' x.
    destruct (comprehension (py_dict_getitem (u "question")) sample_questions)
      as [qs | e]; [| by intros [= <- _]].
    destruct (comprehension (py_dict_getitem (u "answer")) sample_questions)
      as [es | e]; [| by intros [= <- _]].
    pose proof (evaluate_loop_files (zip qs es) [] w) as Hfiles.
    destruct (RAGPipeline.evaluate_loop evaluator (zip qs es) [] w)
      as [w1 [rs | e]]; cbn [fst] in Hfiles; [| by intros [= <- _]].
    destruct (compute_metrics rs) as [metrics | e]; [| by intros [= <- _]].
    unfold json_dump_to.
    destruct (open_for_writing _) as [[] | e]; [done | by intros [= <- _]].
  - intros w' results.
    destruct (comprehension (py_dict_getitem (u "question")) sample_questions)
      as [qs | e] eqn:Hqs; [| done].
    destruct (comprehension (py_dict_getitem (u "answer")) sample_questions)
      as [es | e] eqn:Hes; [| done].
    apply comprehension_getitem_Ret, Forall2_length in Hqs, Hes.
    pose proof (evaluate_loop_files (zip qs es) [] w) as Hfiles.
    destruct (RAGPipeline.evaluate_loop evaluator (zip qs es) [] w)
      as [w1 [rs | e]] eqn:Hloop; cbn [fst] in Hfiles; [| done].
    apply evaluate_loop_length in Hloop.
    rewrite length_zip_with in Hloop. cbn [length] in Hloop.
    destruct (compute_metrics rs) as [metrics | e] eqn:Hm; [| done].
    unfold json_dump_to.
    destruct (open_for_writing _) as [[] | e]; [| done].
    intros [= <- <-]. cbn [files].
    split; [| split; [lia | split; [done |]]].
    + intros ->. cbn [length] in *.
      assert (rs = []) as -> by (destruct rs; [done | cbn in Hloop; lia]).
      done.
    + exists metrics. by rewrite Hfiles.
  - intros ->. cbn [comprehension zip_with RAGPipeline.evaluate_loop].
    unfold run_ret. eexists. split; reflexivity.
Qed.

End PipelineEvaluate.

Section BatchEvaluation.
Context {ops : StrOps} {svc : Services} {fs : FileSystem}.
Local Open Scope Q_scope.

Lemma evaluate_loop_run pairs :
  forall results w,
    exists t',
      calls (RAGPipeline.evaluate_loop (Some evaluate) pairs results w).1
      = calls w ++ t'
      /\ 0 <= slept t' <= (427 # 2) * inject_Z (Z.of_nat (length pairs))
      /\ (forall rs,
            (RAGPipeline.evaluate_loop (Some evaluate) pairs results w).2
            = Ret rs ->
            22 * inject_Z (Z.of_nat (length pairs)) <= slept t'
            /\ exists new,
                 rs = results ++ new
                 /\ Forall2 (fun (p : str * str) r =>
                               question r = p.1 /\ expected_answer r = p.2
                               /\ filtered (response r)) pairs new).
Proof.
  induction pairs as [|[q expected] pairs IH]; intros results w.
  - exists []. rewrite app_nil_r. cbn [RAGPipeline.evaluate_loop run_ret fst snd].
    split; [done |]. split; [by vm_compute |].
    intros rs [= <-]. split; [by vm_compute |].
    exists []. by rewrite app_nil_r.
  - cbn [RAGPipeline.evaluate_loop length].
    unfold run_bind, call, sleep, emit. cbn [calls files].
    destruct (evaluate_single_question_run q expected (calls w ++ [Sleep 6]))
      as (t1 & Htrace & Hbound & Hok).
    rewrite Nat2Z.inj_succ. unfold Z.succ. rewrite inject_Z_plus.
    change (inject_Z 1) with 1.
    assert (0 <= inject_Z (Z.of_nat (length pairs))) as Hn.
    { change 0 with (inject_Z 0). rewrite <- Zle_Qle. lia. }
    destruct (RAGPipeline._evaluate_single_question _ q expected _)
      as [t0 [r | x]]; cbn [fst snd] in *; subst t0.
    + destruct (Hok r eq_refl) as (H16 & Hq & He & Hf).
      destruct (IH (results ++ [r])
                  {| calls := (calls w ++ [Sleep 6]) ++ t1; files := files w |})
        as (t2 & Htrace2 & Hbound2 & Hok2).
      cbn [calls] in Htrace2.
      exists ([Sleep 6] ++ t1 ++ t2). split; [by rewrite Htrace2, <- !app_assoc |].
      assert (slept ([Sleep 6] ++ t1 ++ t2) == 6 + (slept t1 + slept t2)) as Hsl
        by (cbn [app slept]; rewrite slept_app; lra).
      split; [lra |].
      intros rs Hrs. destruct (Hok2 rs Hrs) as (Hlow & new & -> & Hall).
      split; [lra |]. exists (r :: new). split; [by rewrite <- app_assoc |].
      by constructor.
    + exists ([Sleep 6] ++ t1). split; [by rewrite <- app_assoc |].
      cbn [app slept]. split; [lra | done].
Qed.

(** X17.  The delays of [RAGPipeline.evaluate] with the evaluator of
    [evaluator.py], for [n] sample questions: at most [213.5 * n]
    seconds in all, and at least [22 * n] seconds when it returns. *)
Theorem evaluate_pacing (sample_questions : list (gmap str str)) (w : world) :
  exists t',
    calls (RAGPipeline.evaluate (Some evaluate) sample_questions w).1
    = calls w ++ t'
    /\ 0 <= slept t'
         <= (427 # 2) * inject_Z (Z.of_nat (length sample_questions))
    /\ (forall results,
          (RAGPipeline.evaluate (Some evaluate) sample_questions w).2
          = Ret results ->
          22 * inject_Z (Z.of_nat (length sample_questions)) <= slept t').
Proof.
  assert (0 <= inject_Z (Z.of_nat (length sample_questions))) as Hn.
  { change 0 with (inject_Z 0). rewrite <- Zle_Qle. lia. }
  unfold RAGPipeline.evaluate, run_bind, run_lift.
  destruct (comprehension (py_dict_getitem (u "question")) sample_questions)
    as [qs | e] eqn:Hqs.
  2:{ exists []. rewrite app_nil_r. cbn [fst snd slept].
      split; [done |]. split; [lra | done]. }
  destruct (comprehension (py_dict_getitem (u "answer")) sample_questions)
    as [es | e] eqn:Hes.
  2:{ exists []. rewrite app_nil_r. cbn [fst snd slept].
      split; [done |]. split; [lra | done]. }
  apply comprehension_getitem_Ret, Forall2_length in Hqs, Hes.
  destruct (evaluate_loop_run (zip qs es) [] w) as (t' & Htrace & Hbound & Hok).
  rewrite length_zip_with, <- Hqs, <- Hes, Nat.min_id in Hbound, Hok.
  exists t'.
  destruct (RAGPipeline.evaluate_loop _ (zip qs es) [] w) as [w1 [rs | e]];
    cbn [fst snd] in *; [| by split; [| split]].
  destruct (Hok rs eq_refl) as [Hlow _].
  destruct (compute_metrics rs) as [metrics | e]; [| by split; [| split]].
  unfold json_dump_to.
  destruct (open_for_writing _) as [[] | e]; cbn [fst snd calls];
    by split; [| split].
Qed.

(** X18.  When [RAGPipeline.evaluate] returns, with the evaluator of
    [evaluator.py], the results follow the sample questions in order:
    each result carries the question and the expected answer of its
    item, and a response that went through [ethical_guardrails]. *)
Theorem evaluate_results_follow_questions
    (sample_questions : list (gmap str str)) (w w' : world)
    (results : list EvaluationResult) :
  RAGPipeline.evaluate (Some evaluate) sample_questions w = (w', Ret results) ->
  Forall2 (fun (item : gmap str str) r =>
             item !! u "question" = Some (question r)
             /\ item !! u "answer" = Some (expected_answer r)
             /\ filtered (response r))
          sample_questions results.
Proof.
  unfold RAGPipeline.evaluate, run_bind, run_lift.
  destruct (comprehension (py_dict_getitem (u "question")) sample_questions)
    as [qs | e] eqn:Hqs; [| done].
  destruct (comprehension (py_dict_getitem (u "answer")) sample_questions)
    as [es | e] eqn:Hes; [| done].
  apply comprehension_getitem_Ret in Hqs, Hes.
  destruct (evaluate_loop_run (zip qs es) [] w) as (t' & _ & _ & Hok).
  destruct (RAGPipeline.evaluate_loop _ (zip qs es) [] w) as [w1 [rs | e]];
    cbn [snd] in Hok; [| done].
  destruct (Hok rs eq_refl) as (_ & new & -> & Hall). cbn [app].
  destruct (compute_metrics new) as [metrics | e]; [| done].
  unfold json_dump_to. destruct (open_for_writing _) as [[] | e]; [| done].
  intros [= _ <-]. clear Hok.
  revert qs es new Hqs Hes Hall.
  induction sample_questions as [|item items IH]; intros qs es new Hqs Hes Hall.
  - inversion Hqs; subst. inversion Hall; subst. constructor.
  - inversion Hqs as [|? q' ? qs' Hq Hqs']; subst.
    inversion Hes as [|? e' ? es' He Hes']; subst.
    inversion Hall as [|? r ? new' (Hrq & Hre & Hf) Hall']; subst.
    cbn in Hrq, Hre. constructor; [by rewrite Hrq, Hre | by eapply IH].
Qed.

End BatchEvaluation.

(** A sample question without the key "answer". *)
Lemma evaluate_missing_key_witness :
  RAGPipeline.evaluate (ops := Latin1) (svc := one_passage) (fs := writable)
    None [sample (u "¿EBITDA?") (u "120"); {[ u "question" := u "¿Deuda?" ]}]
    nothing_yet
  = (nothing_yet, Raise (key_error (u "answer"))).
Proof.
  destruct (evaluate_missing_key (ops := Latin1) (svc := one_passage)
              (fs := writable) None
              [sample (u "¿EBITDA?") (u "120"); {[ u "question" := u "¿Deuda?" ]}]
              nothing_yet) as [_ Hanswer].
  apply Hanswer.
  - apply Forall_cons. split; [eexists; by vm_compute |].
    apply Forall_cons. split; [eexists; by vm_compute | constructor].
  - apply Exists_cons_tl, Exists_cons_hd. by vm_compute.
Defined.

(** One question, answered; the summary is written.  The same run
    where [results/] is missing; and the empty list of questions. *)
Lemma evaluate_writes_all_or_nothing_witness :
  (exists w' results metrics,
     RAGPipeline.evaluate (ops := Latin1) (svc := one_passage) (fs := writable)
       (Some (evaluate (ops := Latin1) (svc := one_passage)))
       [sample (u "¿EBITDA?") (u "120 millones")] nothing_yet
     = (w', Ret results)
     /\ compute_metrics (ops := Latin1) results = Ret metrics
     /\ files w' = <[u "results/evaluation_summary.json" := metrics]> ∅)
  /\ (exists w' x,
        RAGPipeline.evaluate (ops := Latin1) (svc := one_passage)
          (fs := no_results_directory)
          (Some (evaluate (ops := Latin1) (svc := one_passage)))
          [sample (u "¿EBITDA?") (u "120 millones")] nothing_yet
        = (w', Raise x)
        /\ files w' = ∅)
  /\ (exists x,
        RAGPipeline.evaluate (ops := Latin1) (svc := one_passage)
          (fs := writable) None [] nothing_yet = (nothing_yet, Raise x)
        /\ exn_cls x = ZeroDivisionError).
Proof.
  split; [| split].
  - destruct (evaluate_writes_all_or_nothing (ops := Latin1)
                (svc := one_passage) (fs := writable)
                (Some (evaluate (ops := Latin1) (svc := one_passage)))
                [sample (u "¿EBITDA?") (u "120 millones")] nothing_yet)
      as (_ & Hret & _).
    eexists _, _.
    edestruct Hret as (_ & _ & _ & metrics & Hm & Hfiles);
      [by vm_compute |].
    exists metrics. split; [by vm_compute |]. by split.
  - destruct (evaluate_writes_all_or_nothing (ops := Latin1)
                (svc := one_passage) (fs := no_results_directory)
                (Some (evaluate (ops := Latin1) (svc := one_passage)))
                [sample (u "¿EBITDA?") (u "120 millones")] nothing_yet)
      as (Hraise & _).
    eexists _, _. split; [by vm_compute |].
    eapply Hraise. by vm_compute.
  - destruct (evaluate_writes_all_or_nothing (ops := Latin1)
                (svc := one_passage) (fs := writable) None [] nothing_yet)
      as (_ & _ & Hempty).
    by apply Hempty.
Defined.

(** One question: 6 + 6 + 10 seconds before the rerank request, 1.5
    before the embedding request. *)
Lemma evaluate_pacing_witness :
  (22 <= slept (calls (RAGPipeline.evaluate (ops := Latin1)
                         (svc := one_passage) (fs := writable)
                         (Some (evaluate (ops := Latin1) (svc := one_passage)))
                         [sample (u "¿EBITDA?") (u "120 millones")]
                         nothing_yet).1))%Q.
Proof.
  destruct (evaluate_pacing (ops := Latin1) (svc := one_passage)
              (fs := writable) [sample (u "¿EBITDA?") (u "120 millones")]
              nothing_yet) as (t' & -> & _ & Hlow).
  cbn [calls nothing_yet app]. eapply Qle_trans; [| eapply Hlow; by vm_compute].
  by vm_compute.
Defined.

Lemma evaluate_results_follow_questions_witness :
  exists w' results,
    RAGPipeline.evaluate (ops := Latin1) (svc := one_passage) (fs := writable)
      (Some (evaluate (ops := Latin1) (svc := one_passage)))
      [sample (u "¿EBITDA?") (u "120 millones")] nothing_yet
    = (w', Ret results)
    /\ Forall2 (fun (item : gmap str str) r =>
                  item !! u "question" = Some (question r)
                  /\ item !! u "answer" = Some (expected_answer r)
                  /\ filtered (response r))
               [sample (u "¿EBITDA?") (u "120 millones")] results.
Proof.
  eexists _, _. split; [by vm_compute |].
  eapply (evaluate_results_follow_questions (ops := Latin1)
            (svc := one_passage) (fs := writable) _ nothing_yet).
  by vm_compute.
Defined.
